(** * Bus boarding optimizer: the sequencing engine of [backend/main.py]

    A shallow embedding of [OptimizedBoardingProcessor] (seat distances with a
    memo table, heap-based ordering of bookings, the efficiency report), of
    [BookingProcessor] (the parser of booking texts, the legacy resolver) and
    of the parts of the Python runtime they rely on:

    - [float] is IEEE-754 binary64, through the executable specification
      [SpecFloat] of the Standard Library (precision 53, emax 1024);
    - [str] is [string]; a character is a code point below 256, on which
      [\d] and [[0-9]] coincide: the texts and labels of all that follows are
      the Python strings of such characters;
    - [int] of a string of digits is CPython's, with its limit of 4300
      digits;
    - [dict] used as a memo table is a [gmap];
    - a raised exception is the [Raise] branch of [result];
    - [heapq.heappush], [heapq.heappop] follow [Lib/heapq.py];
    - [str.strip], [str.split], [str.join], [str.replace], [in] and the
      three patterns of the parser are functions on [string];
    - [re] is a local name of [parse_booking_data], which imports it inside
      its loop: whether it is bound is part of the state of the loop.

    Not modelled: wall-clock [processingTime], the derived [hitRate] and the
    [print] of the diagnostics, the write-only [booking_map], and the HTTP
    endpoints around the processor. *)

From Stdlib Require Import ZArith String Ascii List Bool Lia Permutation Sorted ZifyNat.
From Stdlib Require Import Floats.SpecFloat.
From stdpp Require Import gmap strings list fin_maps.

Open Scope string_scope.
Open Scope list_scope.

(* [lia] on the index arithmetic of the heap: [(pos - 1) / 2]. *)
Ltac Zify.zify_post_hook ::= Z.div_mod_to_equations.

(* ===================================================================== *)
(** * Part I: the model *)
(* ===================================================================== *)

(** ** Exceptions *)

Inductive exn : Type :=
| ValueError_invalid_seat (seat_label : string)
    (* raise ValueError(f"Invalid seat format: {seat_label}") *)
| ValueError_empty_sequence
    (* max() / min() of an empty list *)
| ValueError_int_max_str_digits
    (* int(digits): exceeds the limit (4300 digits) for integer string
       conversion *)
| OverflowError
    (* float(row): int too large to convert to float *)
| UnboundLocalError
    (* cannot access local variable 're' where it is not associated with a
       value *)
| TypeError_dict_lt
    (* '<' not supported between instances of 'dict' and 'dict' *)
| IndexError
    (* list index out of range, pop from empty list *)
| ZeroDivisionError
    (* division by zero *)
| OutOfFuel.
    (* a loop of the model exceeded its bound; never happens: what the
       heap operations raise is raised by a comparison, see
       [heappush_spec], [heappop_spec], [pop_bookings_spec] *)

Inductive result (A : Type) : Type :=
| Ok (a : A)
| Raise (e : exn).
Arguments Ok {A} a.
Arguments Raise {A} e.

#[global] Instance result_ret : MRet result := fun A a => Ok a.
#[global] Instance result_bind : MBind result :=
  fun A B f m => match m with Ok a => f a | Raise e => Raise e end.

Definition is_ok {A} (r : result A) : bool :=
  match r with Ok _ => true | Raise _ => false end.

(** ** Python floats: binary64 *)

Module PyFloat.

Definition prec : Z := 53.
Definition emax : Z := 1024.

Abbreviation float := spec_float.

Definition add : float -> float -> float := SFadd prec emax.
Definition sub : float -> float -> float := SFsub prec emax.
Definition mul : float -> float -> float := SFmul prec emax.
Definition div : float -> float -> float := SFdiv prec emax.
Definition neg : float -> float := SFopp.

  (** [a < b], [a <= b], [a == b] *)
Definition ltb : float -> float -> bool := SFltb.
Definition leb : float -> float -> bool := SFleb.
Definition eqb : float -> float -> bool := SFeqb.

  (** The double nearest to an integer (ties to even); an infinity beyond
      the range. *)
Definition of_Z (z : Z) : float := binary_normalize prec emax z 0 false.

  (** [float(n)] for an [int] [n]. *)
Definition of_int (z : Z) : result float :=
    match of_Z z with
    | S754_infinity _ => Raise OverflowError
    | f => Ok f
    end.

  (** [a / b] for two [int]s: the quotient of the integers, correctly rounded. *)
Definition int_truediv (a b : Z) : result float :=
  match a, b with
  | _, Z0 => Raise ZeroDivisionError
  | Z0, _ => Ok (S754_zero (b <? 0)%Z)
  | _, _ =>
      let '(q, e, l) :=
        SFdiv_core_binary prec emax (Z.abs a) 0 (Z.abs b) 0 in
      match binary_round_aux prec emax (xorb (a <? 0)%Z (b <? 0)%Z) q e l with
      | S754_infinity _ => Raise OverflowError
      | f => Ok f
      end
  end.

(** The value of a decimal literal [num/den], e.g. [literal 103 10] for
      [10.3]: the correctly rounded quotient of two exact doubles. *)
Definition literal (num den : Z) : float := div (of_Z num) (of_Z den).

Definition zero : float := S754_zero false.

Definition is_nan (f : float) : bool :=
    match f with S754_nan => true | _ => false end.

  (** Integer [v] with [x = v * 2^-1074] for a finite [x] whose exponent is
      at least [-1074], as it is for every double. *)
Definition scaled (x : float) : Z :=
    match x with
    | S754_finite s m e => cond_Zopp s (Z.pos m * 2 ^ (e + 1074))
    | _ => 0
    end.

End PyFloat.

Abbreviation float := spec_float.

(** A Python number as the analyzer returns it: the [int] [0] of the empty
    report and of an untouched accumulator, a [float] otherwise. *)
Inductive number : Type :=
| PyInt (z : Z)
| PyFloat (f : float).

Definition number_to_float (n : number) : float :=
  match n with
  | PyInt z => PyFloat.of_Z z
  | PyFloat f => f
  end.

(** [n == m] across [int] and [float] (the ints here are small). *)
Definition number_eqb (n m : number) : bool :=
  match n, m with
  | PyInt a, PyInt b => Z.eqb a b
  | _, _ => PyFloat.eqb (number_to_float n) (number_to_float m)
  end.

(** [acc += x] with a float [x]. *)
Definition number_add_float (acc : number) (x : float) : number :=
  PyFloat (PyFloat.add (number_to_float acc) x).

(** ** Python strings and the seat pattern *)

Definition is_column (c : ascii) : bool :=
  (65 <=? nat_of_ascii c)%nat && (nat_of_ascii c <=? 68)%nat.     (* [A-D] *)

Definition is_digit (c : ascii) : bool :=
  (48 <=? nat_of_ascii c)%nat && (nat_of_ascii c <=? 57)%nat.
  (* \d: below 256 the decimal digits are [0-9] *)

(** Greedy [\d*]: the longest prefix of digits, and the rest. *)
Fixpoint span_digits (s : string) : string * string :=
  match s with
  | String c s' =>
      if is_digit c then let (ds, tl) := span_digits s' in (String c ds, tl)
      else (EmptyString, s)
  | EmptyString => (EmptyString, EmptyString)
  end.

(** [$] without [re.MULTILINE]: at the end of the string, or just before a
    newline that ends the string. *)
Definition at_dollar (s : string) : bool :=
  match s with
  | EmptyString => true
  | String c EmptyString => (nat_of_ascii c =? 10)%nat
  | _ => false
  end.

(** [re.match(r'^([A-D])(\d+)$', seat_label)]: the two groups, or [None]. *)
Definition seat_match (seat_label : string) : option (ascii * string) :=
  match seat_label with
  | String c rest =>
      if is_column c then
        let (ds, tl) := span_digits rest in
        match ds with
        | EmptyString => None
        | _ => if at_dollar tl then Some (c, ds) else None
        end
      else None
  | EmptyString => None
  end.

(** The number that a string of decimal digits denotes. *)
Definition digit_value (c : ascii) : Z := Z.of_nat (nat_of_ascii c) - 48.

Fixpoint int_acc (acc : Z) (s : string) : Z :=
  match s with
  | EmptyString => acc
  | String c s' => int_acc (10 * acc + digit_value c) s'
  end.

Definition int_value (s : string) : Z := int_acc 0 s.

(** [sys.get_int_max_str_digits()], as CPython sets it. *)
Definition int_max_str_digits : nat := 4300.

(** [int(s)] for a string of decimal digits: a string of more digits than
    the limit, leading zeros counted, is refused. *)
Definition int (s : string) : result Z :=
  if (String.length s <=? int_max_str_digits)%nat then Ok (int_value s)
  else Raise ValueError_int_max_str_digits.

(** The pattern as the specification writes it, [^[A-D][0-9]+$] with no
    character before or after. *)
Fixpoint all_digits (s : string) : bool :=
  match s with
  | EmptyString => true
  | String c s' => is_digit c && all_digits s'
  end.

Definition spec_seat_label (s : string) : bool :=
  match s with
  | String c (String d ds) => is_column c && is_digit d && all_digits ds
  | _ => false
  end.

(** ** heapq *)

Section heapq.

Context {A : Type}.
  (** [a < b] on the items, which may raise. *)
Variable lt : A -> A -> result bool.

Definition getitem (heap : list A) (i : nat) : result A :=
    match heap !! i with
    | Some x => Ok x
    | None => Raise IndexError
    end.

Definition setitem (heap : list A) (i : nat) (x : A) : result (list A) :=
    if decide (i < length heap)%nat then Ok (<[i := x]> heap)
    else Raise IndexError.

  (** The [while pos > startpos] loop of [_siftdown]; it runs at most [pos]
      times. *)
Fixpoint _siftdown_loop (fuel : nat) (heap : list A) (startpos pos : nat)
      (newitem : A) : result (list A) :=
    if decide (startpos < pos)%nat then
      match fuel with
      | O => Raise OutOfFuel
      | S fuel' =>
          let parentpos := ((pos - 1) / 2)%nat in
          parent ← getitem heap parentpos;
          b ← lt newitem parent;
          if b : bool then
            heap' ← setitem heap pos parent;
            _siftdown_loop fuel' heap' startpos parentpos newitem
          else setitem heap pos newitem
      end
    else setitem heap pos newitem.

Definition _siftdown (heap : list A) (startpos pos : nat) : result (list A) :=
    newitem ← getitem heap pos;
    _siftdown_loop pos heap startpos pos newitem.

  (** The [while childpos < endpos] loop of [_siftup]: the smaller child
      moves up until [pos] is a leaf; returns the array and that leaf. *)
Fixpoint _siftup_loop (fuel : nat) (heap : list A) (endpos pos childpos : nat)
      : result (list A * nat) :=
    if decide (childpos < endpos)%nat then
      match fuel with
      | O => Raise OutOfFuel
      | S fuel' =>
          let rightpos := (childpos + 1)%nat in
          childpos' ←
            (if decide (rightpos < endpos)%nat then
               l ← getitem heap childpos;
               r ← getitem heap rightpos;
               b ← lt l r;
               mret (if b : bool then childpos else rightpos)
             else mret childpos);
          child ← getitem heap childpos';
          heap' ← setitem heap pos child;
          _siftup_loop fuel' heap' endpos childpos' (2 * childpos' + 1)%nat
      end
    else mret (heap, pos).

Definition _siftup (heap : list A) (pos : nat) : result (list A) :=
    let endpos := length heap in
    let startpos := pos in
    newitem ← getitem heap pos;
    '(heap', pos') ← _siftup_loop endpos heap endpos pos (2 * pos + 1)%nat;
    heap'' ← setitem heap' pos' newitem;
    _siftdown heap'' startpos pos'.

Definition heappush (heap : list A) (item : A) : result (list A) :=
    let heap := (heap ++ [item])%list in
    _siftdown heap 0 (length heap - 1).

  (** [heappop(heap)]: the popped item and the heap left. *)
Definition heappop (heap : list A) : result (A * list A) :=
    match last heap with
    | None => Raise IndexError
    | Some lastelt =>
        let heap := removelast heap in
        match heap with
        | [] => mret (lastelt, heap)
        | returnitem :: _ =>
            heap' ← setitem heap 0 lastelt;
            heap'' ← _siftup heap' 0;
            mret (returnitem, heap'')
        end
    end.

End heapq.

(** ** Python built-ins used by the processor *)

(** [max(l)]: the first item that no later item exceeds. *)
Definition py_max (l : list float) : result float :=
  match l with
  | [] => Raise ValueError_empty_sequence
  | x :: l' => Ok (fold_left (fun m y => if PyFloat.ltb m y then y else m) l' x)
  end.

(** [min(l)]: the first item that no later item is below. *)
Definition py_min (l : list float) : result float :=
  match l with
  | [] => Raise ValueError_empty_sequence
  | x :: l' => Ok (fold_left (fun m y => if PyFloat.ltb y m then y else m) l' x)
  end.

(** [sum(l)] for a non-empty list of floats: [0 + l[0] + l[1] + ...] from
    the left (the plain accumulation of CPython up to 3.11). *)
Definition py_sum (l : list float) : float :=
  fold_left PyFloat.add l (PyFloat.of_Z 0).

(** [range(a, b)] *)
Definition range (a b : nat) : list nat := seq a (b - a).

(** [for x in xs: s = body(x, s)], stopping at the first exception. *)
Fixpoint for_each {X S : Type} (xs : list X) (body : X -> S -> result S) (s : S)
    : result S :=
  match xs with
  | [] => Ok s
  | x :: xs' => s' ← body x s; for_each xs' body s'
  end.

(** [sorted(l, key=key)] with float keys, by its contract: a stable sort on
    keys compared with [<].  Where the keys are totally ordered (no NaN)
    every stable sort returns this list. *)
Fixpoint insert_by_key {X : Type} (key : X -> float) (x : X) (l : list X) : list X :=
  match l with
  | [] => [x]
  | y :: l' =>
      if PyFloat.ltb (key y) (key x) then y :: insert_by_key key x l'
      else x :: l
  end.

Fixpoint sorted {X : Type} (key : X -> float) (l : list X) : list X :=
  match l with
  | [] => []
  | x :: l' => insert_by_key key x (sorted key l')
  end.

(** ** Data *)

Module Booking.
Record t : Type := { bookingId : string; seats : list string }.
End Booking.

Module BookingInfo.
Record t : Type := {
  bookingId : string;
  seats : list string;
  maxDistance : float;
  minDistance : float;
  seatCount : nat
}.

(** [==] on two such dicts: the values under each key are [==]. *)
Definition eqb (a b : t) : bool :=
  String.eqb (bookingId a) (bookingId b)
  && bool_decide (seats a = seats b)
  && PyFloat.eqb (maxDistance a) (maxDistance b)
  && PyFloat.eqb (minDistance a) (minDistance b)
  && Nat.eqb (seatCount a) (seatCount b).
End BookingInfo.

Module Entry.
Record t : Type := {
  sequence : nat;
  bookingId : string;
  seats : list string;
  maxDistance : float;
  minDistance : float
}.
End Entry.

(** The heap holds tuples [(-maxDistance, bookingId, booking_info)]. *)
Definition heap_item : Type := float * string * BookingInfo.t.

(** [a < b] on two such tuples: the first position where they are not [==]
    decides, and there the third components are dicts, which have no [<]. *)
Definition tuple_lt (a b : heap_item) : result bool :=
  let '(d1, id1, info1) := a in
  let '(d2, id2, info2) := b in
  if negb (PyFloat.eqb d1 d2) then Ok (PyFloat.ltb d1 d2)
  else if negb (String.eqb id1 id2) then Ok (String.ltb id1 id2)
  else if negb (BookingInfo.eqb info1 info2) then Raise TypeError_dict_lt
  else Ok false.

Record sequencing_result : Type := {
  boardingSequence : list Entry.t;
  totalBookings : nat;
  totalPassengers : nat;
  cacheStats_hits : nat;
  cacheStats_misses : nat
}.

Record efficiency : Type := {
  averageDistance : number;
  blockingPotential : number;
  optimalityScore : number
}.

(** ** OptimizedBoardingProcessor *)

Record processor : Type := {
  seat_cache : gmap string float;
  cache_hits : nat;
  cache_misses : nat
}.

Definition __init__ : processor :=
  {| seat_cache := ∅; cache_hits := 0; cache_misses := 0 |}.

(** [self.column_weights.get(column, 0)] *)
Definition column_weights_get (column : ascii) : number :=
  if Ascii.eqb column "A" then PyFloat (PyFloat.literal 3 10)
  else if Ascii.eqb column "B" then PyFloat (PyFloat.literal 2 10)
  else if Ascii.eqb column "C" then PyFloat (PyFloat.literal 1 10)
  else if Ascii.eqb column "D" then PyFloat PyFloat.zero
  else PyInt 0.

Definition _calculate_seat_distance (seat_label : string) : result float :=
  match seat_match seat_label with
  | None => Raise (ValueError_invalid_seat seat_label)
  | Some (column, digits) =>
      row ← int digits;
      distance ← PyFloat.of_int row;
      mret (PyFloat.add distance (number_to_float (column_weights_get column)))
  end.

Definition get_seat_distance (seat_label : string) (self : processor)
    : result float * processor :=
  match seat_cache self !! seat_label with
  | Some d =>
      (Ok d, {| seat_cache := seat_cache self;
                cache_hits := cache_hits self + 1;
                cache_misses := cache_misses self |})
  | None =>
      let self := {| seat_cache := seat_cache self;
                     cache_hits := cache_hits self;
                     cache_misses := cache_misses self + 1 |} in
      match _calculate_seat_distance seat_label with
      | Raise e => (Raise e, self)
      | Ok distance =>
          (Ok distance,
           {| seat_cache := <[seat_label := distance]> (seat_cache self);
              cache_hits := cache_hits self;
              cache_misses := cache_misses self |})
      end
  end.

Definition clear_cache (self : processor) : processor :=
  {| seat_cache := ∅; cache_hits := 0; cache_misses := 0 |}.

(** [[self.get_seat_distance(seat) for seat in seats]] *)
Fixpoint seat_distances (seats : list string) (self : processor)
    : result (list float) * processor :=
  match seats with
  | [] => (Ok [], self)
  | seat :: seats' =>
      match get_seat_distance seat self with
      | (Raise e, self) => (Raise e, self)
      | (Ok d, self) =>
          match seat_distances seats' self with
          | (Raise e, self) => (Raise e, self)
          | (Ok ds, self) => (Ok (d :: ds), self)
          end
      end
  end.

(** The body of [for booking in bookings], after the distances. *)
Definition push_booking (booking : Booking.t) (seat_distances : list float)
    (booking_data : list heap_item) : result (list heap_item) :=
  let booking_id := Booking.bookingId booking in
  let seats := Booking.seats booking in
  max_distance ← py_max seat_distances;
  min_distance ← py_min seat_distances;
  let booking_info :=
    {| BookingInfo.bookingId := booking_id;
       BookingInfo.seats := seats;
       BookingInfo.maxDistance := max_distance;
       BookingInfo.minDistance := min_distance;
       BookingInfo.seatCount := length seats |} in
  heappush tuple_lt booking_data
    (PyFloat.neg max_distance, booking_id, booking_info).

(** [for booking in bookings: ...] *)
Fixpoint push_bookings (bookings : list Booking.t) (booking_data : list heap_item)
    (self : processor) : result (list heap_item) * processor :=
  match bookings with
  | [] => (Ok booking_data, self)
  | booking :: bookings' =>
      match seat_distances (Booking.seats booking) self with
      | (Raise e, self) => (Raise e, self)
      | (Ok ds, self) =>
          match push_booking booking ds booking_data with
          | Raise e => (Raise e, self)
          | Ok booking_data => push_bookings bookings' booking_data self
          end
      end
  end.

(** [while booking_data: ...]; each turn pops one item, so the loop runs
    [len(booking_data)] times. *)
Fixpoint pop_bookings (fuel : nat) (booking_data : list heap_item)
    (sequence_num : nat) (boarding_sequence : list Entry.t)
    : result (list Entry.t) :=
  match booking_data with
  | [] => Ok boarding_sequence
  | _ :: _ =>
      match fuel with
      | O => Raise OutOfFuel
      | S fuel' =>
          '(item, booking_data) ← heappop tuple_lt booking_data;
          let '(neg_distance, booking_id, booking_info) := item in
          pop_bookings fuel' booking_data (sequence_num + 1)
            (boarding_sequence ++
             [ {| Entry.sequence := sequence_num;
                  Entry.bookingId := BookingInfo.bookingId booking_info;
                  Entry.seats := BookingInfo.seats booking_info;
                  Entry.maxDistance := BookingInfo.maxDistance booking_info;
                  Entry.minDistance := BookingInfo.minDistance booking_info |} ])%list
      end
  end.

Definition process_bookings_with_heap (bookings : list Booking.t)
    (self : processor) : result sequencing_result * processor :=
  match push_bookings bookings [] self with
  | (Raise e, self) => (Raise e, self)
  | (Ok booking_data, self) =>
      match pop_bookings (length booking_data) booking_data 1 [] with
      | Raise e => (Raise e, self)
      | Ok boarding_sequence =>
          (Ok {| boardingSequence := boarding_sequence;
                 totalBookings := length bookings;
                 totalPassengers :=
                   list_sum (map (fun booking => length (Booking.seats booking))
                                 bookings);
                 cacheStats_hits := cache_hits self;
                 cacheStats_misses := cache_misses self |},
           self)
      end
  end.

(** [sum(1 for i, item in enumerate(sequence)
         if item['bookingId'] == ideal_order[i]['bookingId'])] *)
Fixpoint count_correct (i : nat) (items ideal_order : list Entry.t) : result nat :=
  match items with
  | [] => Ok 0
  | item :: items' =>
      ideal ← getitem ideal_order i;
      rest ← count_correct (S i) items' ideal_order;
      mret ((if String.eqb (Entry.bookingId item) (Entry.bookingId ideal)
             then 1 else 0) + rest)
  end.

(** The two nested loops that accumulate [blocking_potential]. *)
Definition blocking_loops (sequence : list Entry.t) : result number :=
  for_each (range 0 (length sequence - 1)) (fun i blocking_potential =>
    for_each (range (i + 1) (length sequence)) (fun j blocking_potential =>
      si ← getitem sequence i;
      sj ← getitem sequence j;
      if PyFloat.ltb (Entry.maxDistance si) (Entry.maxDistance sj) then
        mret (number_add_float blocking_potential
                (PyFloat.sub (Entry.maxDistance sj) (Entry.maxDistance si)))
      else mret blocking_potential)
    blocking_potential)
  (PyInt 0).

Definition analyze_boarding_efficiency (sequence : list Entry.t)
    : result efficiency :=
  match sequence with
  | [] =>
      Ok {| averageDistance := PyInt 0;
            blockingPotential := PyInt 0;
            optimalityScore := PyInt 0 |}
  | _ :: _ =>
      let distances := map Entry.maxDistance sequence in
      let average_distance :=
        PyFloat.div (py_sum distances) (PyFloat.of_Z (Z.of_nat (length distances))) in
      blocking_potential ← blocking_loops sequence;
      let ideal_order :=
        sorted (fun x => PyFloat.neg (Entry.maxDistance x)) sequence in
      correct_positions ← count_correct 0 sequence ideal_order;
      ratio ← PyFloat.int_truediv (Z.of_nat correct_positions)
                                  (Z.of_nat (length sequence));
      let optimality_score := PyFloat.mul ratio (PyFloat.of_Z 100) in
      Ok {| averageDistance := PyFloat average_distance;
            blockingPotential := blocking_potential;
            optimalityScore := PyFloat optimality_score |}
  end.

(** ** Python strings, as the parser uses them *)

(** [c.isspace()], which is also [\s] of [re] on [str]: the code points
    9-13, 28-32, 133 and 160 below 256. *)
Definition is_space (c : ascii) : bool :=
  let n := nat_of_ascii c in
  ((9 <=? n)%nat && (n <=? 13)%nat) || ((28 <=? n)%nat && (n <=? 32)%nat)
  || (n =? 133)%nat || (n =? 160)%nat.

Definition line_feed : ascii := ascii_of_nat 10.
Definition comma : ascii := ascii_of_nat 44.
Definition double_quote : ascii := ascii_of_nat 34.

(** [s.lstrip()], [s.rstrip()], [s.strip()] *)
Fixpoint lstrip (s : string) : string :=
  match s with
  | String c s' => if is_space c then lstrip s' else s
  | EmptyString => EmptyString
  end.

Fixpoint rstrip (s : string) : string :=
  match s with
  | String c s' =>
      match rstrip s' with
      | EmptyString => if is_space c then EmptyString else String c EmptyString
      | r => String c r
      end
  | EmptyString => EmptyString
  end.

Definition strip (s : string) : string := rstrip (lstrip s).

(** [c in s] for a character [c] *)
Fixpoint contains (c : ascii) (s : string) : bool :=
  match s with
  | String c' s' => Ascii.eqb c' c || contains c s'
  | EmptyString => false
  end.

(** [s.split(sep)] for a separator of one character *)
Fixpoint split (sep : ascii) (s : string) : list string :=
  match s with
  | String c s' =>
      if Ascii.eqb c sep then EmptyString :: split sep s'
      else match split sep s' with
           | piece :: pieces => String c piece :: pieces
           | [] => [String c EmptyString]
           end
  | EmptyString => [EmptyString]
  end.

(** [sep.join(pieces)] *)
Fixpoint join (sep : string) (pieces : list string) : string :=
  match pieces with
  | [] => EmptyString
  | [piece] => piece
  | piece :: pieces' => piece ++ sep ++ join sep pieces'
  end.

(** [s.replace(c, '')] for a character [c] *)
Fixpoint remove_char (c : ascii) (s : string) : string :=
  match s with
  | String c' s' =>
      if Ascii.eqb c' c then remove_char c s' else String c' (remove_char c s')
  | EmptyString => EmptyString
  end.

(** The longest prefix of characters that satisfy [p], and the rest. *)
Fixpoint span (p : ascii -> bool) (s : string) : string * string :=
  match s with
  | String c s' =>
      if p c then let (pre, tl) := span p s' in (String c pre, tl)
      else (EmptyString, s)
  | EmptyString => (EmptyString, EmptyString)
  end.

(** A character of the class [[\s,]], which is the class [[,\s]]. *)
Definition is_separator (c : ascii) : bool := is_space c || Ascii.eqb c comma.

(** [re.split(r'[\s,]+', s)]: the pieces between the maximal runs of
    separators; [in_run] says that the character before was a separator. *)
Fixpoint re_split_from (in_run : bool) (s : string) : list string :=
  match s with
  | String c s' =>
      if is_separator c then
        if in_run then re_split_from true s'
        else EmptyString :: re_split_from true s'
      else match re_split_from false s' with
           | piece :: pieces => String c piece :: pieces
           | [] => [String c EmptyString]
           end
  | EmptyString => [EmptyString]
  end.

Definition re_split (s : string) : list string := re_split_from false s.

(** [re.match(pattern, line)] for the pattern [^([^,]+),\s*Q([^Q]+)Q], where
    [Q] stands for the double quote: the two groups, or [None].  No step of
    the pattern can give back a character, since what follows each class is
    outside the class. *)
Definition csv_match (line : string) : option (string * string) :=
  let (group1, rest) := span (fun c => negb (Ascii.eqb c comma)) line in
  match group1, rest with
  | String _ _, String _ rest =>
      match lstrip rest with
      | String q rest =>
          if Ascii.eqb q double_quote then
            let (group2, rest) := span (fun c => negb (Ascii.eqb c double_quote)) rest in
            match group2, rest with
            | String _ _, String _ _ => Some (group1, group2)
            | _, _ => None
            end
          else None
      | EmptyString => None
      end
  | _, _ => None
  end.

(** ** BookingProcessor *)

(** [calculate_seat_distance], the legacy name of [get_seat_distance]. *)
Definition calculate_seat_distance (seat_label : string) (self : processor)
    : result float * processor :=
  get_seat_distance seat_label self.

Definition _legacy_calculate_seat_distance (seat_label : string) : result float :=
  match seat_match seat_label with
  | None => Raise (ValueError_invalid_seat seat_label)
  | Some (column, digits) =>
      row ← int digits;
      distance ← PyFloat.of_int row;
      if Ascii.eqb column "C" || Ascii.eqb column "D"
      then mret (PyFloat.add distance (PyFloat.literal 1 10))
      else mret distance
  end.

(** [re.match(r'^[A-D]\d+$', seat)] as a truth value *)
Definition seat_valid (seat : string) : bool :=
  match seat_match seat with Some _ => true | None => false end.

(** [bool(s)] for a string *)
Definition nonempty (s : string) : bool :=
  match s with EmptyString => false | String _ _ => true end.

(** The first part of the body of the loop of [parse_booking_data]:
    [booking_id] and [seats_str] of a stripped line that is not empty, or
    [None] where the loop goes on to the next line.

    [re] is a local name of [parse_booking_data], since its loop imports it,
    in the branch of the lines with a double quote.  [re_bound] says whether
    the import has run; the other branch reads [re], and raises where it is
    not bound. *)
Definition line_fields (line : string) (re_bound : bool)
    : result (option (string * string) * bool) :=
  if contains double_quote line then
    let re_bound := true in                                    (* import re *)
    match csv_match line with
    | Some (group1, group2) => Ok (Some (strip group1, strip group2), re_bound)
    | None =>
        let parts := split comma line in
        if (2 <=? length parts)%nat then
          Ok (Some (strip (hd EmptyString parts),
                    strip (remove_char double_quote (join "," (tl parts)))),
              re_bound)
        else Ok (Some (EmptyString, EmptyString), re_bound)
    end
  else if negb re_bound then Raise UnboundLocalError
  else
    let parts := re_split line in
    if (length parts <? 2)%nat then Ok (None, re_bound)
    else
      let booking_id := hd EmptyString parts in
      let remaining_parts := tl parts in
      if (length remaining_parts =? 1)%nat
         && contains comma (hd EmptyString remaining_parts)
      then Ok (Some (booking_id, hd EmptyString remaining_parts), re_bound)
      else Ok (Some (booking_id, join "," remaining_parts), re_bound).

(** [[s.strip() for s in re.split(r'[,\s]+', seats_str) if s.strip()]] *)
Definition seats_of (seats_str : string) : list string :=
  List.filter nonempty (map strip (re_split seats_str)).

(** The second part of the body: the state is [bookings] and
    [booking_ids]. *)
Definition add_booking (booking_id seats_str : string)
    (state : list Booking.t * gset string) : list Booking.t * gset string :=
  let (bookings, booking_ids) := state in
  if negb (nonempty booking_id) || negb (nonempty seats_str) then state
  else if bool_decide (booking_id ∈ booking_ids) then state
  else
    let seats := seats_of seats_str in
    let valid_seats := List.filter seat_valid seats in
    match valid_seats with
    | [] => state
    | _ :: _ =>
        (bookings ++ [ {| Booking.bookingId := booking_id;
                          Booking.seats := valid_seats |} ],
         {[ booking_id ]} ∪ booking_ids)
    end.

(** The body of [for i in range(1, len(lines))]: the state is [bookings],
    [booking_ids] and whether [re] is bound. *)
Definition parse_line (raw : string) (state : list Booking.t * gset string * bool)
    : result (list Booking.t * gset string * bool) :=
  let (store, re_bound) := state in
  let line := strip raw in
  if negb (nonempty line) then Ok state
  else
    match line_fields line re_bound with
    | Raise e => Raise e
    | Ok (None, re_bound) => Ok (store, re_bound)
    | Ok (Some (booking_id, seats_str), re_bound) =>
        Ok (add_booking booking_id seats_str store, re_bound)
    end.

Definition parse_lines (lines : list string)
    (state : list Booking.t * gset string * bool)
    : result (list Booking.t * gset string * bool) :=
  for_each lines parse_line state.

Definition parse_booking_data (data : string) : result (list Booking.t) :=
  let lines := split line_feed (strip data) in
  state ← parse_lines (tl lines) ([], ∅, false);
  mret state.1.1.

Definition generate_boarding_sequence (bookings : list Booking.t) (self : processor)
    : result sequencing_result * processor :=
  process_bookings_with_heap bookings self.

(* ===================================================================== *)
(** * Specification vocabulary *)
(* ===================================================================== *)

(** ** The order of the floats

    [SFcompare] orders two floats that are not NaN as it orders their keys,
    lexicographically. *)

Definition float_key (x : float) : Z * Z * Z :=
  match x with
  | S754_nan => (0, 0, 0)%Z
  | S754_infinity true => (-2, 0, 0)%Z
  | S754_infinity false => (2, 0, 0)%Z
  | S754_zero _ => (0, 0, 0)%Z
  | S754_finite false m e => (1, e, Z.pos m)%Z
  | S754_finite true m e => (-1, - e, Z.neg m)%Z
  end.

Definition lex_lt (a b : Z * Z * Z) : Prop :=
  let '(a1, a2, a3) := a in
  let '(b1, b2, b3) := b in
  (a1 < b1 \/ (a1 = b1 /\ (a2 < b2 \/ (a2 = b2 /\ a3 < b3))))%Z.

Definition float_lt (x y : float) : Prop := lex_lt (float_key x) (float_key y).
Definition float_eq (x y : float) : Prop := float_key x = float_key y.

Definition is_finite (x : float) : bool :=
  match x with
  | S754_zero _ | S754_finite _ _ _ => true
  | _ => false
  end.

(** ** The heap invariant *)

Section heapq_spec.
Context {A : Type}.
Variable lt : A -> A -> result bool.
(** The items that can be in the heap, and their order. *)
Variable dom : A -> Prop.
Variable le : A -> A -> Prop.

(** [le] is a total preorder on [dom], and [lt] decides it where it returns. *)
Record order_on : Prop := {
  ord_refl : forall a, dom a -> le a a;
  ord_trans : forall a b c, dom a -> dom b -> dom c -> le a b -> le b c -> le a c;
  ord_total : forall a b, dom a -> dom b -> le a b \/ le b a;
  ord_lt : forall a b r, dom a -> dom b -> lt a b = Ok r -> (r = false <-> le b a)
}.

(** The exception comes from a comparison of two items. *)
Definition raised_by_lt (e : exn) : Prop :=
  exists a b, dom a /\ dom b /\ lt a b = Raise e.

(** An operation on the heap returns a value that satisfies [post], or
    raises what a comparison raised. *)
Definition ok_or_lt {X : Type} (r : result X) (post : X -> Prop) : Prop :=
  match r with
  | Ok x => post x
  | Raise e => raised_by_lt e
  end.

Definition edge_ok (h : list A) (i : nat) : Prop :=
  forall x p, h !! i = Some x -> h !! ((i - 1) / 2)%nat = Some p -> le p x.

Definition heap_ok (h : list A) : Prop :=
  forall i, (0 < i)%nat -> edge_ok h i.

(** Every edge is in order but the one from [pos] to its parent. *)
Definition heap_ok_above (h : list A) (pos : nat) : Prop :=
  forall i, (0 < i)%nat -> i <> pos -> edge_ok h i.

(** The children of [pos] are in order with the parent of [pos]. *)
Definition grand_ok (h : list A) (pos : nat) : Prop :=
  forall c x g, (0 < pos)%nat -> ((c - 1) / 2)%nat = pos -> (0 < c)%nat ->
    h !! c = Some x -> h !! ((pos - 1) / 2)%nat = Some g -> le g x.

(** Every edge that does not touch [pos] is in order. *)
Definition heap_ok_around (h : list A) (pos : nat) : Prop :=
  forall i, (0 < i)%nat -> i <> pos -> ((i - 1) / 2)%nat <> pos -> edge_ok h i.

End heapq_spec.


(** ** The order of the heap items *)

(** The first component of an item is a float and is not NaN. *)
Definition item_key_ok (a : heap_item) : Prop := PyFloat.is_nan a.1.1 = false.

(** Two items that agree on the two first components hold [==] dicts, so
    that [a < b] never reaches the dicts. *)
Definition items_compatible (a b : heap_item) : Prop :=
  PyFloat.eqb a.1.1 b.1.1 = true -> a.1.2 = b.1.2 -> BookingInfo.eqb a.2 b.2 = true.

(** [(-maxDistance, bookingId)] compared lexicographically. *)
Definition item_le (a b : heap_item) : Prop :=
  float_lt a.1.1 b.1.1
  \/ (float_eq a.1.1 b.1.1 /\ (String.ltb a.1.2 b.1.2 = true \/ a.1.2 = b.1.2)).

(** ** The sequencer without the memo table *)

(** Every memoized distance is the computed one. *)
Definition cache_consistent (self : processor) : Prop :=
  forall seat_label d,
    seat_cache self !! seat_label = Some d ->
    _calculate_seat_distance seat_label = Ok d.

(** The distances of the seats of a booking, each computed afresh. *)
Fixpoint resolve_all (seats : list string) : result (list float) :=
  match seats with
  | [] => Ok []
  | seat :: seats' =>
      d ← _calculate_seat_distance seat;
      ds ← resolve_all seats';
      mret (d :: ds)
  end.

Definition info_of (booking : Booking.t) : result BookingInfo.t :=
  ds ← resolve_all (Booking.seats booking);
  max_distance ← py_max ds;
  min_distance ← py_min ds;
  mret {| BookingInfo.bookingId := Booking.bookingId booking;
          BookingInfo.seats := Booking.seats booking;
          BookingInfo.maxDistance := max_distance;
          BookingInfo.minDistance := min_distance;
          BookingInfo.seatCount := length (Booking.seats booking) |}.

Definition item_of_info (info : BookingInfo.t) : heap_item :=
  (PyFloat.neg (BookingInfo.maxDistance info), BookingInfo.bookingId info, info).

Definition entry_of (sequence_num : nat) (item : heap_item) : Entry.t :=
  {| Entry.sequence := sequence_num;
     Entry.bookingId := BookingInfo.bookingId item.2;
     Entry.seats := BookingInfo.seats item.2;
     Entry.maxDistance := BookingInfo.maxDistance item.2;
     Entry.minDistance := BookingInfo.minDistance item.2 |}.

Fixpoint number_entries (sequence_num : nat) (items : list heap_item) : list Entry.t :=
  match items with
  | [] => []
  | item :: items' => entry_of sequence_num item :: number_entries (S sequence_num) items'
  end.

(** The items of a batch: one per booking. *)
Definition batch_item (bookings : list Booking.t) (item : heap_item) : Prop :=
  exists booking info,
    booking ∈ bookings /\ info_of booking = Ok info /\ item = item_of_info info.

(** ** What the sequencer is to return *)

(** A seat label resolves: it matches the pattern and its row converts to
    a double. *)
Definition seat_resolves (seat_label : string) : Prop :=
  is_ok (_calculate_seat_distance seat_label) = true.

(** An eligible booking: at least one seat, and every seat resolves. *)
Definition eligible (booking : Booking.t) : Prop :=
  Booking.seats booking <> [] /\ Forall seat_resolves (Booking.seats booking).

(** No two bookings of the batch share [bookingId] and [maxDistance] and
    differ in their seats. *)
Definition no_conflicting_ties (bookings : list Booking.t) : Prop :=
  forall b1 b2 info1 info2,
    b1 ∈ bookings -> b2 ∈ bookings ->
    info_of b1 = Ok info1 -> info_of b2 = Ok info2 ->
    Booking.bookingId b1 = Booking.bookingId b2 ->
    PyFloat.eqb (BookingInfo.maxDistance info1) (BookingInfo.maxDistance info2) = true ->
    Booking.seats b1 = Booking.seats b2.

Definition is_maximum (m : float) (ds : list float) : Prop :=
  m ∈ ds /\ Forall (fun d => PyFloat.leb d m = true) ds.

Definition is_minimum (m : float) (ds : list float) : Prop :=
  m ∈ ds /\ Forall (fun d => PyFloat.leb m d = true) ds.

(** The booking an entry was made from. *)
Definition booking_of_entry (entry : Entry.t) : Booking.t :=
  {| Booking.bookingId := Entry.bookingId entry; Booking.seats := Entry.seats entry |}.

(** The order in which the heap emits: [maxDistance] descending, then
    [bookingId] ascending. *)
Definition entry_le (a b : Entry.t) : Prop :=
  PyFloat.ltb (Entry.maxDistance b) (Entry.maxDistance a) = true
  \/ (PyFloat.eqb (Entry.maxDistance a) (Entry.maxDistance b) = true
      /\ (String.ltb (Entry.bookingId a) (Entry.bookingId b) = true
          \/ Entry.bookingId a = Entry.bookingId b)).

(** [entries] is what [sequence] is to return for [bookings]. *)
Record sequenced (bookings : list Booking.t) (entries : list Entry.t) : Prop := {
  seq_bookings : map booking_of_entry entries ≡ₚ bookings;
  seq_distances :
    Forall (fun entry => exists ds,
              resolve_all (Entry.seats entry) = Ok ds
              /\ is_maximum (Entry.maxDistance entry) ds
              /\ is_minimum (Entry.minDistance entry) ds) entries;
  seq_order :
    forall i j a b, (i < j)%nat ->
      entries !! i = Some a -> entries !! j = Some b -> entry_le a b;
  seq_numbers : map Entry.sequence entries = seq 1 (length bookings)
}.

(** ** What the analyzer is to return *)

(** [sum / count] in binary64. *)
Definition arithmetic_mean (ds : list float) : float :=
  PyFloat.div (py_sum ds) (PyFloat.of_Z (Z.of_nat (length ds))).

(** The position pairs [(i, j)] with [i < j < n], in the order of the loops. *)
Definition position_pairs (n : nat) : list (nat * nat) :=
  flat_map (fun i => map (fun j => (i, j)) (seq (i + 1) (n - (i + 1)))) (seq 0 n).

(** The term of the sum at the pair [(i, j)], added to [acc]. *)
Definition blocking_step (ds : list float) (acc : number) (ij : nat * nat) : number :=
  let '(i, j) := ij in
  match ds !! i, ds !! j with
  | Some di, Some dj =>
      if PyFloat.ltb di dj then number_add_float acc (PyFloat.sub dj di) else acc
  | _, _ => acc
  end.

(** The sum, over the pairs of positions [(i, j)] with [i < j] and
    [ds[i] < ds[j]], of [ds[j] - ds[i]]. *)
Definition inversion_sum (ds : list float) : number :=
  fold_left (blocking_step ds) (position_pairs (length ds)) (PyInt 0).

(** Perfectly descending by [maxDistance]. *)
Definition descending (entries : list Entry.t) : Prop :=
  forall i a b, entries !! i = Some a -> entries !! (S i) = Some b ->
    PyFloat.leb (Entry.maxDistance b) (Entry.maxDistance a) = true.

(** ** Rounding to nearest, ties to even *)

(** [m / 2^n] rounded to the nearest integer, a tie to the even one. *)
Definition rne_shift (m n : Z) : Z :=
  let q := (m / 2 ^ n)%Z in
  let rem := (m mod 2 ^ n)%Z in
  let half := (2 ^ (n - 1))%Z in
  if (half <? rem)%Z || ((half =? rem)%Z && Z.odd q) then (q + 1)%Z else q.

(** The weight [mw * 2^ew] added to a row of [d] bits is away from a tie,
    and rounds to less than one unit of the row. *)
Definition weight_ok (mw ew d : Z) : bool :=
  let n := (d - 53 - ew)%Z in
  negb (mw mod 2 ^ n =? 2 ^ (n - 1))%Z && (rne_shift mw n <? 2 ^ (53 - d))%Z.

(** ** Distances by row and column *)

(** [float(row) + weight]: what [_calculate_seat_distance] computes from the
    two groups of the match. *)
Definition distance_of (column : ascii) (row : Z) : result float :=
  distance ← PyFloat.of_int row;
  mret (PyFloat.add distance (number_to_float (column_weights_get column))).

(** The integers [lo, lo + 1, ..., lo + len - 1]. *)
Definition Zrange (lo len : nat) : list Z := map Z.of_nat (seq lo len).

(** The mantissas of the weights: [0.3 = mA * 2^-54], [0.2 = mB * 2^-55],
    [0.1 = mB * 2^-56]. *)
Definition mA : positive := 5404319552844595.
Definition mB : positive := 7205759403792794.

(** For a row of [d] bits the three weights round to distinct multiples of
    the unit of the row, in the order of the columns. *)
Definition columns_apart (d : Z) : bool :=
  (0 <? rne_shift (Z.pos mB) (d + 3))%Z
  && (rne_shift (Z.pos mB) (d + 3) <? rne_shift (Z.pos mB) (d + 2))%Z
  && (rne_shift (Z.pos mB) (d + 2) <? rne_shift (Z.pos mA) (d + 1))%Z.

(** The least integer that does not convert to a double:
    [2^1024 - 2^970], half a unit below [2^1024]. *)
Definition float_overflow : Z := (2 ^ 1024 - 2 ^ 970)%Z.

(** ** The table of the specification *)

(** [columnWeight]: A -> 0.3, B -> 0.2, C -> 0.1, D -> 0.0. *)
Definition columnWeight (column : ascii) : float :=
  if Ascii.eqb column "A" then PyFloat.literal 3 10
  else if Ascii.eqb column "B" then PyFloat.literal 2 10
  else if Ascii.eqb column "C" then PyFloat.literal 1 10
  else PyFloat.literal 0 10.

(** [n] copies of a character. *)
Fixpoint replicate_char (n : nat) (c : ascii) : string :=
  match n with
  | O => EmptyString
  | S n' => String c (replicate_char n' c)
  end.

(** ** The entries as a function of the batch alone *)

(** [push_bookings] with every distance computed afresh. *)
Fixpoint push_bookings_pure (bookings : list Booking.t) (booking_data : list heap_item)
    : result (list heap_item) :=
  match bookings with
  | [] => Ok booking_data
  | booking :: bookings' =>
      ds ← resolve_all (Booking.seats booking);
      booking_data ← push_booking booking ds booking_data;
      push_bookings_pure bookings' booking_data
  end.

Definition entries_of (bookings : list Booking.t) : result (list Entry.t) :=
  booking_data ← push_bookings_pure bookings [];
  pop_bookings (length booking_data) booking_data 1 [].

(** ** Repeated resolves *)

(** [[self.get_seat_distance(seat_label) for _ in range(n)]], an exception
    kept as the result of its call. *)
Fixpoint resolve_times (n : nat) (seat_label : string) (self : processor)
    : list (result float) * processor :=
  match n with
  | O => ([], self)
  | S n' =>
      let (r, self) := get_seat_distance seat_label self in
      let (rs, self) := resolve_times n' seat_label self in
      (r :: rs, self)
  end.

(** ** Batches and labels of the specification and of the tests *)

Definition booking (booking_id : string) (seats : list string) : Booking.t :=
  {| Booking.bookingId := booking_id; Booking.seats := seats |}.

(** [{"101": [A1,B1]}, {"120": [A20,C2]}, {"150": [D15,C15]}] *)
Definition scenario : list Booking.t :=
  [booking "101" ["A1"; "B1"]; booking "120" ["A20"; "C2"];
   booking "150" ["D15"; "C15"]].

(** The line feed, and a label followed by one. *)
Definition newline : string := String (ascii_of_nat 10) EmptyString.

Definition A1_newline : string := "A1" ++ newline.

(** A seat in column A whose row is written with 309 nines. *)
Definition far_label : string := String "A" (replicate_char 309 "9").

Definition far_batch : list Booking.t := [booking "1" [far_label]].

(** A seat in column A whose row is written with 4301 digits: 4300 zeros
    and a seven. *)
Definition long_label : string := String "A" (replicate_char 4300 "0" ++ "7").

Definition long_batch : list Booking.t := [booking "1" [long_label]].

(** Two bookings under one id, both with [A1] as their farthest seat. *)
Definition shared_id_batch : list Booking.t :=
  [booking "7" ["A1"]; booking "7" ["A1"; "B1"]].

(** Two bookings with the same farthest seat, the greater id first. *)
Definition tie_batch : list Booking.t :=
  [booking "2" ["A1"]; booking "1" ["A1"]].

(** A booking that names one seat twice. *)
Definition repeated_seat_batch : list Booking.t := [booking "1" ["A1"; "A1"]].

(** A booking with no seat, after one with a seat. *)
Definition empty_seats_batch : list Booking.t :=
  [booking "1" ["A1"]; booking "2" []].

(** The two entries of [test_analyze_boarding_efficiency]. *)
Definition test_sequence : list Entry.t :=
  [ {| Entry.sequence := 1; Entry.bookingId := "101"; Entry.seats := ["A20"];
       Entry.maxDistance := PyFloat.literal 203 10;
       Entry.minDistance := PyFloat.literal 203 10 |};
    {| Entry.sequence := 2; Entry.bookingId := "102"; Entry.seats := ["A10"];
       Entry.maxDistance := PyFloat.literal 103 10;
       Entry.minDistance := PyFloat.literal 103 10 |} ].

(** The rows at which the claims on the order of the seats stop to hold:
    [2^49] and [2^53]. *)
Definition row_2_49 : string := "562949953421312".
Definition row_2_53 : string := "9007199254740992".
Definition row_2_53_plus_1 : string := "9007199254740993".

(** ** The claims of the specification, as it words them *)

(** An eligible booking in the words of the specification: at least one
    seat, every seat matching [^[A-D][0-9]+$]. *)
Definition spec_eligible (booking : Booking.t) : Prop :=
  Booking.seats booking <> []
  /\ Forall (fun seat => spec_seat_label seat = true) (Booking.seats booking).

(** Ties in arrival order: of two entries with [==] [maxDistance], the one
    emitted first comes from the booking that is first in the input. *)
Definition arrival_order_on_ties (bookings : list Booking.t) (entries : list Entry.t)
    : Prop :=
  forall i j a b, (i < j)%nat ->
    entries !! i = Some a -> entries !! j = Some b ->
    PyFloat.eqb (Entry.maxDistance a) (Entry.maxDistance b) = true ->
    exists i' j', (i' < j')%nat
      /\ bookings !! i' = Some (booking_of_entry a)
      /\ bookings !! j' = Some (booking_of_entry b).

(** ** What the parser is to return *)

(** A booking as the parser hands it to the sequencer: an id that is not
    empty, at least one seat, every seat a label of [^[A-D][0-9]+$]. *)
Definition well_formed (booking : Booking.t) : Prop :=
  Booking.bookingId booking <> EmptyString
  /\ Booking.seats booking <> []
  /\ Forall (fun seat => spec_seat_label seat = true) (Booking.seats booking).

(** The state of the loop of the parser: the bookings are well formed,
    their ids are distinct and are the members of [booking_ids]. *)
Definition parse_invariant (state : list Booking.t * gset string) : Prop :=
  Forall well_formed state.1
  /\ NoDup (map Booking.bookingId state.1)
  /\ forall booking_id,
       booking_id ∈ state.2 <-> booking_id ∈ map Booking.bookingId state.1.

(** The number of occurrences of a character in a string. *)
Fixpoint occurrences (c : ascii) (s : string) : nat :=
  match s with
  | String c' s' => (if Ascii.eqb c' c then 1 else 0) + occurrences c s'
  | EmptyString => 0
  end.

(** ** The states of a processor *)

(** The states that calls of the methods reach from a new processor. *)
Inductive reachable : processor -> Prop :=
| reachable_init : reachable __init__
| reachable_get_seat_distance seat_label self :
    reachable self -> reachable (snd (get_seat_distance seat_label self))
| reachable_calculate_seat_distance seat_label self :
    reachable self -> reachable (snd (calculate_seat_distance seat_label self))
| reachable_process_bookings_with_heap bookings self :
    reachable self -> reachable (snd (process_bookings_with_heap bookings self))
| reachable_generate_boarding_sequence bookings self :
    reachable self -> reachable (snd (generate_boarding_sequence bookings self))
| reachable_clear_cache self :
    reachable self -> reachable (clear_cache self).

(** What a call adds to the counters and to the table: [n] lookups, each a
    hit or a miss; no label leaves the table; of the misses, those that
    resolved added one label each. *)
Record lookups (n : nat) (self self' : processor) : Prop := {
  lookups_total :
    (cache_hits self' + cache_misses self' = cache_hits self + cache_misses self + n)%nat;
  lookups_hits : (cache_hits self <= cache_hits self')%nat;
  lookups_misses : (cache_misses self <= cache_misses self')%nat;
  lookups_cache : seat_cache self ⊆ seat_cache self';
  lookups_size :
    (size (seat_cache self') + cache_misses self
     <= size (seat_cache self) + cache_misses self')%nat
}.

(** ** The order of the distances *)

(** [x <= y] as [x] is [y], or [x < y]. *)
Definition same_or_ltb (x y : float) : Prop := x = y \/ PyFloat.ltb x y = true.

(** ** Inputs of the tests *)

(** The text of [test_parse_booking_data_standard_format]. *)
Definition tab : string := String (ascii_of_nat 9) EmptyString.

Definition standard_data : string :=
  "Booking_ID" ++ tab ++ "Seats" ++ String line_feed EmptyString
  ++ "101" ++ tab ++ "A1,B1" ++ String line_feed EmptyString
  ++ "120" ++ tab ++ "A20,C2".

(** The double quote, as a string. *)
Definition quote : string := String double_quote EmptyString.

(** The text of [test_parse_booking_data_csv_format]. *)
Definition csv_data : string :=
  "Booking_ID,Seats" ++ newline
  ++ "101," ++ quote ++ "A1,B1" ++ quote ++ newline
  ++ "120, " ++ quote ++ "A20,C2" ++ quote ++ " ".

(** The text of [test_parse_booking_data_mixed_formats]. *)
Definition mixed_data : string :=
  "Booking_ID,Seats" ++ newline
  ++ "101," ++ quote ++ "A1,B1" ++ quote ++ newline
  ++ "120 A20,C2" ++ newline
  ++ "130" ++ tab ++ "D15,C15".

(** A text with quoted lines, two of them under one id. *)
Definition duplicate_data : string :=
  "Booking_ID,Seats" ++ newline
  ++ "101," ++ quote ++ "A1,B1" ++ quote ++ newline
  ++ "101," ++ quote ++ "A2,B2" ++ quote ++ newline
  ++ "120," ++ quote ++ "A20,C2" ++ quote.

(** The first line after the header that is not blank, stripped. *)
Definition first_data_line (data : string) : option string :=
  List.find nonempty (map strip (tl (split line_feed (strip data)))).

(** The batch of the specification, last booking first. *)
Definition scenario_reversed : list Booking.t := rev scenario.

(** ** Texts that the parser reads back *)

Fixpoint string_forallb (p : ascii -> bool) (s : string) : bool :=
  match s with
  | String c s' => p c && string_forallb p s'
  | EmptyString => true
  end.

(** A character that is no space, no comma and no double quote. *)
Definition plain (c : ascii) : bool :=
  negb (is_separator c) && negb (Ascii.eqb c double_quote).

(** A word: at least one character, all plain. *)
Definition word (s : string) : Prop :=
  s <> EmptyString /\ string_forallb plain s = true.

(** A line [id,Qseat,seat,...Q] for a booking, [Q] the double quote, and a
    text with a header and one such line per booking. *)
Definition render_line (b : Booking.t) : string :=
  Booking.bookingId b ++ "," ++ quote ++ join "," (Booking.seats b) ++ quote.

Definition render (bookings : list Booking.t) : string :=
  join (String line_feed EmptyString) ("Booking_ID,Seats" :: map render_line bookings).

(** A booking that a line can carry: its id is a word, it has a seat, its
    seats are labels of the specification. *)
Definition renderable (b : Booking.t) : Prop :=
  word (Booking.bookingId b)
  /\ Booking.seats b <> []
  /\ Forall (fun seat => spec_seat_label seat = true) (Booking.seats b).

(** A string that [rstrip] leaves as it is, and that is not empty. *)
Definition ends_well (s : string) : Prop := rstrip s = s /\ s <> EmptyString.

(* ===================================================================== *)
(** * Part II: properties *)
(* ===================================================================== *)

(** ** Floats *)

Section float_order.
Local Open Scope Z_scope.

Lemma SFcompare_spec (x y : float) :
  PyFloat.is_nan x = false -> PyFloat.is_nan y = false ->
  exists c, SFcompare x y = Some c /\
    CompareSpec (float_eq x y) (float_lt x y) (float_lt y x) c.
Proof.
  intros Hx Hy. unfold float_eq, float_lt.
  destruct x as [[|]|[|]| |[|] m e], y as [[|]|[|]| |[|] m' e']; try discriminate;
    cbn [SFcompare float_key lex_lt];
    try (eexists; split; [reflexivity|]; constructor; cbn; (reflexivity || lia)).
  - eexists; split; [reflexivity|].
    change (Pos.compare_cont Eq m m') with (Pos.compare m m').
    destruct (Z.compare_spec e e'), (Pos.compare_spec m m'); cbn; constructor;
      subst; first [reflexivity | lia].
  - eexists; split; [reflexivity|].
    change (Pos.compare_cont Eq m m') with (Pos.compare m m').
    destruct (Z.compare_spec e e'), (Pos.compare_spec m m'); cbn; constructor;
      subst; first [reflexivity | lia].
Qed.

Lemma ltb_true_iff x y :
  PyFloat.ltb x y = true <->
  PyFloat.is_nan x = false /\ PyFloat.is_nan y = false /\ float_lt x y.
Proof.
  unfold PyFloat.ltb, SFltb. split.
  - destruct x, y; try discriminate; intros H; (split; [reflexivity|split; [reflexivity|]]).
    all: match goal with |- float_lt ?a ?b =>
      destruct (SFcompare_spec a b eq_refl eq_refl) as (c & Hc & Hs) end.
    all: rewrite Hc in H; destruct Hs; try discriminate; assumption.
  - intros (Hx & Hy & Hlt).
    destruct (SFcompare_spec x y Hx Hy) as (c & -> & Hs).
    destruct Hs as [He|Hl|Hg]; [|reflexivity|]; exfalso; revert Hlt.
    + unfold float_eq, float_lt in *. rewrite He.
      destruct (float_key y) as [[a b] c]. cbn. lia.
    + revert Hg. unfold float_eq, float_lt in *.
      destruct (float_key x) as [[a b] c], (float_key y) as [[a' b'] c']. cbn. lia.
Qed.

Lemma leb_true_iff x y :
  PyFloat.leb x y = true <->
  PyFloat.is_nan x = false /\ PyFloat.is_nan y = false /\ (float_lt x y \/ float_eq x y).
Proof.
  unfold PyFloat.leb, SFleb. split.
  - destruct x, y; try discriminate; intros H; (split; [reflexivity|split; [reflexivity|]]).
    all: match goal with |- float_lt ?a ?b \/ _ =>
      destruct (SFcompare_spec a b eq_refl eq_refl) as (c & Hc & Hs) end.
    all: rewrite Hc in H; destruct Hs; try discriminate; auto.
  - intros (Hx & Hy & Hle).
    destruct (SFcompare_spec x y Hx Hy) as (c & -> & Hs).
    destruct Hs as [He|Hl|Hg]; [reflexivity|reflexivity|]; exfalso; revert Hle Hg.
    unfold float_eq, float_lt in *.
    destruct (float_key x) as [[a b] c], (float_key y) as [[a' b'] c']. cbn.
    intros [H|H] H'; [lia|]. injection H as -> -> ->. lia.
Qed.

Lemma eqb_true_iff x y :
  PyFloat.eqb x y = true <->
  PyFloat.is_nan x = false /\ PyFloat.is_nan y = false /\ float_eq x y.
Proof.
  unfold PyFloat.eqb, SFeqb. split.
  - destruct x, y; try discriminate; intros H; (split; [reflexivity|split; [reflexivity|]]).
    all: match goal with |- float_eq ?a ?b =>
      destruct (SFcompare_spec a b eq_refl eq_refl) as (c & Hc & Hs) end.
    all: rewrite Hc in H; destruct Hs; try discriminate; auto.
  - intros (Hx & Hy & He).
    destruct (SFcompare_spec x y Hx Hy) as (c & -> & Hs).
    destruct Hs as [_|Hl|Hg]; [reflexivity| |]; exfalso; revert He.
    + revert Hl. unfold float_eq, float_lt in *.
      destruct (float_key x) as [[a b] c], (float_key y) as [[a' b'] c']. cbn.
      intros H' H. injection H as -> -> ->. lia.
    + revert Hg. unfold float_eq, float_lt in *.
      destruct (float_key x) as [[a b] c], (float_key y) as [[a' b'] c']. cbn.
      intros H' H. injection H as -> -> ->. lia.
Qed.

Lemma float_trichotomy x y : float_lt x y \/ float_eq x y \/ float_lt y x.
Proof.
  unfold float_lt, float_eq.
  destruct (float_key x) as [[a b] c], (float_key y) as [[a' b'] c']. cbn.
  destruct (Z.lt_total a a') as [?|[->|?]]; [lia| |lia].
  destruct (Z.lt_total b b') as [?|[->|?]]; [lia| |lia].
  destruct (Z.lt_total c c') as [?|[->|?]]; [lia| |lia]. auto.
Qed.

Lemma float_lt_trans x y z : float_lt x y -> float_lt y z -> float_lt x z.
Proof.
  unfold float_lt.
  destruct (float_key x) as [[a b] c], (float_key y) as [[a' b'] c'],
    (float_key z) as [[a'' b''] c'']. cbn. lia.
Qed.

Lemma float_lt_irrefl x y : float_lt x y -> float_eq x y -> False.
Proof.
  unfold float_lt, float_eq. intros H E. rewrite E in H. revert H.
  destruct (float_key y) as [[a b] c]. cbn. lia.
Qed.

Lemma float_lt_asym x y : float_lt x y -> float_lt y x -> False.
Proof.
  unfold float_lt.
  destruct (float_key x) as [[a b] c], (float_key y) as [[a' b'] c']. cbn. lia.
Qed.

Lemma float_eq_lt_l x y z : float_eq x y -> float_lt x z -> float_lt y z.
Proof. unfold float_eq, float_lt. now intros ->. Qed.

Lemma float_eq_lt_r x y z : float_eq x y -> float_lt z x -> float_lt z y.
Proof. unfold float_eq, float_lt. now intros ->. Qed.

Lemma ltb_false_iff x y :
  PyFloat.is_nan x = false -> PyFloat.is_nan y = false ->
  PyFloat.ltb x y = false <-> PyFloat.leb y x = true.
Proof.
  intros Hx Hy. rewrite leb_true_iff. split.
  - intros H. split; [done|]. split; [done|].
    destruct (float_trichotomy x y) as [Hl|[He|Hg]]; auto.
    + assert (PyFloat.ltb x y = true) by (apply ltb_true_iff; auto). congruence.
    + right. unfold float_eq in *. congruence.
  - intros (_ & _ & H). destruct (PyFloat.ltb x y) eqn:E; [|done].
    apply ltb_true_iff in E as (_ & _ & E). exfalso. destruct H as [H|H].
    + eapply float_lt_asym; eauto.
    + eapply float_lt_irrefl; eauto. unfold float_eq in *. congruence.
Qed.

Lemma leb_trans x y z :
  PyFloat.leb x y = true -> PyFloat.leb y z = true -> PyFloat.leb x z = true.
Proof.
  rewrite !leb_true_iff. intros (Hx & Hy & H1) (_ & Hz & H2).
  split; [done|]. split; [done|].
  destruct H1 as [H1|H1], H2 as [H2|H2].
  - left. eapply float_lt_trans; eauto.
  - left. eapply float_eq_lt_r; eauto.
  - left. eapply float_eq_lt_l; eauto. unfold float_eq in *. congruence.
  - right. unfold float_eq in *. congruence.
Qed.

Lemma leb_refl x : PyFloat.is_nan x = false -> PyFloat.leb x x = true.
Proof. intros. apply leb_true_iff. repeat split; auto. now right. Qed.

Lemma leb_not_nan x y :
  PyFloat.leb x y = true -> PyFloat.is_nan x = false /\ PyFloat.is_nan y = false.
Proof. rewrite leb_true_iff. tauto. Qed.

Lemma float_key_neg x :
  float_key (PyFloat.neg x)
  = let '(a, b, c) := float_key x in (- a, - b, - c).
Proof. destruct x as [[|]|[|]| |[|] m e]; cbn; try reflexivity. now rewrite Z.opp_involutive. Qed.

Lemma is_nan_neg x : PyFloat.is_nan (PyFloat.neg x) = PyFloat.is_nan x.
Proof. now destruct x. Qed.

Lemma float_lt_neg x y : float_lt (PyFloat.neg x) (PyFloat.neg y) <-> float_lt y x.
Proof.
  unfold float_lt. rewrite !float_key_neg.
  destruct (float_key x) as [[a b] c], (float_key y) as [[a' b'] c']. cbn. lia.
Qed.

Lemma float_eq_neg x y : float_eq (PyFloat.neg x) (PyFloat.neg y) <-> float_eq x y.
Proof.
  unfold float_eq. rewrite !float_key_neg.
  destruct (float_key x) as [[a b] c], (float_key y) as [[a' b'] c']. cbn.
  split; intros H; injection H; intros; f_equal; try f_equal; lia.
Qed.

Lemma ltb_neg x y : PyFloat.ltb (PyFloat.neg x) (PyFloat.neg y) = PyFloat.ltb y x.
Proof.
  apply eq_true_iff_eq. rewrite !ltb_true_iff, !is_nan_neg, float_lt_neg. tauto.
Qed.

Lemma eqb_neg x y : PyFloat.eqb (PyFloat.neg x) (PyFloat.neg y) = PyFloat.eqb x y.
Proof.
  apply eq_true_iff_eq. rewrite !eqb_true_iff, !is_nan_neg, float_eq_neg. tauto.
Qed.

Lemma shr_1_nonneg mrs : 0 <= shr_m mrs -> 0 <= shr_m (shr_1 mrs).
Proof. destruct mrs as [[|[p|p|]|p] r s]; cbn; lia. Qed.

Lemma iter_pos_preserves {X : Type} (P : X -> Prop) (f : X -> X) :
  (forall x, P x -> P (f x)) -> forall n x, P x -> P (SpecFloat.iter_pos f n x).
Proof.
  intros Hf. induction n as [n IH|n IH|]; intros x Hx; cbn; auto.
Qed.

Lemma shr_nonneg mrs e n : 0 <= shr_m mrs -> 0 <= shr_m (fst (shr mrs e n)).
Proof.
  intros H. destruct n as [|p|p]; cbn; auto.
  apply (iter_pos_preserves (fun mrs => 0 <= shr_m mrs)); auto using shr_1_nonneg.
Qed.

Lemma shr_fexp_nonneg prec emax m e l :
  0 <= m -> 0 <= shr_m (fst (shr_fexp prec emax m e l)).
Proof.
  intros H. unfold shr_fexp. apply shr_nonneg. now destruct l as [|[| |]].
Qed.

Lemma round_nearest_even_nonneg m l : 0 <= m -> 0 <= round_nearest_even m l.
Proof.
  intros H. destruct l as [|[| |]]; cbn; try lia. destruct (Z.even m); lia.
Qed.

Lemma binary_round_aux_not_nan prec emax s m e l :
  0 <= m -> PyFloat.is_nan (binary_round_aux prec emax s m e l) = false.
Proof.
  intros Hm. unfold binary_round_aux.
  pose proof (shr_fexp_nonneg prec emax m e l Hm) as H1.
  destruct (shr_fexp prec emax m e l) as [mrs' e']. cbn [fst] in H1.
  pose proof (shr_fexp_nonneg prec emax _ e' loc_Exact
                (round_nearest_even_nonneg _ (loc_of_shr_record mrs') H1)) as H2.
  destruct (shr_fexp prec emax _ e' loc_Exact) as [mrs'' e'']. cbn [fst] in H2.
  destruct (shr_m mrs'') as [|p|p]; [reflexivity| |lia].
  now destruct (e'' <=? emax - prec).
Qed.

Lemma binary_normalize_not_nan prec emax m e sz :
  PyFloat.is_nan (binary_normalize prec emax m e sz) = false.
Proof.
  destruct m as [|p|p]; cbn [binary_normalize]; [reflexivity| |];
    unfold binary_round;
    destruct (shl_align _ _ _) as [mz ez];
    apply binary_round_aux_not_nan; lia.
Qed.

Lemma add_not_nan x y :
  is_finite x = true -> is_finite y = true -> PyFloat.is_nan (PyFloat.add x y) = false.
Proof.
  destruct x as [sx| | |sx mx ex], y as [sy| | |sy my ey]; try discriminate; intros _ _.
  - now destruct sx, sy.
  - reflexivity.
  - reflexivity.
  - apply binary_normalize_not_nan.
Qed.

Lemma of_int_finite z d : PyFloat.of_int z = Ok d -> is_finite d = true.
Proof.
  unfold PyFloat.of_int. pose proof (binary_normalize_not_nan PyFloat.prec PyFloat.emax z 0 false) as H.
  unfold PyFloat.of_Z. destruct (binary_normalize _ _ z 0 false); try discriminate;
  intros [= <-]; reflexivity.
Qed.

Lemma column_weight_finite c : is_finite (number_to_float (column_weights_get c)) = true.
Proof.
  unfold column_weights_get.
  repeat (destruct (Ascii.eqb c _); [vm_compute; reflexivity|]).
  vm_compute; reflexivity.
Qed.

Lemma calculate_not_nan l d :
  _calculate_seat_distance l = Ok d -> PyFloat.is_nan d = false.
Proof.
  unfold _calculate_seat_distance.
  destruct (seat_match l) as [[c ds]|]; [|discriminate].
  destruct (int ds) as [row|]; [|discriminate]. cbn.
  destruct (PyFloat.of_int row) as [d0|] eqn:E; [|discriminate].
  cbn. intros [= <-]. apply add_not_nan.
  - eapply of_int_finite; eauto.
  - apply column_weight_finite.
Qed.

End float_order.

(** ** heapq maintains the heap invariant *)

Section list_facts.
Context {A : Type}.

Lemma insert_Permutation (l : list A) i a b :
  l !! i = Some a -> <[i := b]> l ≡ₚ b :: delete i l.
Proof.
  revert i. induction l as [|x l IH]; intros [|i] Hi; simpl in *; try done.
  rewrite (IH i Hi). apply perm_swap.
Qed.

Lemma swap_Permutation (l : list A) i j a b :
  i <> j -> l !! i = Some a -> l !! j = Some b ->
  <[j := a]> (<[i := b]> l) ≡ₚ l.
Proof.
  revert i j. induction l as [|x l IH]; intros [|i] [|j] Hne Hi Hj; simpl in *; try done.
  - injection Hi as ->.
    rewrite (insert_Permutation l j b a Hj).
    rewrite (delete_Permutation l j b Hj) at 2. apply perm_swap.
  - injection Hj as ->.
    rewrite (insert_Permutation l i a b Hi).
    rewrite (delete_Permutation l i a Hi) at 2. apply perm_swap.
  - constructor. apply IH; auto.
Qed.

(** Moving the hole of a sift from [i] to [j]. *)
Lemma hole_move_Permutation (h : list A) i j x y :
  i <> j -> (i < length h)%nat -> h !! j = Some y ->
  <[j := x]> (<[i := y]> h) ≡ₚ <[i := x]> h.
Proof.
  intros Hne Hi Hj.
  rewrite <- (list_insert_insert_eq h i y x).
  rewrite list_insert_insert_ne by done.
  apply swap_Permutation; [done| |].
  - now rewrite list_lookup_insert_ne.
  - now rewrite list_lookup_insert_eq.
Qed.

Lemma lookup_insert_hole (h : list A) pos x k :
  (pos < length h)%nat ->
  <[pos := x]> h !! k = if decide (k = pos) then Some x else h !! k.
Proof.
  intros Hpos. rewrite list_lookup_insert.
  repeat case_decide; try done; destruct_and?; try lia;
    try (exfalso; intuition lia).
Qed.

Lemma getitem_Some (h : list A) i x : h !! i = Some x -> getitem h i = Ok x.
Proof. unfold getitem. now intros ->. Qed.

Lemma setitem_lt (h : list A) i x :
  (i < length h)%nat -> setitem h i x = Ok (<[i := x]> h).
Proof. unfold setitem. intros. now case_decide. Qed.

End list_facts.

Section heapq_proofs.
Context {A : Type}.
Variable lt : A -> A -> result bool.
Variable dom : A -> Prop.
Variable le : A -> A -> Prop.
Hypothesis Hord : order_on lt dom le.

Local Abbreviation heap_ok := (heap_ok le).
Local Abbreviation heap_ok_above := (heap_ok_above le).
Local Abbreviation heap_ok_around := (heap_ok_around le).
Local Abbreviation grand_ok := (grand_ok le).
Local Abbreviation okl := (ok_or_lt lt dom).

Lemma lt_true_le a b : dom a -> dom b -> lt a b = Ok true -> le a b.
Proof.
  intros Ha Hb Hab. destruct (ord_total _ _ _ Hord a b Ha Hb) as [H|H]; [done|].
  apply (ord_lt _ _ _ Hord a b true Ha Hb Hab) in H. done.
Qed.

Lemma lt_false_le a b : dom a -> dom b -> lt a b = Ok false -> le b a.
Proof. intros Ha Hb Hab. now apply (ord_lt _ _ _ Hord a b false Ha Hb Hab). Qed.

Lemma heap_ok_above_0 (h : list A) : heap_ok_above h 0 -> heap_ok h.
Proof. intros H i Hi. apply H; lia. Qed.

Lemma siftdown_loop_spec fuel : forall h pos x,
  (pos <= fuel)%nat -> (pos < length h)%nat -> Forall dom h -> dom x ->
  heap_ok_above (<[pos := x]> h) pos -> grand_ok (<[pos := x]> h) pos ->
  okl (_siftdown_loop lt fuel h 0 pos x)
           (fun h' => heap_ok h' /\ h' ≡ₚ <[pos := x]> h).
Proof.
  induction fuel as [|fuel IH]; intros h pos x Hfuel Hpos Hdom Hx Habove Hgrand.
  - assert (pos = 0)%nat as -> by lia. cbn.
    rewrite setitem_lt by lia. split; [now apply heap_ok_above_0|reflexivity].
  - cbn [_siftdown_loop]. case_decide as Hlt; cycle 1.
    { assert (pos = 0)%nat as -> by lia.
      rewrite setitem_lt by lia. split; [now apply heap_ok_above_0|reflexivity]. }
    set (pp := ((pos - 1) / 2)%nat).
    assert (Hpp : (pp < pos)%nat) by (subst pp; lia).
    destruct (lookup_lt_is_Some_2 h pp) as [p Hp]; [lia|].
    fold pp. rewrite (getitem_Some _ _ _ Hp). cbn [mbind result_bind].
    assert (Hdp : dom p) by (eapply Forall_lookup_1; eauto).
    pose proof (lookup_insert_hole h pos x) as HV.
    destruct (lt x p) as [[|]|e] eqn:Hr; cbn [mbind result_bind].
    + rewrite setitem_lt by lia. cbn [mbind result_bind].
      assert (Hxp : le x p) by now apply lt_true_le.
      assert (HV2 : forall k, <[pp := x]> (<[pos := p]> h) !! k
                 = if decide (k = pp) then Some x
                   else if decide (k = pos) then Some p else h !! k).
      { intros k. rewrite !lookup_insert_hole by (rewrite ?length_insert; lia).
        reflexivity. }
      assert (Hgp : forall g, h !! ((pp - 1) / 2)%nat = Some g -> (0 < pp)%nat -> le g p).
      { intros g Hg Hpp0. apply (Habove pp Hpp0); [lia| |]; rewrite HV by done.
        - case_decide; [lia|done].
        - case_decide; [lia|done]. }
      assert (HIH : okl (_siftdown_loop lt fuel (<[pos := p]> h) 0 pp x)
                (fun h' => heap_ok h' /\ h' ≡ₚ <[pp := x]> (<[pos := p]> h))).
      { apply IH.
        * lia.
        * rewrite length_insert. lia.
        * now apply Forall_insert.
        * assumption.
        * intros i Hi Hne y q Hy Hq. rewrite HV2 in Hy, Hq.
          rewrite decide_False in Hy by done.
          destruct (decide (i = pos)) as [->|Hip].
          { fold pp in Hq. rewrite decide_True in Hq by done.
            injection Hy as <-. now injection Hq as <-. }
          assert (Hdy : dom y) by (eapply Forall_lookup_1; eauto).
          destruct (decide (((i - 1) / 2)%nat = pp)) as [Hq1|Hq1].
          { injection Hq as <-. apply (ord_trans _ _ _ Hord x p y); auto.
            apply (Habove i Hi Hip); rewrite HV by done.
            - now rewrite decide_False by done.
            - rewrite Hq1. now rewrite decide_False by lia. }
          destruct (decide (((i - 1) / 2)%nat = pos)) as [Hq2|Hq2].
          { injection Hq as <-. apply (Hgrand i y p Hlt Hq2 Hi); rewrite HV by done.
            - now rewrite decide_False by done.
            - fold pp. now rewrite decide_False by lia. }
          apply (Habove i Hi Hip); rewrite HV by done.
          -- now rewrite decide_False by done.
          -- now rewrite decide_False by done.
        * intros c y g Hpp0 Hc Hc0 Hy Hg. rewrite HV2 in Hy, Hg.
          rewrite decide_False in Hg by lia. rewrite decide_False in Hg by lia.
          rewrite decide_False in Hy by lia.
          specialize (Hgp g Hg Hpp0).
          destruct (decide (c = pos)) as [->|Hcp]; [now injection Hy as <-|].
          apply (ord_trans _ _ _ Hord g p y); auto.
          -- eapply Forall_lookup_1; eauto.
          -- eapply Forall_lookup_1; eauto.
          -- apply (Habove c Hc0 Hcp); rewrite HV by done.
             ++ now rewrite decide_False by done.
             ++ rewrite Hc. now rewrite decide_False by lia. }
      destruct (_siftdown_loop lt fuel (<[pos := p]> h) 0 pp x) as [h'|e];
        cbn in *; [|exact HIH].
      destruct HIH as [Hok Hperm]. split; [exact Hok|].
      rewrite Hperm. apply hole_move_Permutation; auto. lia.
    + rewrite setitem_lt by lia. split; [|reflexivity].
      intros i Hi y q Hy Hq.
      destruct (decide (i = pos)) as [->|Hne]; [|eapply Habove; eauto].
      rewrite list_lookup_insert_eq in Hy by lia.
      rewrite list_lookup_insert_ne in Hq by lia. fold pp in Hq.
      assert (y = x) as -> by congruence. assert (q = p) as -> by congruence.
      now apply lt_false_le.
    + exists x, p. auto.
Qed.

Lemma siftdown_spec (h : list A) pos x :
  h !! pos = Some x -> Forall dom h ->
  heap_ok_above h pos -> grand_ok h pos ->
  okl (_siftdown lt h 0 pos) (fun h' => heap_ok h' /\ h' ≡ₚ h).
Proof.
  intros Hx Hdom Habove Hgrand. unfold _siftdown.
  rewrite (getitem_Some _ _ _ Hx). cbn [mbind result_bind].
  assert (Hid : <[pos := x]> h = h) by now apply list_insert_id.
  pose proof (siftdown_loop_spec pos h pos x) as H. rewrite Hid in H.
  apply H; auto.
  - eapply lookup_lt_Some; eauto.
  - eapply Forall_lookup_1; eauto.
Qed.

Lemma siftup_loop_spec fuel : forall h pos x,
  (length h <= fuel + pos)%nat -> (pos < length h)%nat -> Forall dom h -> dom x ->
  heap_ok_around h pos -> grand_ok h pos ->
  okl (_siftup_loop lt fuel h (length h) pos (2 * pos + 1))
    (fun '(h', pos') =>
       (pos' < length h')%nat /\ (length h' <= 2 * pos' + 1)%nat
       /\ Forall dom h'
       /\ heap_ok_around h' pos'
       /\ <[pos' := x]> h' ≡ₚ <[pos := x]> h).
Proof.
  induction fuel as [|fuel IH]; intros h pos x Hfuel Hpos Hdom Hx Haround Hgrand.
  - cbn [_siftup_loop]. rewrite decide_False by lia. cbn. repeat split; auto; lia.
  - cbn [_siftup_loop]. case_decide as Hlt; cycle 1.
    { cbn. repeat split; auto; lia. }
    set (cp := (2 * pos + 1)%nat) in *.
    match goal with |- okl (mbind _ ?sel) _ => set (choice := sel) end.
    assert (Hsel : okl choice (fun c =>
      (c = cp \/ c = cp + 1)%nat /\ exists child, h !! c = Some child
      /\ forall s y, (s = cp \/ s = cp + 1)%nat -> h !! s = Some y -> le child y)).
    { subst choice.
      destruct (lookup_lt_is_Some_2 h cp) as [l Hl]; [lia|].
      assert (Hdl : dom l) by (eapply Forall_lookup_1; eauto).
      case_decide as Hr.
      - destruct (lookup_lt_is_Some_2 h (cp + 1)) as [r Hr']; [lia|].
        assert (Hdr : dom r) by (eapply Forall_lookup_1; eauto).
        rewrite (getitem_Some _ _ _ Hl), (getitem_Some _ _ _ Hr').
        cbn [mbind result_bind mret result_ret].
        destruct (lt l r) as [[|]|e] eqn:Hb; unfold ok_or_lt.
        + split; [auto|]. exists l. split; [done|].
          intros s y [->| ->] Hy.
          * assert (y = l) as -> by congruence. now apply (ord_refl _ _ _ Hord).
          * assert (y = r) as -> by congruence. now apply lt_true_le.
        + split; [auto|]. exists r. split; [done|].
          intros s y [->| ->] Hy.
          * assert (y = l) as -> by congruence. now apply lt_false_le.
          * assert (y = r) as -> by congruence. now apply (ord_refl _ _ _ Hord).
        + exists l, r. auto.
      - unfold ok_or_lt, mret, result_ret. split; [auto|]. exists l. split; [done|].
        intros s y [->| ->] Hy.
        + assert (y = l) as -> by congruence. now apply (ord_refl _ _ _ Hord).
        + apply lookup_lt_Some in Hy. lia. }
    destruct choice as [c|e]; cbn [mbind result_bind]; [|exact Hsel].
    unfold ok_or_lt in Hsel. destruct Hsel as (Hc & child & Hchild & Hsmall).
    rewrite (getitem_Some _ _ _ Hchild). cbn [mbind result_bind].
    rewrite setitem_lt by lia. cbn [mbind result_bind].
    assert (Hdc : dom child) by (eapply Forall_lookup_1; eauto).
    pose proof (lookup_insert_hole h pos child) as HV.
    assert (HIH : okl
              (_siftup_loop lt fuel (<[pos := child]> h)
                 (length (<[pos := child]> h)) c (2 * c + 1))
              (fun '(h', pos') =>
                 (pos' < length h')%nat /\ (length h' <= 2 * pos' + 1)%nat
                 /\ Forall dom h'
                 /\ heap_ok_around h' pos'
                 /\ <[pos' := x]> h' ≡ₚ <[c := x]> (<[pos := child]> h))).
    { apply IH.
      + rewrite length_insert. lia.
      + rewrite length_insert. eapply lookup_lt_Some; eauto.
      + now apply Forall_insert.
      + assumption.
      + intros i Hi Hic Hpc y q Hy Hq. rewrite HV in Hy, Hq by done.
        destruct (decide (i = pos)) as [->|Hip].
        { injection Hy as <-. rewrite decide_False in Hq by lia.
          apply (Hgrand c child q); auto; lia. }
        destruct (decide (((i - 1) / 2)%nat = pos)) as [Hq1|Hq1].
        { injection Hq as <-. apply (Hsmall i); auto. lia. }
        apply (Haround i); auto.
      + intros d y g Hc0 Hd Hd0 Hy Hg. rewrite HV in Hy, Hg by done.
        rewrite decide_False in Hy by lia.
        replace ((c - 1) / 2)%nat with pos in Hg by lia.
        rewrite decide_True in Hg by done. injection Hg as <-.
        apply (Haround d); auto; try lia. now rewrite Hd. }
    rewrite length_insert in HIH.
    destruct (_siftup_loop lt fuel (<[pos := child]> h) (length h) c (2 * c + 1))
      as [[h' pos']|e]; cbn in *; [|exact HIH].
    destruct HIH as (H1 & H2 & H3 & H4 & H5). repeat split; auto.
    rewrite H5. apply hole_move_Permutation; auto. lia.
Qed.

Lemma siftup_spec (h : list A) x :
  h !! 0%nat = Some x -> Forall dom h -> heap_ok_around h 0 ->
  okl (_siftup lt h 0) (fun h' => heap_ok h' /\ h' ≡ₚ h).
Proof.
  intros Hx Hdom Haround. unfold _siftup.
  rewrite (getitem_Some _ _ _ Hx). cbn [mbind result_bind].
  assert (Hdx : dom x) by (eapply Forall_lookup_1; eauto).
  assert (Hlen : (0 < length h)%nat) by (eapply lookup_lt_Some; eauto).
  pose proof (siftup_loop_spec (length h) h 0 x) as Hloop.
  destruct (_siftup_loop lt (length h) h (length h) 0 (2 * 0 + 1))
    as [[h1 pos1]|e]; cbn [mbind result_bind]; cycle 1.
  { apply Hloop; auto; [lia|]. intros c y g Hpos. lia. }
  destruct Hloop as (Hpos1 & Hleaf & Hdom1 & Haround1 & Hperm1); auto; [lia| |].
  { intros c y g Hpos. lia. }
  rewrite setitem_lt by done. cbn [mbind result_bind].
  pose proof (fun k => lookup_insert_hole h1 pos1 x k Hpos1) as HV.
  pose proof (siftdown_spec (<[pos1 := x]> h1) pos1 x) as Hdown.
  destruct (_siftdown lt (<[pos1 := x]> h1) 0 pos1) as [h'|e]; cbn in *.
  - destruct Hdown as [Hok Hperm].
    + rewrite HV. now rewrite decide_True.
    + now apply Forall_insert.
    + intros i Hi Hne y q Hy Hq. rewrite HV in Hy, Hq.
      rewrite decide_False in Hy by done.
      destruct (decide (((i - 1) / 2)%nat = pos1)) as [Hq1|Hq1].
      { apply lookup_lt_Some in Hy. lia. }
      apply (Haround1 i); auto.
    + intros c y g Hp Hc Hc0 Hy Hg. apply lookup_lt_Some in Hy.
      rewrite length_insert in Hy. lia.
    + split; [exact Hok|]. rewrite Hperm, Hperm1. now rewrite list_insert_id.
  - apply Hdown.
    + rewrite HV. now rewrite decide_True.
    + now apply Forall_insert.
    + intros i Hi Hne y q Hy Hq. rewrite HV in Hy, Hq.
      rewrite decide_False in Hy by done.
      destruct (decide (((i - 1) / 2)%nat = pos1)) as [Hq1|Hq1].
      { apply lookup_lt_Some in Hy. lia. }
      apply (Haround1 i); auto.
    + intros c y g Hp Hc Hc0 Hy Hg. apply lookup_lt_Some in Hy.
      rewrite length_insert in Hy. lia.
Qed.

Lemma heap_ok_nil : heap_ok [].
Proof. intros i Hi x p Hx. done. Qed.

Lemma heappush_spec (h : list A) x :
  heap_ok h -> Forall dom h -> dom x ->
  okl (heappush lt h x) (fun h' => heap_ok h' /\ h' ≡ₚ x :: h).
Proof.
  intros Hok Hdom Hx. unfold heappush.
  rewrite length_app. cbn [length]. replace (length h + 1 - 1)%nat with (length h) by lia.
  pose proof (siftdown_spec (h ++ [x]) (length h) x) as Hdown.
  assert (Hpost : okl (_siftdown lt (h ++ [x]) 0 (length h))
            (fun h' => heap_ok h' /\ h' ≡ₚ h ++ [x])).
  { apply Hdown.
    - now apply list_lookup_middle.
    - apply Forall_app. split; [done|]. now constructor.
    - intros i Hi Hne y q Hy Hq.
      assert (Hlt : (i < length h)%nat).
      { apply lookup_lt_Some in Hy. rewrite length_app in Hy. cbn in Hy. lia. }
      rewrite lookup_app_l in Hy, Hq by lia. now apply (Hok i Hi).
    - intros c y g Hp Hc Hc0 Hy Hg. apply lookup_lt_Some in Hy.
      rewrite length_app in Hy. cbn in Hy. lia. }
  destruct (_siftdown lt (h ++ [x]) 0 (length h)) as [h'|e]; cbn in *; [|done].
  destruct Hpost as [Hok' Hperm]. split; [exact Hok'|].
  rewrite Hperm. symmetry. apply Permutation_cons_append.
Qed.

Lemma heap_root_min (h : list A) r :
  heap_ok h -> Forall dom h -> h !! 0%nat = Some r ->
  forall i y, h !! i = Some y -> le r y.
Proof.
  intros Hok Hdom Hr i. induction i as [i IH] using lt_wf_ind. intros y Hy.
  assert (Hdr : dom r) by (eapply Forall_lookup_1; eauto).
  destruct (decide (i = 0)%nat) as [->|Hi].
  - assert (y = r) as -> by congruence. now apply (ord_refl _ _ _ Hord).
  - destruct (lookup_lt_is_Some_2 h ((i - 1) / 2)) as [p Hp].
    { apply lookup_lt_Some in Hy. lia. }
    apply (ord_trans _ _ _ Hord r p y); auto.
    + eapply Forall_lookup_1; eauto.
    + eapply Forall_lookup_1; eauto.
    + apply (IH ((i - 1) / 2)%nat); [lia|done].
    + apply (Hok i); [lia|done|done].
Qed.

Lemma heappop_spec (h : list A) :
  h <> [] -> heap_ok h -> Forall dom h ->
  okl (heappop lt h)
    (fun '(x, h') => heap_ok h' /\ h ≡ₚ x :: h' /\ Forall (le x) h').
Proof.
  intros Hne Hok Hdom. unfold heappop.
  destruct (last h) as [lastelt|] eqn:Hlast; cycle 1.
  { apply last_None in Hlast. done. }
  apply last_Some in Hlast as [h0 ->]. rewrite removelast_last.
  destruct h0 as [|root t].
  - cbn. repeat split; auto using heap_ok_nil.
  - rewrite setitem_lt by (cbn; lia). cbn [mbind result_bind].
    change (<[0%nat := lastelt]> (root :: t)) with (lastelt :: t).
    pose proof Hdom as Hdom'.
    apply Forall_app in Hdom as [Hdom0 Hlastd]. inversion Hlastd; subst.
    inversion Hdom0; subst.
    pose proof (siftup_spec (lastelt :: t) lastelt) as Hup.
    assert (Hpost : okl (_siftup lt (lastelt :: t) 0)
              (fun h' => heap_ok h' /\ h' ≡ₚ lastelt :: t)).
    { apply Hup; auto.
      intros i Hi Hne0 Hpar y q Hy Hq.
      assert (Hlt : (i < length (root :: t))%nat).
      { apply lookup_lt_Some in Hy. exact Hy. }
      apply (Hok i Hi).
      * rewrite lookup_app_l by done. destruct i; [lia|exact Hy].
      * assert (Hlt' : ((i - 1) / 2 < length (root :: t))%nat) by lia.
        rewrite lookup_app_l by done.
        destruct ((i - 1) / 2)%nat eqn:E; [lia|exact Hq]. }
    destruct (_siftup lt (lastelt :: t) 0) as [h'|e]; cbn in *; [|done].
    destruct Hpost as [Hok' Hperm]. split; [exact Hok'|].
    assert (HP : (root :: t) ++ [lastelt] ≡ₚ root :: h').
    { rewrite Hperm. cbn. constructor. symmetry. apply Permutation_cons_append. }
    split; [exact HP|].
    apply Forall_lookup. intros i y Hy.
    assert (Hin : y ∈ (root :: t) ++ [lastelt]).
    { rewrite HP. right. eapply list_elem_of_lookup_2; eauto. }
    apply list_elem_of_lookup in Hin as [j Hj].
    now apply (heap_root_min ((root :: t) ++ [lastelt]) root Hok) with (i := j).
Qed.
End heapq_proofs.

(** ** Strings *)

Lemma ascii_compare_refl c : Ascii.compare c c = Eq.
Proof. unfold Ascii.compare. apply N.compare_refl. Qed.

Lemma ascii_compare_lt_trans a b c :
  Ascii.compare a b = Lt -> Ascii.compare b c = Lt -> Ascii.compare a c = Lt.
Proof. unfold Ascii.compare. rewrite !N.compare_lt_iff. lia. Qed.

Lemma string_compare_refl s : String.compare s s = Eq.
Proof. induction s as [|c s IH]; cbn; [done|]. now rewrite ascii_compare_refl. Qed.

Lemma string_compare_lt_trans a : forall b c,
  String.compare a b = Lt -> String.compare b c = Lt -> String.compare a c = Lt.
Proof.
  induction a as [|x a IH]; intros [|y b] [|z c]; cbn; try done.
  destruct (Ascii.compare x y) eqn:Exy; try done;
  destruct (Ascii.compare y z) eqn:Eyz; try done.
  - apply Ascii.compare_eq_iff in Exy, Eyz. subst. rewrite ascii_compare_refl. apply IH.
  - apply Ascii.compare_eq_iff in Exy. subst. now rewrite Eyz.
  - apply Ascii.compare_eq_iff in Eyz. subst. now rewrite Exy.
  - now rewrite (ascii_compare_lt_trans x y z).
Qed.

Lemma string_ltb_irrefl s : String.ltb s s = false.
Proof. unfold String.ltb. now rewrite string_compare_refl. Qed.

Lemma string_ltb_asym a b : String.ltb a b = true -> String.ltb b a = false.
Proof.
  unfold String.ltb. rewrite (String.compare_antisym a b).
  now destruct (String.compare b a).
Qed.

Lemma string_ltb_trans a b c :
  String.ltb a b = true -> String.ltb b c = true -> String.ltb a c = true.
Proof.
  unfold String.ltb.
  destruct (String.compare a b) eqn:E1; try done.
  destruct (String.compare b c) eqn:E2; try done.
  now rewrite (string_compare_lt_trans a b c).
Qed.

Lemma string_ltb_total a b :
  String.ltb a b = false -> String.ltb b a = false -> a = b.
Proof.
  unfold String.ltb. rewrite (String.compare_antisym a b).
  destruct (String.compare b a) eqn:E; try done.
  intros _ _. symmetry. now apply String.compare_eq_iff.
Qed.

(** ** The order of the heap items *)

Lemma float_eq_sym x y : float_eq x y -> float_eq y x.
Proof. unfold float_eq. congruence. Qed.

Lemma eqb_false_lt x y :
  PyFloat.is_nan x = false -> PyFloat.is_nan y = false ->
  PyFloat.eqb x y = false -> float_eq x y -> False.
Proof.
  intros Hx Hy H He.
  assert (PyFloat.eqb x y = true) by (apply eqb_true_iff; auto). congruence.
Qed.

Lemma tuple_lt_sound (a b : heap_item) r :
  item_key_ok a -> item_key_ok b -> tuple_lt a b = Ok r ->
  r = false <-> item_le b a.
Proof.
  destruct a as [[d1 id1] i1], b as [[d2 id2] i2].
  unfold item_key_ok, item_le. cbn [fst snd]. intros H1 H2.
  unfold tuple_lt.
  destruct (PyFloat.eqb d1 d2) eqn:Ed; cbn [negb].
  - apply eqb_true_iff in Ed as (_ & _ & Ed). apply float_eq_sym in Ed.
    destruct (String.eqb_spec id1 id2) as [->|Hid]; cbn [negb].
    + destruct (BookingInfo.eqb i1 i2); cbn [negb]; [|done].
      intros [= <-]. split; auto.
    + intros [= <-]. split.
      * intros Hlt. right. split; [done|].
        destruct (String.ltb id2 id1) eqn:E; auto.
        exfalso. apply Hid. now apply string_ltb_total.
      * intros [Hlt|[_ [Hlt| ->]]]; [| |done].
        -- exfalso. eapply float_lt_irrefl; eauto.
        -- now apply string_ltb_asym.
  - intros [= <-]. split.
    + intros Hlt. left. apply ltb_false_iff in Hlt; auto.
      apply leb_true_iff in Hlt as (_ & _ & [?|He]); auto.
      exfalso. eapply (eqb_false_lt d1 d2); eauto. now apply float_eq_sym.
    + intros [Hlt|[He _]].
      * apply ltb_false_iff; auto. apply leb_true_iff. auto.
      * exfalso. eapply (eqb_false_lt d1 d2); eauto. now apply float_eq_sym.
Qed.

Lemma tuple_lt_defined (a b : heap_item) :
  items_compatible a b -> exists r, tuple_lt a b = Ok r.
Proof.
  destruct a as [[d1 id1] i1], b as [[d2 id2] i2].
  unfold items_compatible. cbn [fst snd]. intros Hc. unfold tuple_lt.
  destruct (PyFloat.eqb d1 d2) eqn:Ed; cbn [negb]; [|eauto].
  destruct (String.eqb_spec id1 id2) as [->|Hid]; cbn [negb]; [|eauto].
  rewrite Hc by done. cbn. eauto.
Qed.

Lemma item_le_refl a : item_le a a.
Proof. right. split; [reflexivity|]. now right. Qed.

Lemma item_le_trans a b c : item_le a b -> item_le b c -> item_le a c.
Proof.
  unfold item_le. intros [H1|[E1 H1]] [H2|[E2 H2]].
  - left. eapply float_lt_trans; eauto.
  - left. eapply float_eq_lt_r; eauto.
  - left. eapply float_eq_lt_l; eauto. now apply float_eq_sym.
  - right. split; [unfold float_eq in *; congruence|].
    destruct H1 as [H1| ->]; auto. destruct H2 as [H2| <-]; auto.
    left. eapply string_ltb_trans; eauto.
Qed.

Lemma item_le_total a b : item_le a b \/ item_le b a.
Proof.
  unfold item_le. destruct (float_trichotomy a.1.1 b.1.1) as [?|[He|?]]; auto.
  pose proof (float_eq_sym _ _ He) as He'.
  destruct (String.ltb a.1.2 b.1.2) eqn:E1; auto.
  destruct (String.ltb b.1.2 a.1.2) eqn:E2; auto.
  left. right. split; auto. right. now apply string_ltb_total.
Qed.

Lemma tuple_lt_order (dom : heap_item -> Prop) :
  (forall a, dom a -> item_key_ok a) -> order_on tuple_lt dom item_le.
Proof.
  intros Hk. split.
  - intros a _. apply item_le_refl.
  - intros a b c _ _ _. apply item_le_trans.
  - intros a b _ _. apply item_le_total.
  - intros a b r Ha Hb. apply tuple_lt_sound; auto.
Qed.

(** ** The memo table *)

Lemma init_consistent : cache_consistent __init__.
Proof. intros l d. cbn. now rewrite lookup_empty. Qed.

Lemma clear_cache_consistent self : cache_consistent (clear_cache self).
Proof. intros l d. cbn. now rewrite lookup_empty. Qed.

Lemma get_seat_distance_spec seat_label self :
  cache_consistent self ->
  fst (get_seat_distance seat_label self) = _calculate_seat_distance seat_label
  /\ cache_consistent (snd (get_seat_distance seat_label self)).
Proof.
  intros Hc. unfold get_seat_distance.
  destruct (seat_cache self !! seat_label) as [d|] eqn:E.
  - split; [now rewrite (Hc _ _ E)|]. intros l d'. cbn. apply Hc.
  - destruct (_calculate_seat_distance seat_label) as [d|e] eqn:Ec.
    + split; [reflexivity|]. intros l d'. cbn.
      rewrite lookup_insert. case_decide as Hl; [|apply Hc].
      intros [= <-]. now subst.
    + split; [reflexivity|]. intros l d'. cbn. apply Hc.
Qed.

Lemma seat_distances_spec seats : forall self,
  cache_consistent self ->
  fst (seat_distances seats self) = resolve_all seats
  /\ cache_consistent (snd (seat_distances seats self)).
Proof.
  induction seats as [|seat seats IH]; intros self Hc; cbn.
  - auto.
  - destruct (get_seat_distance_spec seat self Hc) as [H1 Hc1].
    destruct (get_seat_distance seat self) as [r1 self1]. cbn in H1, Hc1. subst r1.
    destruct (_calculate_seat_distance seat) as [d|e]; cbn; [|auto].
    destruct (IH self1 Hc1) as [H2 Hc2].
    destruct (seat_distances seats self1) as [r2 self2]. cbn in H2, Hc2. subst r2.
    destruct (resolve_all seats) as [ds|e]; cbn; auto.
Qed.

(** ** max and min *)

Lemma py_max_fold (l : list float) : forall x,
  Forall (fun d => PyFloat.is_nan d = false) (x :: l) ->
  let m := fold_left (fun m y => if PyFloat.ltb m y then y else m) l x in
  m ∈ x :: l /\ Forall (fun d => PyFloat.leb d m = true) (x :: l).
Proof.
  induction l as [|y l IH]; intros x Hn; cbn.
  - inversion Hn; subst. split; [left|]. constructor; [|constructor]. now apply leb_refl.
  - inversion Hn as [|? ? Hx Hn']; subst. inversion Hn' as [|? ? Hy Hl]; subst.
    destruct (PyFloat.ltb x y) eqn:E.
    + destruct (IH y Hn') as [Hin Hall]. split.
      * right. exact Hin.
      * inversion Hall as [|? ? Hym Hrest]; subst.
        constructor; [|constructor; auto].
        apply (leb_trans x y); auto.
        apply leb_true_iff. apply ltb_true_iff in E as (? & ? & ?). auto.
    + destruct (IH x) as [Hin Hall]; [constructor; auto|]. split.
      * apply elem_of_cons in Hin as [->|Hin]; [left|right; right; exact Hin].
      * inversion Hall as [|? ? Hxm Hrest]; subst.
        constructor; [exact Hxm|]. constructor; [|exact Hrest].
        apply (leb_trans y x); auto. now apply ltb_false_iff.
Qed.

Lemma py_min_fold (l : list float) : forall x,
  Forall (fun d => PyFloat.is_nan d = false) (x :: l) ->
  let m := fold_left (fun m y => if PyFloat.ltb y m then y else m) l x in
  m ∈ x :: l /\ Forall (fun d => PyFloat.leb m d = true) (x :: l).
Proof.
  induction l as [|y l IH]; intros x Hn; cbn.
  - inversion Hn; subst. split; [left|]. constructor; [|constructor]. now apply leb_refl.
  - inversion Hn as [|? ? Hx Hn']; subst. inversion Hn' as [|? ? Hy Hl]; subst.
    destruct (PyFloat.ltb y x) eqn:E.
    + destruct (IH y Hn') as [Hin Hall]. split.
      * right. exact Hin.
      * inversion Hall as [|? ? Hym Hrest]; subst.
        constructor; [|constructor; auto].
        apply (leb_trans _ y); auto.
        apply leb_true_iff. apply ltb_true_iff in E as (? & ? & ?). auto.
    + destruct (IH x) as [Hin Hall]; [constructor; auto|]. split.
      * apply elem_of_cons in Hin as [->|Hin]; [left|right; right; exact Hin].
      * inversion Hall as [|? ? Hxm Hrest]; subst.
        constructor; [exact Hxm|]. constructor; [|exact Hrest].
        apply (leb_trans _ x); auto. now apply ltb_false_iff.
Qed.

Lemma resolve_all_spec seats : forall ds,
  resolve_all seats = Ok ds ->
  Forall2 (fun seat d => _calculate_seat_distance seat = Ok d) seats ds.
Proof.
  induction seats as [|seat seats IH]; cbn; intros ds.
  - intros [= <-]. constructor.
  - destruct (_calculate_seat_distance seat) as [d|] eqn:E; cbn; [|done].
    destruct (resolve_all seats) as [ds'|]; cbn; [|done].
    intros [= <-]. constructor; auto.
Qed.

Lemma resolve_all_not_nan seats ds :
  resolve_all seats = Ok ds -> Forall (fun d => PyFloat.is_nan d = false) ds.
Proof.
  intros H. apply resolve_all_spec in H.
  induction H as [|seat d seats ds Hd _ IH]; constructor; auto.
  eapply calculate_not_nan; eauto.
Qed.

Lemma info_of_inv booking info :
  info_of booking = Ok info ->
  exists ds mx mn,
    resolve_all (Booking.seats booking) = Ok ds
    /\ py_max ds = Ok mx /\ py_min ds = Ok mn
    /\ info = {| BookingInfo.bookingId := Booking.bookingId booking;
                 BookingInfo.seats := Booking.seats booking;
                 BookingInfo.maxDistance := mx;
                 BookingInfo.minDistance := mn;
                 BookingInfo.seatCount := length (Booking.seats booking) |}.
Proof.
  unfold info_of.
  destruct (resolve_all _) as [ds|]; cbn; [|done].
  destruct (py_max ds) as [mx|] eqn:Hmx; cbn; [|done].
  destruct (py_min ds) as [mn|] eqn:Hmn; cbn; [|done].
  intros [= <-]. exists ds, mx, mn. repeat split; assumption.
Qed.

Lemma py_max_spec ds m :
  Forall (fun d => PyFloat.is_nan d = false) ds -> py_max ds = Ok m ->
  m ∈ ds /\ Forall (fun d => PyFloat.leb d m = true) ds.
Proof.
  destruct ds as [|x l]; cbn; [done|]. intros Hn [= <-]. now apply py_max_fold.
Qed.

Lemma py_min_spec ds m :
  Forall (fun d => PyFloat.is_nan d = false) ds -> py_min ds = Ok m ->
  m ∈ ds /\ Forall (fun d => PyFloat.leb m d = true) ds.
Proof.
  destruct ds as [|x l]; cbn; [done|]. intros Hn [= <-]. now apply py_min_fold.
Qed.

Lemma info_of_key_ok booking info :
  info_of booking = Ok info -> item_key_ok (item_of_info info).
Proof.
  intros H. apply info_of_inv in H as (ds & mx & mn & Hds & Hmx & Hmn & ->).
  unfold item_key_ok, item_of_info. cbn. rewrite is_nan_neg.
  apply resolve_all_not_nan in Hds.
  destruct (py_max_spec ds mx Hds Hmx) as [Hin _].
  rewrite Forall_forall in Hds. now apply Hds.
Qed.

(** ** The two loops of the sequencer *)

Section sequencer.
Variable dom : heap_item -> Prop.
Hypothesis dom_key_ok : forall a, dom a -> item_key_ok a.

Lemma push_bookings_spec bookings : forall booking_data self,
  cache_consistent self ->
  heap_ok item_le booking_data -> Forall dom booking_data ->
  (forall b info, b ∈ bookings -> info_of b = Ok info -> dom (item_of_info info)) ->
  cache_consistent (snd (push_bookings bookings booking_data self))
  /\ match fst (push_bookings bookings booking_data self) with
     | Ok booking_data' =>
         heap_ok item_le booking_data' /\ Forall dom booking_data'
         /\ exists infos,
              Forall2 (fun b info => info_of b = Ok info) bookings infos
              /\ booking_data' ≡ₚ booking_data ++ map item_of_info infos
     | Raise e =>
         raised_by_lt tuple_lt dom e
         \/ exists b, b ∈ bookings /\ info_of b = Raise e
     end.
Proof.
  pose proof (tuple_lt_order dom dom_key_ok) as Hord.
  induction bookings as [|b bookings IH]; intros h self Hc Hok Hh Hdom.
  - cbn. split; [done|]. split; [done|]. split; [done|].
    exists []. split; [constructor|]. now rewrite app_nil_r.
  - cbn [push_bookings].
    destruct (seat_distances_spec (Booking.seats b) self Hc) as [H1 Hc1].
    destruct (seat_distances (Booking.seats b) self) as [r1 self1].
    cbn in H1, Hc1. subst r1.
    assert (Hb : b ∈ b :: bookings) by left.
    destruct (resolve_all (Booking.seats b)) as [ds|e] eqn:Hds; cycle 1.
    { cbn. split; [done|]. right. exists b. split; [done|].
      unfold info_of. now rewrite Hds. }
    unfold push_booking.
    destruct (py_max ds) as [mx|e] eqn:Hmx; cbn [mbind result_bind]; cycle 1.
    { cbn. split; [done|]. right. exists b. split; [done|].
      unfold info_of. rewrite Hds. cbn. now rewrite Hmx. }
    destruct (py_min ds) as [mn|e] eqn:Hmn; cbn [mbind result_bind]; cycle 1.
    { cbn. split; [done|]. right. exists b. split; [done|].
      unfold info_of. rewrite Hds. cbn. rewrite Hmx. cbn. now rewrite Hmn. }
    set (info := {| BookingInfo.bookingId := Booking.bookingId b;
                    BookingInfo.seats := Booking.seats b;
                    BookingInfo.maxDistance := mx;
                    BookingInfo.minDistance := mn;
                    BookingInfo.seatCount := length (Booking.seats b) |}).
    assert (Hinfo : info_of b = Ok info).
    { unfold info_of. rewrite Hds. cbn. rewrite Hmx. cbn. now rewrite Hmn. }
    assert (Hd : dom (item_of_info info)) by (apply (Hdom b); auto).
    pose proof (heappush_spec tuple_lt dom item_le Hord h (item_of_info info) Hok Hh Hd)
      as Hpush.
    change (PyFloat.neg mx, Booking.bookingId b, info) with (item_of_info info).
    destruct (heappush tuple_lt h (item_of_info info)) as [h1|e]; cbn in Hpush; cycle 1.
    { cbn. split; [done|]. now left. }
    destruct Hpush as [Hok1 Hperm1].
    assert (Hh1 : Forall dom h1) by (rewrite Hperm1; constructor; auto).
    destruct (IH h1 self1 Hc1 Hok1 Hh1) as [Hc2 Hres].
    { intros b' info' Hb'. apply Hdom. now right. }
    split; [exact Hc2|].
    destruct (fst (push_bookings bookings h1 self1)) as [h2|e].
    + destruct Hres as (Hok2 & Hh2 & infos & Hinfos & Hperm2).
      split; [done|]. split; [done|].
      exists (info :: infos). split; [constructor; auto|].
      rewrite Hperm2, Hperm1. cbn. apply Permutation_middle.
    + destruct Hres as [Hres|(b' & Hb' & Hres)]; [now left|].
      right. exists b'. split; [now right|done].
Qed.

Lemma pop_bookings_spec fuel : forall booking_data sequence_num boarding_sequence,
  (length booking_data <= fuel)%nat ->
  heap_ok item_le booking_data -> Forall dom booking_data ->
  ok_or_lt tuple_lt dom
    (pop_bookings fuel booking_data sequence_num boarding_sequence)
    (fun entries => exists items,
       entries = boarding_sequence ++ number_entries sequence_num items
       /\ items ≡ₚ booking_data
       /\ StronglySorted item_le items).
Proof.
  pose proof (tuple_lt_order dom dom_key_ok) as Hord.
  induction fuel as [|fuel IH]; intros h n acc Hfuel Hok Hdom.
  - destruct h; [|cbn in Hfuel; lia]. exists []. cbn. rewrite app_nil_r.
    repeat split; auto. constructor.
  - destruct h as [|x0 h0].
    { exists []. cbn. rewrite app_nil_r. repeat split; auto. constructor. }
    cbn [pop_bookings].
    pose proof (heappop_spec tuple_lt dom item_le Hord (x0 :: h0)) as Hpop.
    destruct (heappop tuple_lt (x0 :: h0)) as [[x h']|e]; cbn [mbind result_bind];
      cycle 1.
    { apply Hpop; auto. }
    destruct Hpop as (Hok' & Hperm & Hmin); [done|auto|auto|].
    assert (Hlen : length (x0 :: h0) = S (length h')) by (rewrite Hperm; reflexivity).
    assert (Hdom' : Forall dom h') by (rewrite Hperm in Hdom; now inversion Hdom).
    assert (Hfuel' : (length h' <= fuel)%nat) by lia.
    specialize (IH h' (n + 1)%nat (acc ++ [entry_of n x]) Hfuel' Hok' Hdom').
    destruct x as [[nd bid] info]. unfold entry_of at 1 in IH. cbn [snd] in IH.
    destruct (pop_bookings fuel h' (n + 1) _) as [entries|e]; cbn in *; [|done].
    destruct IH as (items & -> & Hperm' & Hsorted).
    exists ((nd, bid, info) :: items). split; [|split].
    + rewrite <- app_assoc. cbn. now replace (n + 1)%nat with (S n) by lia.
    + rewrite Hperm. now constructor.
    + constructor; [assumption|]. now rewrite Hperm'.
Qed.

Lemma process_bookings_spec bookings self :
  cache_consistent self ->
  (forall b info, b ∈ bookings -> info_of b = Ok info -> dom (item_of_info info)) ->
  cache_consistent (snd (process_bookings_with_heap bookings self))
  /\ match fst (process_bookings_with_heap bookings self) with
     | Ok r =>
         exists infos items,
           Forall2 (fun b info => info_of b = Ok info) bookings infos
           /\ items ≡ₚ map item_of_info infos
           /\ StronglySorted item_le items
           /\ boardingSequence r = number_entries 1 items
           /\ totalBookings r = length bookings
           /\ totalPassengers r
              = list_sum (map (fun b => length (Booking.seats b)) bookings)
     | Raise e =>
         raised_by_lt tuple_lt dom e
         \/ exists b, b ∈ bookings /\ info_of b = Raise e
     end.
Proof.
  intros Hc Hdom. unfold process_bookings_with_heap.
  destruct (push_bookings_spec bookings [] self Hc) as [Hc1 Hpush]; auto.
  { apply heap_ok_nil. }
  destruct (push_bookings bookings [] self) as [[h|e] self1]; cbn in Hc1, Hpush;
    [|now split].
  destruct Hpush as (Hok & Hh & infos & Hinfos & Hperm).
  pose proof (pop_bookings_spec (length h) h 1 [] (Nat.le_refl _) Hok Hh) as Hpop.
  destruct (pop_bookings (length h) h 1 []) as [entries|e]; cbn in Hpop |- *;
    [|split; [done|now left]].
  destruct Hpop as (items & -> & Hperm' & Hsorted).
  split; [done|]. exists infos, items. cbn. repeat split; auto.
  now rewrite Hperm'.
Qed.

End sequencer.

(** ** The sequencer *)

Lemma StronglySorted_lookup {X : Type} (R : X -> X -> Prop) (l : list X) :
  StronglySorted R l ->
  forall i j a b, (i < j)%nat -> l !! i = Some a -> l !! j = Some b -> R a b.
Proof.
  induction 1 as [|x l Hl IH Hx]; intros i j a b Hij Ha Hb; [done|].
  destruct j as [|j]; [lia|]. cbn in Hb. destruct i as [|i]; cbn in Ha.
  - injection Ha as <-. rewrite Forall_forall in Hx. apply Hx.
    eapply list_elem_of_lookup_2; eauto.
  - apply (IH i j); auto. lia.
Qed.

Lemma number_entries_lookup items : forall n i,
  number_entries n items !! i = entry_of (n + i) <$> items !! i.
Proof.
  induction items as [|x items IH]; intros n [|i]; cbn; try done.
  - now rewrite Nat.add_0_r.
  - rewrite IH. now replace (S n + i)%nat with (n + S i)%nat by lia.
Qed.

Lemma number_entries_map items : forall n,
  map Entry.sequence (number_entries n items) = seq n (length items).
Proof. induction items as [|x items IH]; intros n; cbn; [done|]. now rewrite IH. Qed.

Lemma number_entries_bookings items : forall n,
  map booking_of_entry (number_entries n items)
  = map (fun item : heap_item =>
           {| Booking.bookingId := BookingInfo.bookingId item.2;
              Booking.seats := BookingInfo.seats item.2 |}) items.
Proof. induction items as [|x items IH]; intros n; cbn; [done|]. now rewrite IH. Qed.

Lemma info_of_booking booking info :
  info_of booking = Ok info ->
  {| Booking.bookingId := BookingInfo.bookingId info;
     Booking.seats := BookingInfo.seats info |} = booking.
Proof.
  intros H. apply info_of_inv in H as (ds & mx & mn & _ & _ & _ & ->). cbn.
  now destruct booking.
Qed.

Lemma info_of_distances booking info :
  info_of booking = Ok info ->
  exists ds, resolve_all (BookingInfo.seats info) = Ok ds
    /\ is_maximum (BookingInfo.maxDistance info) ds
    /\ is_minimum (BookingInfo.minDistance info) ds.
Proof.
  intros H. apply info_of_inv in H as (ds & mx & mn & Hds & Hmx & Hmn & ->). cbn.
  exists ds. split; [done|]. pose proof (resolve_all_not_nan _ _ Hds) as Hn.
  split; [now apply py_max_spec|now apply py_min_spec].
Qed.

Lemma item_le_entry_le n m info1 info2 :
  PyFloat.is_nan (BookingInfo.maxDistance info1) = false ->
  PyFloat.is_nan (BookingInfo.maxDistance info2) = false ->
  item_le (item_of_info info1) (item_of_info info2) ->
  entry_le (entry_of n (item_of_info info1)) (entry_of m (item_of_info info2)).
Proof.
  unfold item_le, entry_le, item_of_info. cbn. intros H1 H2 [Hlt|[He Hid]].
  - left. apply (proj1 (float_lt_neg _ _)) in Hlt. apply ltb_true_iff.
    repeat split; auto.
  - right. split; [|exact Hid]. apply (proj1 (float_eq_neg _ _)) in He. apply eqb_true_iff.
    repeat split; auto.
Qed.

Lemma Forall2_info_in bookings infos :
  Forall2 (fun b info => info_of b = Ok info) bookings infos ->
  forall info, info ∈ infos -> exists b, b ∈ bookings /\ info_of b = Ok info.
Proof.
  induction 1 as [|b info bookings infos Hb _ IH]; intros i Hi.
  - now apply elem_of_nil in Hi.
  - apply elem_of_cons in Hi as [->|Hi].
    + exists b. split; [left|done].
    + destruct (IH i Hi) as (b' & Hb' & Hi'). exists b'. split; [now right|done].
Qed.

Lemma Forall2_info_bookings bookings infos :
  Forall2 (fun b info => info_of b = Ok info) bookings infos ->
  map (fun info => {| Booking.bookingId := BookingInfo.bookingId info;
                      Booking.seats := BookingInfo.seats info |}) infos = bookings.
Proof.
  induction 1 as [|b info bookings infos Hb _ IH]; cbn; [done|].
  now rewrite IH, (info_of_booking b info Hb).
Qed.

(** Whenever [process_bookings_with_heap] returns, it returns the bookings
    in order. *)
Lemma process_bookings_sequenced bookings self r :
  cache_consistent self ->
  fst (process_bookings_with_heap bookings self) = Ok r ->
  sequenced bookings (boardingSequence r)
  /\ totalBookings r = length bookings
  /\ totalPassengers r = list_sum (map (fun b => length (Booking.seats b)) bookings).
Proof.
  intros Hc Hr.
  destruct (process_bookings_spec item_key_ok (fun a H => H) bookings self Hc)
    as [_ Hspec].
  { intros b info _. apply info_of_key_ok. }
  rewrite Hr in Hspec.
  destruct Hspec as (infos & items & Hinfos & Hperm & Hsorted & -> & Htb & Htp).
  split; [|auto].
  assert (Hlen : length items = length bookings).
  { rewrite Hperm, length_map. symmetry. eapply Forall2_length; eauto. }
  assert (Hitem : forall item, item ∈ items ->
            exists b info, b ∈ bookings /\ info_of b = Ok info
                           /\ item = item_of_info info).
  { intros item Hin. rewrite Hperm in Hin.
    apply list_elem_of_fmap in Hin as (info & -> & Hin).
    destruct (Forall2_info_in _ _ Hinfos info Hin) as (b & Hb & Hi). eauto. }
  split.
  - rewrite number_entries_bookings.
    rewrite (Permutation_map _ Hperm), map_map. cbn.
    now rewrite (Forall2_info_bookings _ _ Hinfos).
  - apply Forall_lookup. intros i entry Hi.
    rewrite number_entries_lookup in Hi.
    destruct (items !! i) as [item|] eqn:Ei; [|done]. injection Hi as <-.
    destruct (Hitem item) as (b & info & _ & Hinfo & ->).
    { eapply list_elem_of_lookup_2; eauto. }
    cbn. eapply info_of_distances; eauto.
  - intros i j a b Hij Ha Hb. rewrite number_entries_lookup in Ha, Hb.
    destruct (items !! i) as [x|] eqn:Ei; [|done]. injection Ha as <-.
    destruct (items !! j) as [y|] eqn:Ej; [|done]. injection Hb as <-.
    destruct (Hitem x) as (b1 & info1 & _ & Hinfo1 & ->).
    { eapply list_elem_of_lookup_2; eauto. }
    destruct (Hitem y) as (b2 & info2 & _ & Hinfo2 & ->).
    { eapply list_elem_of_lookup_2; eauto. }
    apply item_le_entry_le.
    + apply info_of_key_ok in Hinfo1. unfold item_key_ok, item_of_info in Hinfo1.
      cbn in Hinfo1. now rewrite is_nan_neg in Hinfo1.
    + apply info_of_key_ok in Hinfo2. unfold item_key_ok, item_of_info in Hinfo2.
      cbn in Hinfo2. now rewrite is_nan_neg in Hinfo2.
    + eapply (StronglySorted_lookup _ _ Hsorted i j); eauto.
  - rewrite number_entries_map. now rewrite Hlen.
Qed.

Lemma resolve_all_ok seats :
  Forall seat_resolves seats ->
  exists ds, resolve_all seats = Ok ds /\ length ds = length seats.
Proof.
  induction 1 as [|seat seats Hs _ (ds & Hds & Hlen)]; cbn; [eauto|].
  unfold seat_resolves in Hs.
  destruct (_calculate_seat_distance seat) as [d|]; [|done]. cbn. rewrite Hds. cbn.
  exists (d :: ds). split; [done|]. cbn. now rewrite Hlen.
Qed.

Lemma eligible_info_of booking :
  eligible booking -> exists info, info_of booking = Ok info.
Proof.
  intros [Hne Hs]. destruct (resolve_all_ok _ Hs) as (ds & Hds & Hlen).
  unfold info_of. rewrite Hds. cbn.
  destruct ds as [|d ds]; [destruct (Booking.seats booking); done|].
  cbn. eauto.
Qed.

Lemma batch_items_compatible bookings a b :
  no_conflicting_ties bookings ->
  batch_item bookings a -> batch_item bookings b -> items_compatible a b.
Proof.
  intros Hties (b1 & info1 & Hb1 & Hinfo1 & ->) (b2 & info2 & Hb2 & Hinfo2 & ->).
  unfold items_compatible, item_of_info. cbn [fst snd]. intros Heq Hid.
  rewrite eqb_neg in Heq.
  pose proof Hinfo1 as Hi1. pose proof Hinfo2 as Hi2.
  apply info_of_inv in Hi1 as (ds1 & mx1 & mn1 & Hds1 & Hmx1 & Hmn1 & E1).
  apply info_of_inv in Hi2 as (ds2 & mx2 & mn2 & Hds2 & Hmx2 & Hmn2 & E2).
  assert (Hseats : Booking.seats b1 = Booking.seats b2).
  { apply (Hties b1 b2 info1 info2); auto. subst. exact Hid. }
  rewrite Hseats in Hds1. assert (ds1 = ds2) as -> by congruence.
  assert (mx1 = mx2) as -> by congruence. assert (mn1 = mn2) as -> by congruence.
  subst. cbn in *. unfold BookingInfo.eqb. cbn. rewrite Hid, Hseats.
  rewrite String.eqb_refl, bool_decide_eq_true_2 by done. rewrite Heq. cbn.
  rewrite Nat.eqb_refl, andb_true_r.
  apply eqb_true_iff. apply resolve_all_not_nan in Hds1.
  destruct (py_min_spec ds2 mn2 Hds1 Hmn2) as [Hin _].
  rewrite Forall_forall in Hds1. specialize (Hds1 _ Hin). repeat split; auto.
Qed.

(** On eligible bookings without conflicting ties the sequencer returns. *)
Lemma process_bookings_total bookings self :
  cache_consistent self ->
  Forall eligible bookings -> no_conflicting_ties bookings ->
  exists r, fst (process_bookings_with_heap bookings self) = Ok r.
Proof.
  intros Hc Hel Hties.
  destruct (process_bookings_spec (batch_item bookings)) with (bookings := bookings)
    (self := self) as [_ Hspec]; auto.
  { intros a (b & info & _ & Hinfo & ->). eapply info_of_key_ok; eauto. }
  { intros b info Hb Hinfo. exists b, info. auto. }
  destruct (fst (process_bookings_with_heap bookings self)) as [r|e]; [eauto|].
  exfalso. destruct Hspec as [(a & b & Ha & Hb & Hab)|(b & Hb & Hab)].
  - destruct (tuple_lt_defined a b) as [r Hr]; [|congruence].
    eapply batch_items_compatible; eauto.
  - rewrite Forall_forall in Hel. destruct (eligible_info_of b (Hel b Hb)). congruence.
Qed.

(** ** The analyzer *)

Lemma for_each_fold {X S : Type} (g : X -> S -> S) (body : X -> S -> result S)
    (xs : list X) : forall s,
  (forall x s, x ∈ xs -> body x s = Ok (g x s)) ->
  for_each xs body s = Ok (fold_left (fun s x => g x s) xs s).
Proof.
  induction xs as [|x xs IH]; intros s Hbody; cbn; [done|].
  rewrite Hbody by left. cbn. apply IH. intros y s' Hy. apply Hbody. now right.
Qed.

Lemma fold_left_flat_map {X Y S : Type} (f : S -> Y -> S) (g : X -> list Y) (xs : list X) :
  forall s,
  fold_left f (flat_map g xs) s = fold_left (fun s x => fold_left f (g x) s) xs s.
Proof.
  induction xs as [|x xs IH]; intros s; cbn; [done|].
  now rewrite fold_left_app, IH.
Qed.

Lemma fold_left_fmap {X Y S : Type} (f : S -> Y -> S) (g : X -> Y) (xs : list X) :
  forall s, fold_left f (map g xs) s = fold_left (fun s x => f s (g x)) xs s.
Proof. induction xs as [|x xs IH]; intros s; cbn; [done|]. apply IH. Qed.

Lemma elem_of_range a b i : i ∈ range a b <-> (a <= i < b)%nat.
Proof. unfold range. rewrite list_elem_of_In, in_seq. lia. Qed.

Lemma blocking_loops_inversion_sum sequence :
  blocking_loops sequence = Ok (inversion_sum (map Entry.maxDistance sequence)).
Proof.
  unfold blocking_loops, inversion_sum, position_pairs.
  set (ds := map Entry.maxDistance sequence).
  set (n := length sequence).
  replace (length ds) with n by (subst ds n; now rewrite length_map).
  rewrite fold_left_flat_map.
  assert (Hlast : seq 0 n = range 0 (n - 1) ++ (if decide (n = 0)%nat then [] else [(n - 1)%nat])).
  { unfold range. clearbody n. destruct n as [|m]; [reflexivity|].
    rewrite decide_False by lia. rewrite seq_S.
    replace (S m - 1 - 0)%nat with m by lia.
    now replace (S m - 1)%nat with (0 + m)%nat by lia. }
  rewrite Hlast, fold_left_app.
  assert (Hend : forall s,
    fold_left (fun s x => fold_left (blocking_step ds)
                 (map (fun j => (x, j)) (seq (x + 1) (n - (x + 1)))) s)
      (if decide (n = 0)%nat then [] else [(n - 1)%nat]) s = s).
  { intros s. case_decide; cbn; [done|].
    now replace (n - (n - 1 + 1))%nat with 0%nat by lia. }
  rewrite Hend.
  apply (for_each_fold
           (fun i s => fold_left (blocking_step ds)
              (map (fun j => (i, j)) (seq (i + 1) (n - (i + 1)))) s)).
  intros i s Hi. apply elem_of_range in Hi.
  rewrite fold_left_fmap.
  apply (for_each_fold (fun j s => blocking_step ds s (i, j))).
  intros j s' Hj. apply elem_of_range in Hj.
  destruct (lookup_lt_is_Some_2 sequence i) as [si Hsi]; [subst n; lia|].
  destruct (lookup_lt_is_Some_2 sequence j) as [sj Hsj]; [subst n; lia|].
  rewrite (getitem_Some _ _ _ Hsi), (getitem_Some _ _ _ Hsj). cbn [mbind result_bind].
  unfold blocking_step. subst ds. rewrite !list_lookup_fmap, Hsi, Hsj. cbn.
  now destruct (PyFloat.ltb _ _).
Qed.

Lemma descending_pairs entries :
  descending entries ->
  forall i j a b, (i < j)%nat -> entries !! i = Some a -> entries !! j = Some b ->
    PyFloat.leb (Entry.maxDistance b) (Entry.maxDistance a) = true.
Proof.
  intros Hd i j. induction j as [|j IH]; intros a b Hij Ha Hb; [lia|].
  destruct (lookup_lt_is_Some_2 entries j) as [c Hc].
  { apply lookup_lt_Some in Hb. lia. }
  pose proof (Hd j c b Hc Hb) as Hcb.
  destruct (decide (i = j)) as [->|Hne].
  - now assert (c = a) as -> by congruence.
  - apply (leb_trans _ (Entry.maxDistance c)); [done|]. apply (IH a c); [lia|done|done].
Qed.

Lemma leb_ltb_false x y : PyFloat.leb y x = true -> PyFloat.ltb x y = false.
Proof.
  intros H. destruct (leb_not_nan _ _ H). now apply ltb_false_iff.
Qed.

Lemma descending_inversion_sum entries :
  descending entries -> inversion_sum (map Entry.maxDistance entries) = PyInt 0.
Proof.
  intros Hd. unfold inversion_sum. rewrite length_map.
  assert (Hstep : forall ij acc, ij ∈ position_pairs (length entries) ->
            blocking_step (map Entry.maxDistance entries) acc ij = acc).
  { intros [i j] acc Hin. unfold position_pairs in Hin.
    apply list_elem_of_In, in_flat_map in Hin as (i' & Hi' & Hin).
    apply in_map_iff in Hin as (j' & [= <- <-] & Hj'). apply in_seq in Hi', Hj'.
    unfold blocking_step. rewrite !list_lookup_fmap.
    destruct (entries !! i') as [a|] eqn:Ea; [|done].
    destruct (entries !! j') as [b|] eqn:Eb; [|done]. cbn.
    rewrite leb_ltb_false; [done|].
    apply (descending_pairs entries Hd i' j'); auto. lia. }
  generalize (PyInt 0). revert Hstep.
  induction (position_pairs (length entries)) as [|ij l IH]; intros Hstep acc; cbn; [done|].
  rewrite Hstep by left. apply IH. intros ij' acc' Hin. apply Hstep. now right.
Qed.

Lemma descending_tail x entries : descending (x :: entries) -> descending entries.
Proof. intros Hd i a b Ha Hb. apply (Hd (S i)); auto. Qed.

Lemma descending_sorted entries :
  descending entries ->
  sorted (fun x => PyFloat.neg (Entry.maxDistance x)) entries = entries.
Proof.
  induction entries as [|x entries IH]; intros Hd; cbn; [done|].
  rewrite IH by (eapply descending_tail; eauto).
  destruct entries as [|y entries]; cbn; [done|].
  rewrite ltb_neg. rewrite leb_ltb_false; [done|]. now apply (Hd 0%nat).
Qed.

Lemma count_correct_same (suffix : list Entry.t) : forall prefix,
  count_correct (length prefix) suffix (prefix ++ suffix) = Ok (length suffix).
Proof.
  induction suffix as [|x suffix IH]; intros prefix; cbn; [done|].
  rewrite (getitem_Some _ _ x) by (now apply list_lookup_middle).
  cbn [mbind result_bind].
  specialize (IH (prefix ++ [x])). rewrite length_app, <- app_assoc in IH. cbn in IH.
  replace (length prefix + 1)%nat with (S (length prefix)) in IH by lia.
  rewrite IH. cbn. now rewrite String.eqb_refl.
Qed.

Lemma count_correct_ok (items : list Entry.t) : forall i ideal_order,
  (i + length items <= length ideal_order)%nat ->
  exists c, count_correct i items ideal_order = Ok c /\ (c <= length items)%nat.
Proof.
  induction items as [|x items IH]; intros i ideal Hlen; cbn; [eauto|].
  cbn in Hlen.
  destruct (lookup_lt_is_Some_2 ideal i) as [o Ho]; [lia|].
  rewrite (getitem_Some _ _ _ Ho). cbn [mbind result_bind].
  destruct (IH (S i) ideal) as (c & -> & Hc); [lia|]. cbn.
  eexists; split; [reflexivity|]. destruct (String.eqb _ _); lia.
Qed.

Lemma insert_by_key_length {X : Type} (key : X -> float) x (l : list X) :
  length (insert_by_key key x l) = S (length l).
Proof.
  induction l as [|y l IH]; cbn; [done|].
  destruct (PyFloat.ltb _ _); cbn; [now rewrite IH|done].
Qed.

Lemma sorted_length {X : Type} (key : X -> float) (l : list X) :
  length (sorted key l) = length l.
Proof.
  induction l as [|x l IH]; cbn; [done|]. now rewrite insert_by_key_length, IH.
Qed.

(** ** Rounding to binary64 *)

Section rounding.
Local Open Scope Z_scope.

Lemma digits2_pos_size p : digits2_pos p = Pos.size p.
Proof. induction p as [p IH|p IH|]; cbn; now rewrite ?IH. Qed.

Lemma Zdigits2_log2 m : 0 < m -> Zdigits2 m = Z.log2 m + 1.
Proof.
  destruct m as [|p|p]; try lia. intros _. cbn [Zdigits2].
  rewrite digits2_pos_size. destruct p; cbn; lia.
Qed.

Lemma Zdigits2_unique m d : 0 < m -> 2 ^ (d - 1) <= m < 2 ^ d -> Zdigits2 m = d.
Proof.
  intros Hm Hd. rewrite Zdigits2_log2 by done.
  assert (0 < d).
  { destruct (Z.le_gt_cases d 0) as [Hle|]; [|done].
    assert (2 ^ d <= 2 ^ 0) by (apply Z.pow_le_mono_r; lia). lia. }
  rewrite (Z.log2_unique m (d - 1)); [lia|lia|].
  now replace (Z.succ (d - 1)) with d by lia.
Qed.

Lemma Zdigits2_bounds m : 0 < m -> 2 ^ (Zdigits2 m - 1) <= m < 2 ^ Zdigits2 m.
Proof.
  intros Hm. rewrite Zdigits2_log2 by done.
  replace (Z.log2 m + 1 - 1) with (Z.log2 m) by lia.
  replace (Z.log2 m + 1) with (Z.succ (Z.log2 m)) by lia.
  now apply Z.log2_spec.
Qed.

Lemma iter_pos_nat {X : Type} (f : X -> X) p : forall x,
  SpecFloat.iter_pos f p x = Nat.iter (Pos.to_nat p) f x.
Proof.
  induction p as [p IH|p IH|]; intros x; cbn [SpecFloat.iter_pos].
  - rewrite !IH, Pos2Nat.inj_xI, <- Nat.iter_add, <- Nat.iter_succ_r.
    f_equal. lia.
  - rewrite !IH, Pos2Nat.inj_xO, <- Nat.iter_add. f_equal. lia.
  - reflexivity.
Qed.

Lemma shr_1_m mrs : 0 <= shr_m mrs -> shr_m (shr_1 mrs) = shr_m mrs / 2.
Proof.
  destruct mrs as [[|[p|p|]|p] r s]; cbn [shr_m shr_1]; intros H; lia.
Qed.

Lemma shr_1_r mrs : 0 <= shr_m mrs -> shr_r (shr_1 mrs) = Z.odd (shr_m mrs).
Proof. destruct mrs as [[|[p|p|]|p] r s]; cbn; intros H; (reflexivity || lia). Qed.

Lemma shr_1_s mrs : shr_s (shr_1 mrs) = shr_r mrs || shr_s mrs.
Proof. destruct mrs as [[|[p|p|]|[p|p|]] r s]; reflexivity. Qed.

Lemma shr_1_eq m r s :
  0 <= m -> shr_1 (Build_shr_record m r s) = Build_shr_record (m / 2) (Z.odd m) (r || s).
Proof.
  intros Hm.
  pose proof (shr_1_m (Build_shr_record m r s) Hm) as E1.
  pose proof (shr_1_r (Build_shr_record m r s) Hm) as E2.
  pose proof (shr_1_s (Build_shr_record m r s)) as E3.
  destruct (shr_1 _) as [m' r' s']. cbn [shr_m shr_r shr_s] in *. now subst.
Qed.

(** After [k + 1] shifts of an exact [m]. *)
Lemma shr_iter m k :
  0 <= m ->
  Nat.iter (S k) shr_1 (Build_shr_record m false false)
  = Build_shr_record (m / 2 ^ (Z.of_nat k + 1)) (Z.odd (m / 2 ^ Z.of_nat k))
      (negb (m mod 2 ^ Z.of_nat k =? 0)).
Proof.
  intros Hm. induction k as [|k IH].
  - cbn [Nat.iter]. rewrite shr_1_eq by done.
    change (2 ^ (Z.of_nat 0 + 1)) with 2. change (2 ^ Z.of_nat 0) with 1.
    now rewrite Z.div_1_r, Z.mod_1_r.
  - change (Nat.iter (S (S k)) shr_1 ?x) with (shr_1 (Nat.iter (S k) shr_1 x)).
    rewrite IH.
    replace (Z.of_nat (S k)) with (Z.of_nat k + 1) by lia.
    assert (Hp : 0 < 2 ^ Z.of_nat k) by (apply Z.pow_pos_nonneg; lia).
    assert (Hp1 : 2 ^ (Z.of_nat k + 1) = 2 ^ Z.of_nat k * 2) by (rewrite Z.pow_add_r; lia).
    assert (Hp2 : 2 ^ (Z.of_nat k + 1 + 1) = 2 ^ (Z.of_nat k + 1) * 2)
      by (rewrite (Z.pow_add_r 2 (Z.of_nat k + 1) 1); lia).
    set (q := m / 2 ^ (Z.of_nat k + 1)).
    assert (Hq : 0 <= q) by (apply Z.div_pos; lia).
    assert (Hs : Z.odd (m / 2 ^ Z.of_nat k) || negb (m mod 2 ^ Z.of_nat k =? 0)
                 = negb (m mod 2 ^ (Z.of_nat k + 1) =? 0)).
    { rewrite Hp1. rewrite Z.rem_mul_r by lia.
      pose proof (Z.mod_pos_bound m (2 ^ Z.of_nat k) Hp).
      rewrite (Zmod_odd (m / 2 ^ Z.of_nat k)).
      destruct (Z.eqb_spec (m mod 2 ^ Z.of_nat k) 0) as [E|E];
      destruct (Z.odd (m / 2 ^ Z.of_nat k)); cbn [negb orb];
      symmetry; try (apply negb_true_iff, Z.eqb_neq; nia);
      try (apply negb_false_iff, Z.eqb_eq; nia). }
    assert (Hq2 : m / 2 ^ (Z.of_nat k + 1 + 1) = q / 2).
    { subst q. rewrite Hp2, Z.div_div by lia. reflexivity. }
    rewrite Hq2, <- Hs. now apply shr_1_eq.
Qed.

Lemma fexp_eq e : fexp 53 1024 e = Z.max (e - 53) (-1074).
Proof. reflexivity. Qed.

(** The two components of [shr_fexp] on an exact positive mantissa. *)
Lemma shr_fexp_exact m e :
  0 < m ->
  let n := fexp 53 1024 (Zdigits2 m + e) - e in
  shr_fexp 53 1024 m e loc_Exact =
    if n <=? 0 then (Build_shr_record m false false, e)
    else (Build_shr_record (m / 2 ^ n) (Z.odd (m / 2 ^ (n - 1)))
            (negb (m mod 2 ^ (n - 1) =? 0)), e + n).
Proof.
  intros Hm n. unfold shr_fexp. fold n. cbn [shr_record_of_loc].
  destruct n as [|p|p] eqn:En; cbn [shr Z.leb Z.compare]; try reflexivity.
  rewrite iter_pos_nat.
  destruct (Pos2Nat.is_succ p) as [k Hk]. rewrite Hk.
  rewrite (shr_iter m k ltac:(lia)).
  assert (Hp : Z.pos p = Z.of_nat k + 1) by lia.
  rewrite Hp. now replace (Z.of_nat k + 1 - 1) with (Z.of_nat k) by lia.
Qed.

Lemma shr_fexp_snd m e l :
  snd (shr_fexp 53 1024 m e l) = Z.max e (fexp 53 1024 (Zdigits2 m + e)).
Proof.
  unfold shr_fexp, shr.
  destruct (fexp 53 1024 (Zdigits2 m + e) - e) as [|p|p] eqn:E; cbn [snd]; lia.
Qed.

Lemma shr_m_iter k : forall mrs,
  0 <= shr_m mrs -> shr_m (Nat.iter k shr_1 mrs) = shr_m mrs / 2 ^ Z.of_nat k.
Proof.
  induction k as [|k IH]; intros mrs H.
  - cbn. now rewrite Z.div_1_r.
  - change (Nat.iter (S k) shr_1 mrs) with (shr_1 (Nat.iter k shr_1 mrs)).
    assert (0 <= shr_m (Nat.iter k shr_1 mrs)).
    { rewrite IH by done. apply Z.div_pos; [lia|]. apply Z.pow_pos_nonneg; lia. }
    rewrite shr_1_m by done. rewrite IH by done.
    rewrite Z.div_div by (try apply Z.pow_pos_nonneg; lia).
    f_equal. rewrite Nat2Z.inj_succ, Z.pow_succ_r by lia. lia.
Qed.

Lemma shr_fexp_fst_m m e l :
  0 <= m ->
  shr_m (fst (shr_fexp 53 1024 m e l))
  = m / 2 ^ Z.max 0 (fexp 53 1024 (Zdigits2 m + e) - e).
Proof.
  intros Hm. unfold shr_fexp, shr.
  assert (Hl : shr_m (shr_record_of_loc m l) = m) by now destruct l as [|[| |]].
  destruct (fexp 53 1024 (Zdigits2 m + e) - e) as [|p|p] eqn:E; cbn [fst].
  - now rewrite Hl, Z.div_1_r.
  - rewrite iter_pos_nat, shr_m_iter by lia. rewrite Hl. f_equal. f_equal. lia.
  - now rewrite Hl, Z.div_1_r.
Qed.


Lemma rne_shift_spec m n :
  0 <= m -> 0 < n ->
  round_nearest_even (m / 2 ^ n)
    (loc_of_shr_record
       (Build_shr_record (m / 2 ^ n) (Z.odd (m / 2 ^ (n - 1)))
          (negb (m mod 2 ^ (n - 1) =? 0))))
  = rne_shift m n.
Proof.
  intros Hm Hn. unfold rne_shift.
  assert (Hp : 0 < 2 ^ (n - 1)) by (apply Z.pow_pos_nonneg; lia).
  assert (Hp1 : 2 ^ n = 2 ^ (n - 1) * 2).
  { replace n with (n - 1 + 1) at 1 by lia. rewrite Z.pow_add_r; lia. }
  assert (Hrem : m mod 2 ^ n
                 = m mod 2 ^ (n - 1) + 2 ^ (n - 1) * (if Z.odd (m / 2 ^ (n - 1)) then 1 else 0)).
  { rewrite Hp1 at 1. rewrite Z.rem_mul_r by lia. now rewrite Zmod_odd. }
  pose proof (Z.mod_pos_bound m (2 ^ (n - 1)) Hp) as Hb.
  rewrite Hrem.
  destruct (Z.odd (m / 2 ^ (n - 1))) eqn:Er;
  destruct (Z.eqb_spec (m mod 2 ^ (n - 1)) 0) as [E|E]; cbn [negb loc_of_shr_record round_nearest_even].
  - rewrite E. replace (2 ^ (n - 1) <? 0 + 2 ^ (n - 1) * 1) with false by lia.
    replace (2 ^ (n - 1) =? 0 + 2 ^ (n - 1) * 1) with true by lia.
    cbn [orb andb]. rewrite <- Z.negb_odd. now destruct (Z.odd (m / 2 ^ n)).
  - replace (2 ^ (n - 1) <? m mod 2 ^ (n - 1) + 2 ^ (n - 1) * 1) with true by lia.
    reflexivity.
  - rewrite E. replace (2 ^ (n - 1) <? 0 + 2 ^ (n - 1) * 0) with false by lia.
    replace (2 ^ (n - 1) =? 0 + 2 ^ (n - 1) * 0) with false by lia. reflexivity.
  - replace (2 ^ (n - 1) <? m mod 2 ^ (n - 1) + 2 ^ (n - 1) * 0) with false by lia.
    replace (2 ^ (n - 1) =? m mod 2 ^ (n - 1) + 2 ^ (n - 1) * 0) with false by lia.
    reflexivity.
Qed.

Lemma rne_shift_bounds m n :
  0 <= m -> 0 < n -> m / 2 ^ n <= rne_shift m n <= m / 2 ^ n + 1.
Proof. intros Hm Hn. unfold rne_shift. destruct (_ || _); lia. Qed.

(** A mantissa of 53 bits is kept. *)
Lemma binary_round_aux_canonical s p e :
  Zdigits2 (Z.pos p) = 53 -> -1074 <= e ->
  binary_round_aux 53 1024 s (Z.pos p) e loc_Exact
  = if e <=? 971 then S754_finite s p e else S754_infinity s.
Proof.
  intros Hd He. unfold binary_round_aux.
  assert (Hn : fexp 53 1024 (Zdigits2 (Z.pos p) + e) - e = 0).
  { rewrite Hd, fexp_eq. lia. }
  rewrite shr_fexp_exact by lia. cbv zeta. rewrite Hn. cbn [Z.leb Z.compare].
  cbn [shr_m loc_of_shr_record round_nearest_even].
  rewrite shr_fexp_exact by lia. cbv zeta. rewrite Hn. cbn [Z.leb Z.compare shr_m].
  reflexivity.
Qed.

(** A longer mantissa is shifted to 53 bits and rounded; the rounding may
    carry into a 54th bit. *)
Lemma binary_round_aux_normal s m e :
  0 < m -> 53 < Zdigits2 m -> -1074 <= Zdigits2 m + e - 53 ->
  let n := Zdigits2 m - 53 in
  let m1 := rne_shift m n in
  binary_round_aux 53 1024 s m e loc_Exact
  = if m1 <? 2 ^ 53 then
      if e + n <=? 971 then S754_finite s (Z.to_pos m1) (e + n) else S754_infinity s
    else
      if e + n + 1 <=? 971 then S754_finite s (Z.to_pos (2 ^ 52)) (e + n + 1)
      else S754_infinity s.
Proof.
  intros Hm Hd He n m1. unfold binary_round_aux.
  assert (Hn : fexp 53 1024 (Zdigits2 m + e) - e = n).
  { rewrite fexp_eq. subst n. lia. }
  assert (Hn0 : 0 < n) by (subst n; lia).
  rewrite shr_fexp_exact by lia. cbv zeta. rewrite Hn.
  replace (n <=? 0) with false by lia.
  cbn [shr_m]. rewrite rne_shift_spec by lia. fold m1.
  pose proof (Zdigits2_bounds m Hm) as Hb.
  assert (Hpn : 0 < 2 ^ n) by (apply Z.pow_pos_nonneg; lia).
  assert (Hq : 2 ^ 52 <= m / 2 ^ n < 2 ^ 53).
  { replace (Zdigits2 m - 1) with (52 + n) in Hb by (subst n; lia).
    replace (Zdigits2 m) with (53 + n) in Hb by (subst n; lia).
    rewrite !Z.pow_add_r in Hb by lia. split.
    - apply Z.div_le_lower_bound; lia.
    - apply Z.div_lt_upper_bound; lia. }
  pose proof (rne_shift_bounds m n ltac:(lia) Hn0) as Hm1. fold m1 in Hm1.
  assert (Hm1pos : 0 < m1) by lia.
  rewrite shr_fexp_exact by lia. cbv zeta.
  destruct (Z.ltb_spec m1 (2 ^ 53)) as [Hlt|Hge].
  - assert (Hd1 : Zdigits2 m1 = 53) by (apply Zdigits2_unique; lia).
    rewrite Hd1, fexp_eq.
    replace (Z.max (53 + (e + n) - 53) (-1074) - (e + n)) with 0 by (subst n; lia).
    cbn [Z.leb Z.compare shr_m].
    destruct m1 as [|p1|p1]; try lia. reflexivity.
  - assert (Em1 : m1 = 2 ^ 53) by lia.
    assert (Hd1 : Zdigits2 m1 = 54) by (rewrite Em1; reflexivity).
    rewrite Hd1, fexp_eq.
    replace (Z.max (54 + (e + n) - 53) (-1074) - (e + n)) with 1 by (subst n; lia).
    cbn [Z.leb Z.compare shr_m]. rewrite Em1.
    change (2 ^ 53 / 2 ^ 1) with (2 ^ 52).
    replace (e + n + 1 <=? 971) with (e + n + 1 <=? 1024 - 53) by reflexivity.
    reflexivity.
Qed.

End rounding.

Section conversions.
Local Open Scope Z_scope.

Lemma pos_iter_xO k : forall p, Z.pos (Pos.iter xO p k) = Z.pos p * 2 ^ Z.pos k.
Proof.
  induction k as [|k IH] using Pos.peano_ind; intros p.
  - cbn. lia.
  - rewrite Pos.iter_succ, Pos2Z.inj_xO, IH, Pos2Z.inj_succ, Z.pow_succ_r; lia.
Qed.

Lemma shl_align_fst mx ex ex' :
  ex' <= ex -> Z.pos (fst (shl_align mx ex ex')) = Z.pos mx * 2 ^ (ex - ex').
Proof.
  intros H. unfold shl_align.
  destruct (ex' - ex) as [|p|p] eqn:E; cbn [fst]; try lia.
  - replace (ex - ex') with 0 by lia. lia.
  - rewrite pos_iter_xO. f_equal. f_equal. lia.
Qed.

Lemma shl_align_ge mx ex ex' : ex <= ex' -> shl_align mx ex ex' = (mx, ex).
Proof.
  intros H. unfold shl_align. destruct (ex' - ex) as [|p|p] eqn:E; try reflexivity. lia.
Qed.

Lemma shl_align_lt mx ex ex' :
  ex' < ex -> snd (shl_align mx ex ex') = ex'.
Proof.
  intros H. unfold shl_align. destruct (ex' - ex) as [|p|p] eqn:E; try lia. reflexivity.
Qed.

Lemma pow2_pos n : 0 <= n -> 0 < 2 ^ n.
Proof. intros. apply Z.pow_pos_nonneg; lia. Qed.

Lemma pow2_split a b : 0 <= a -> 0 <= b -> 2 ^ (a + b) = 2 ^ a * 2 ^ b.
Proof. intros. apply Z.pow_add_r; lia. Qed.

(** [float(z)] for [0 < z < 2^53] is exact. *)
Lemma of_Z_small z :
  0 < z -> Zdigits2 z <= 53 ->
  PyFloat.of_Z z
  = S754_finite false (Z.to_pos (z * 2 ^ (53 - Zdigits2 z))) (Zdigits2 z - 53).
Proof.
  intros Hz Hd. pose proof (Zdigits2_bounds z Hz) as Hb.
  remember (Zdigits2 z) as d eqn:Ed.
  assert (Hd1 : 1 <= d).
  { destruct (Z.le_gt_cases 1 d); [done|].
    assert (2 ^ d <= 2 ^ 0) by (apply Z.pow_le_mono_r; lia). lia. }
  destruct z as [|p|p]; try lia.
  unfold PyFloat.of_Z, binary_normalize, binary_round, PyFloat.prec, PyFloat.emax.
  change (Z.pos (digits2_pos p)) with (Zdigits2 (Z.pos p)). rewrite <- Ed.
  assert (Hf : fexp 53 1024 (d + 0) = d - 53) by (rewrite fexp_eq; lia).
  rewrite Hf.
  pose proof (shl_align_fst p 0 (d - 53) ltac:(lia)) as Hm.
  assert (Hs : snd (shl_align p 0 (d - 53)) = d - 53).
  { destruct (Z.eq_dec d 53) as [E|E].
    - rewrite shl_align_ge by lia. cbn. lia.
    - apply shl_align_lt. lia. }
  destruct (shl_align p 0 (d - 53)) as [mz ez]. cbn [fst snd] in *. subst ez.
  replace (0 - (d - 53)) with (53 - d) in Hm by lia.
  assert (Hp : 0 < 2 ^ (53 - d)) by (apply pow2_pos; lia).
  assert (Hdz : Zdigits2 (Z.pos mz) = 53).
  { apply Zdigits2_unique; [lia|]. rewrite Hm.
    assert (E1 : 2 ^ (53 - 1) = 2 ^ (d - 1) * 2 ^ (53 - d)).
    { rewrite <- pow2_split by lia. f_equal. lia. }
    assert (E2 : 2 ^ 53 = 2 ^ d * 2 ^ (53 - d)).
    { rewrite <- pow2_split by lia. f_equal. lia. }
    rewrite E1, E2. nia. }
  rewrite binary_round_aux_canonical by (auto; lia).
  replace (d - 53 <=? 971) with true by lia.
  f_equal. rewrite <- Hm. now rewrite Pos2Z.id.
Qed.

(** [rne_shift] is additive over multiples of [2^n], away from ties. *)
Lemma rne_shift_add a b n :
  0 <= b -> 0 < n -> b mod 2 ^ n <> 2 ^ (n - 1) ->
  rne_shift (a * 2 ^ n + b) n = a + rne_shift b n.
Proof.
  intros Hb Hn Htie. unfold rne_shift.
  assert (Hp : 0 < 2 ^ n) by (apply pow2_pos; lia).
  rewrite Z.add_comm, Z.div_add, Z.mod_add by lia.
  destruct (Z.ltb_spec (2 ^ (n - 1)) (b mod 2 ^ n)); cbn [orb]; [lia|].
  destruct (Z.eqb_spec (2 ^ (n - 1)) (b mod 2 ^ n)); [congruence|]. cbn. lia.
Qed.

(** [float(r) + w] for a row below [2^53] and a small weight [w]. *)
Lemma add_of_Z r mw ew :
  0 < r -> Zdigits2 r <= 53 -> ew <= -54 ->
  weight_ok (Z.pos mw) ew (Zdigits2 r) = true ->
  PyFloat.add (PyFloat.of_Z r) (S754_finite false mw ew)
  = S754_finite false
      (Z.to_pos (r * 2 ^ (53 - Zdigits2 r)
                 + rne_shift (Z.pos mw) (Zdigits2 r - 53 - ew)))
      (Zdigits2 r - 53).
Proof.
  intros Hr Hd Hew Hok. rewrite of_Z_small by done.
  pose proof (Zdigits2_bounds r Hr) as Hb.
  remember (Zdigits2 r) as d eqn:Ed.
  assert (Hd1 : 1 <= d).
  { destruct (Z.le_gt_cases 1 d); [done|].
    assert (2 ^ d <= 2 ^ 0) by (apply Z.pow_le_mono_r; lia). lia. }
  unfold weight_ok in Hok. cbv zeta in Hok.
  set (n := d - 53 - ew) in *.
  apply andb_true_iff in Hok as [Htie Hc].
  apply negb_true_iff, Z.eqb_neq in Htie. apply Z.ltb_lt in Hc.
  assert (Hn : 0 < n) by (subst n; lia).
  assert (Hp : 0 < 2 ^ (53 - d)) by (apply pow2_pos; lia).
  assert (Hpn : 0 < 2 ^ n) by (apply pow2_pos; lia).
  assert (E53 : 2 ^ 53 = 2 ^ d * 2 ^ (53 - d)).
  { rewrite <- pow2_split by lia. f_equal. lia. }
  assert (Ed1 : 2 ^ d = 2 * 2 ^ (d - 1)).
  { rewrite <- Z.pow_succ_r by lia. f_equal. lia. }
  set (a := r * 2 ^ (53 - d)) in *.
  assert (Ha : 2 ^ 52 <= a <= 2 ^ 53 - 2 ^ (53 - d)).
  { change (2 ^ 52) with (2 ^ 53 / 2). subst a. rewrite E53. nia. }
  pose proof (rne_shift_bounds (Z.pos mw) n ltac:(lia) Hn) as Hrb.
  assert (Hmw : Z.pos mw < 2 ^ (53 - d) * 2 ^ n).
  { pose proof (Z.div_mod (Z.pos mw) (2 ^ n) ltac:(lia)).
    pose proof (Z.mod_pos_bound (Z.pos mw) (2 ^ n) Hpn). nia. }
  unfold PyFloat.add, SFadd, PyFloat.prec, PyFloat.emax.
  rewrite Z.min_r by lia.
  rewrite (shl_align_ge mw ew ew) by lia. cbn [fst cond_Zopp].
  rewrite shl_align_fst by lia. rewrite Z2Pos.id by lia.
  replace (d - 53 - ew) with n by reflexivity.
  assert (HS : 0 < a * 2 ^ n + Z.pos mw) by nia.
  assert (HdS : Zdigits2 (a * 2 ^ n + Z.pos mw) = d - ew).
  { apply Zdigits2_unique; [done|].
    assert (E1 : 2 ^ (d - ew) = 2 ^ 53 * 2 ^ n).
    { rewrite <- pow2_split by lia. f_equal. subst n. lia. }
    assert (E2 : 2 ^ (d - ew - 1) = 2 ^ 52 * 2 ^ n).
    { rewrite <- pow2_split by lia. f_equal. subst n. lia. }
    rewrite E1, E2. nia. }
  destruct (a * 2 ^ n + Z.pos mw) as [|sm|sm] eqn:ES; try lia.
  cbn [binary_normalize]. unfold binary_round.
  change (Z.pos (digits2_pos sm)) with (Zdigits2 (Z.pos sm)). rewrite HdS.
  rewrite shl_align_ge by (rewrite fexp_eq; lia).
  rewrite binary_round_aux_normal by (rewrite ?HdS; lia).
  cbv zeta. rewrite HdS. replace (d - ew - 53) with n by (subst n; lia).
  rewrite <- ES, rne_shift_add by (auto; lia).
  replace (a + rne_shift (Z.pos mw) n <? 2 ^ 53) with true by lia.
  replace (ew + n <=? 971) with true by (subst n; lia).
  f_equal. subst n. lia.
Qed.
End conversions.

(** ** The order of the seats of a row, and of two rows *)

Section seat_order.
Local Open Scope Z_scope.

Lemma forallb_Zrange (P : Z -> bool) lo len :
  forallb P (Zrange lo len) = true ->
  forall d, Z.of_nat lo <= d < Z.of_nat (lo + len) -> P d = true.
Proof.
  intros H d Hd. rewrite forallb_forall in H. apply H.
  unfold Zrange. apply in_map_iff. exists (Z.to_nat d). split; [lia|].
  apply in_seq. lia.
Qed.

Lemma weight_A : number_to_float (column_weights_get "A") = S754_finite false mA (-54).
Proof. vm_compute. reflexivity. Qed.

Lemma weight_B : number_to_float (column_weights_get "B") = S754_finite false mB (-55).
Proof. vm_compute. reflexivity. Qed.

Lemma weight_C : number_to_float (column_weights_get "C") = S754_finite false mB (-56).
Proof. vm_compute. reflexivity. Qed.

Lemma weight_D : number_to_float (column_weights_get "D") = S754_zero false.
Proof. vm_compute. reflexivity. Qed.

Lemma weight_ok_A d : 1 <= d <= 53 -> weight_ok (Z.pos mA) (-54) d = true.
Proof.
  intros Hd. apply (forallb_Zrange (weight_ok (Z.pos mA) (-54)) 1 53); [|lia].
  vm_compute. reflexivity.
Qed.

Lemma weight_ok_B d : 1 <= d <= 53 -> weight_ok (Z.pos mB) (-55) d = true.
Proof.
  intros Hd. apply (forallb_Zrange (weight_ok (Z.pos mB) (-55)) 1 53); [|lia].
  vm_compute. reflexivity.
Qed.

Lemma weight_ok_C d : 1 <= d <= 53 -> weight_ok (Z.pos mB) (-56) d = true.
Proof.
  intros Hd. apply (forallb_Zrange (weight_ok (Z.pos mB) (-56)) 1 53); [|lia].
  vm_compute. reflexivity.
Qed.

Lemma columns_apart_49 d : 1 <= d <= 49 -> columns_apart d = true.
Proof.
  intros Hd. apply (forallb_Zrange columns_apart 1 49); [|lia].
  vm_compute. reflexivity.
Qed.

Lemma Zdigits2_ge_1 r : 0 < r -> 1 <= Zdigits2 r.
Proof.
  intros Hr. pose proof (Zdigits2_bounds r Hr) as Hb.
  destruct (Z.le_gt_cases 1 (Zdigits2 r)); [done|].
  assert (2 ^ Zdigits2 r <= 2 ^ 0) by (apply Z.pow_le_mono_r; lia). lia.
Qed.

Lemma Zdigits2_le r k : 0 < r -> 0 <= k -> r < 2 ^ k -> Zdigits2 r <= k.
Proof.
  intros Hr Hk Hlt. pose proof (Zdigits2_bounds r Hr) as Hb.
  destruct (Z.le_gt_cases (Zdigits2 r) k); [done|].
  assert (2 ^ k <= 2 ^ (Zdigits2 r - 1)) by (apply Z.pow_le_mono_r; lia). lia.
Qed.

Lemma of_int_small r :
  0 < r < 2 ^ 53 -> PyFloat.of_int r = Ok (PyFloat.of_Z r).
Proof.
  intros Hr. unfold PyFloat.of_int. rewrite of_Z_small; [reflexivity|lia|].
  apply Zdigits2_le; lia.
Qed.

(** The distance of a seat of row [r], [0 < r < 2^53], whose weight is
    [mw * 2^ew]. *)
Lemma distance_of_row column r mw ew :
  0 < r < 2 ^ 53 -> ew <= -54 ->
  number_to_float (column_weights_get column) = S754_finite false mw ew ->
  weight_ok (Z.pos mw) ew (Zdigits2 r) = true ->
  distance_of column r
  = Ok (S754_finite false
          (Z.to_pos (r * 2 ^ (53 - Zdigits2 r)
                     + rne_shift (Z.pos mw) (Zdigits2 r - 53 - ew)))
          (Zdigits2 r - 53)).
Proof.
  intros Hr Hew Hw Hok. unfold distance_of. rewrite of_int_small by done.
  cbn [mbind result_bind mret result_ret]. rewrite Hw. f_equal.
  apply add_of_Z; auto; [lia|]. apply Zdigits2_le; lia.
Qed.

Lemma distance_of_row_D r :
  0 < r < 2 ^ 53 ->
  distance_of "D" r
  = Ok (S754_finite false (Z.to_pos (r * 2 ^ (53 - Zdigits2 r))) (Zdigits2 r - 53)).
Proof.
  intros Hr. unfold distance_of. rewrite of_int_small by done.
  cbn [mbind result_bind mret result_ret]. rewrite weight_D.
  rewrite of_Z_small; [reflexivity|lia|]. apply Zdigits2_le; lia.
Qed.

Lemma ltb_same_exponent m1 m2 e :
  (m1 < m2)%positive ->
  PyFloat.ltb (S754_finite false m1 e) (S754_finite false m2 e) = true.
Proof.
  intros H. unfold PyFloat.ltb, SFltb, SFcompare. rewrite Z.compare_refl.
  change (Pos.compare_cont Eq m1 m2) with (Pos.compare m1 m2).
  now rewrite (proj2 (Pos.compare_lt_iff m1 m2) H).
Qed.

Lemma ltb_lower_exponent m1 m2 e1 e2 :
  e1 < e2 ->
  PyFloat.ltb (S754_finite false m1 e1) (S754_finite false m2 e2) = true.
Proof.
  intros H. unfold PyFloat.ltb, SFltb, SFcompare.
  now rewrite (proj2 (Z.compare_lt_iff e1 e2) H).
Qed.

(** Within a row below [2^49] the columns are strictly ordered. *)
Lemma columns_ordered r :
  0 <= r < 2 ^ 49 ->
  exists a b c d,
    distance_of "A" r = Ok a /\ distance_of "B" r = Ok b
    /\ distance_of "C" r = Ok c /\ distance_of "D" r = Ok d
    /\ PyFloat.ltb b a = true /\ PyFloat.ltb c b = true /\ PyFloat.ltb d c = true.
Proof.
  intros Hr. destruct (Z.eq_dec r 0) as [->|Hr0].
  { do 4 eexists. repeat split; vm_compute; reflexivity. }
  assert (Hr' : 0 < r < 2 ^ 53) by lia.
  assert (Hd : 1 <= Zdigits2 r <= 49).
  { split; [apply Zdigits2_ge_1; lia|apply Zdigits2_le; lia]. }
  pose proof (columns_apart_49 _ Hd) as Hap.
  rewrite (distance_of_row "A" r mA (-54) Hr' ltac:(lia) weight_A) by (apply weight_ok_A; lia).
  rewrite (distance_of_row "B" r mB (-55) Hr' ltac:(lia) weight_B) by (apply weight_ok_B; lia).
  rewrite (distance_of_row "C" r mB (-56) Hr' ltac:(lia) weight_C) by (apply weight_ok_C; lia).
  rewrite (distance_of_row_D r Hr').
  do 4 eexists. split; [reflexivity|]. split; [reflexivity|].
  split; [reflexivity|]. split; [reflexivity|].
  unfold columns_apart in Hap.
  apply andb_true_iff in Hap as [Hap H3]. apply andb_true_iff in Hap as [H1 H2].
  apply Z.ltb_lt in H1, H2, H3.
  remember (Zdigits2 r) as d.
  replace (d - 53 - -54) with (d + 1) by lia.
  replace (d - 53 - -55) with (d + 2) by lia.
  replace (d - 53 - -56) with (d + 3) by lia.
  assert (Hp : 0 < 2 ^ (53 - d)) by (apply pow2_pos; lia).
  assert (0 < r * 2 ^ (53 - d)) by nia.
  repeat split; apply ltb_same_exponent; lia.
Qed.

(** A row below [2^53] is behind every seat of the row before it. *)
Lemma rows_ordered r :
  0 <= r < 2 ^ 53 ->
  exists a d,
    distance_of "A" r = Ok a /\ distance_of "D" (r + 1) = Ok d
    /\ PyFloat.ltb a d = true.
Proof.
  intros Hr. destruct (Z.eq_dec r 0) as [->|Hr0].
  { do 2 eexists. repeat split; vm_compute; reflexivity. }
  assert (Hr' : 0 < r < 2 ^ 53) by lia.
  assert (Hd : 1 <= Zdigits2 r <= 53).
  { split; [apply Zdigits2_ge_1; lia|apply Zdigits2_le; lia]. }
  pose proof (weight_ok_A _ Hd) as Hok.
  rewrite (distance_of_row "A" r mA (-54) Hr' ltac:(lia) weight_A) by done.
  unfold weight_ok in Hok. cbv zeta in Hok.
  apply andb_true_iff in Hok as [_ Hc]. apply Z.ltb_lt in Hc.
  pose proof (Zdigits2_bounds r ltac:(lia)) as Hb.
  remember (Zdigits2 r) as d.
  assert (Hp : 0 < 2 ^ (53 - d)) by (apply pow2_pos; lia).
  pose proof (rne_shift_bounds (Z.pos mA) (d - 53 - -54) ltac:(lia) ltac:(lia)) as Hrb.
  assert (0 <= Z.pos mA / 2 ^ (d - 53 - -54)).
  { apply Z.div_pos; [lia|]. apply pow2_pos. lia. }
  destruct (Z.eq_dec (r + 1) (2 ^ 53)) as [E53|N53].
  { rewrite E53. do 2 eexists. split; [reflexivity|].
    split; [vm_compute; reflexivity|].
    apply ltb_lower_exponent.
    assert (d = 53); [|lia].
    destruct (Z.eq_dec d 53); [done|]. exfalso.
    assert (2 ^ d <= 2 ^ 52) by (apply Z.pow_le_mono_r; lia). lia. }
  assert (Hr1 : 0 < r + 1 < 2 ^ 53) by lia.
  rewrite (distance_of_row_D (r + 1) Hr1).
  do 2 eexists. split; [reflexivity|]. split; [reflexivity|].
  destruct (Z.eq_dec (r + 1) (2 ^ d)) as [Ed|Nd].
  - assert (Zdigits2 (r + 1) = d + 1) as ->.
    { apply Zdigits2_unique; [lia|]. replace (d + 1 - 1) with d by lia.
      rewrite Z.pow_add_r by lia. lia. }
    apply ltb_lower_exponent. lia.
  - assert (Zdigits2 (r + 1) = d) as ->.
    { apply Zdigits2_unique; lia. }
    assert (0 < r * 2 ^ (53 - d)) by nia.
    apply ltb_same_exponent. nia.
Qed.

End seat_order.

(** ** Which integers convert to a double *)

Section overflow.
Local Open Scope Z_scope.

Lemma of_Z_big z :
  2 ^ 53 <= z ->
  let n := Zdigits2 z - 53 in
  let m1 := rne_shift z n in
  PyFloat.of_Z z
  = if m1 <? 2 ^ 53 then
      if n <=? 971 then S754_finite false (Z.to_pos m1) n else S754_infinity false
    else
      if n + 1 <=? 971 then S754_finite false (Z.to_pos (2 ^ 52)) (n + 1)
      else S754_infinity false.
Proof.
  intros Hz n m1.
  assert (Hd : 53 < Zdigits2 z).
  { pose proof (Zdigits2_bounds z ltac:(lia)) as Hb.
    destruct (Z.lt_ge_cases 53 (Zdigits2 z)); [done|].
    assert (2 ^ Zdigits2 z <= 2 ^ 53) by (apply Z.pow_le_mono_r; lia). lia. }
  destruct z as [|p|p]; try lia.
  unfold PyFloat.of_Z, binary_normalize, binary_round, PyFloat.prec, PyFloat.emax.
  change (Z.pos (digits2_pos p)) with (Zdigits2 (Z.pos p)).
  rewrite shl_align_ge by (rewrite fexp_eq; lia).
  rewrite binary_round_aux_normal by lia. reflexivity.
Qed.

Lemma of_int_ok_iff z :
  0 <= z -> is_ok (PyFloat.of_int z) = true <-> z < float_overflow.
Proof.
  intros Hz. unfold float_overflow.
  destruct (Z.eq_dec z 0) as [->|Hz0]; [split; [lia|reflexivity]|].
  destruct (Z.lt_ge_cases z (2 ^ 53)) as [Hsmall|Hbig].
  { rewrite of_int_small by lia. split; [|reflexivity]. intros _.
    assert (2 ^ 53 < 2 ^ 1024 - 2 ^ 970) by (vm_compute; reflexivity). lia. }
  unfold PyFloat.of_int. rewrite of_Z_big by done. cbv zeta.
  pose proof (Zdigits2_bounds z ltac:(lia)) as Hb.
  remember (Zdigits2 z) as d eqn:Ed.
  assert (Hd53 : 53 < d).
  { destruct (Z.lt_ge_cases 53 d); [done|].
    assert (2 ^ d <= 2 ^ 53) by (apply Z.pow_le_mono_r; lia). lia. }
  destruct (Z.lt_ge_cases d 1024) as [Hlow|Hhigh].
  { (* at most 1023 bits: finite whatever the rounding *)
    assert (z < 2 ^ 1024 - 2 ^ 970).
    { assert (2 ^ d <= 2 ^ 1023) by (apply Z.pow_le_mono_r; lia).
      assert (2 ^ 1023 < 2 ^ 1024 - 2 ^ 970) by (vm_compute; reflexivity). lia. }
    replace (d - 53 <=? 971) with true by lia.
    replace (d - 53 + 1 <=? 971) with true by lia.
    split; [done|]. intros _. now destruct (_ <? _). }
  destruct (Z.lt_ge_cases 1024 d) as [Hover|Heq].
  { (* more than 1024 bits: infinite whatever the rounding *)
    assert (2 ^ 1024 <= z).
    { assert (2 ^ 1024 <= 2 ^ (d - 1)) by (apply Z.pow_le_mono_r; lia). lia. }
    replace (d - 53 <=? 971) with false by lia.
    replace (d - 53 + 1 <=? 971) with false by lia.
    split; [now destruct (_ <? _)|]. intros H'.
    assert (0 < 2 ^ 970) by (vm_compute; reflexivity). lia. }
  assert (d = 1024) as -> by lia. clear Hhigh Heq Hd53.
  change (1024 - 53) with 971. change (971 <=? 971) with true.
  change (971 + 1 <=? 971) with false.
  unfold rne_shift. change (971 - 1) with 970.
  assert (E1 : 2 ^ 1024 = 2 ^ 53 * 2 ^ 971) by (vm_compute; reflexivity).
  assert (E2 : 2 ^ 971 = 2 * 2 ^ 970) by (vm_compute; reflexivity).
  assert (E3 : 2 ^ (1024 - 1) = 2 ^ 52 * 2 ^ 971) by (vm_compute; reflexivity).
  assert (Hp : 0 < 2 ^ 970) by (vm_compute; reflexivity).
  pose proof (Z.div_mod z (2 ^ 971) ltac:(lia)) as Hdm.
  pose proof (Z.mod_pos_bound z (2 ^ 971) ltac:(lia)) as Hmb.
  assert (Hq : 2 ^ 52 <= z / 2 ^ 971 < 2 ^ 53).
  { split; [apply Z.div_le_lower_bound|apply Z.div_lt_upper_bound]; lia. }
  set (q := z / 2 ^ 971) in *. set (rem := z mod 2 ^ 971) in *.
  set (P970 := 2 ^ 970) in *. set (P971 := 2 ^ 971) in *. set (P1024 := 2 ^ 1024) in *.
  change (2 ^ 53) with 9007199254740992 in *.
  change (2 ^ 52) with 4503599627370496 in *.
  destruct (Z.lt_ge_cases q 9007199254740991) as [Hq1|Hq1].
  { (* the quotient is not the last mantissa: no carry *)
    replace ((if (P970 <? rem) || (P970 =? rem) && Z.odd q then q + 1 else q)
             <? 9007199254740992) with true
      by (destruct (_ || _); lia).
    split; [|done]. intros _. nia. }
  assert (Eq : q = 9007199254740991) by lia.
  rewrite Eq. change (Z.odd 9007199254740991) with true. rewrite andb_true_r.
  destruct (Z.ltb_spec P970 rem) as [H1|H1]; cbn [orb].
  { change (9007199254740991 + 1 <? 9007199254740992) with false. cbn.
    split; [done|]. intros H'. nia. }
  destruct (Z.eqb_spec P970 rem) as [H2|H2].
  { change (9007199254740991 + 1 <? 9007199254740992) with false. cbn.
    split; [done|]. intros H'. nia. }
  change (9007199254740991 <? 9007199254740992) with true. cbn.
  split; [|done]. intros _. nia.
Qed.

End overflow.

(** ** The quotient of two ints *)

Section truediv.
Local Open Scope Z_scope.

Lemma new_location_0 nb : new_location nb 0 = loc_Exact.
Proof. unfold new_location. now destruct (Z.even nb). Qed.

(** [n / n] is [1.0]. *)
Lemma int_truediv_same n :
  0 < n -> PyFloat.int_truediv n n = Ok (PyFloat.of_Z 1).
Proof.
  intros Hn. destruct n as [|p|p]; try lia.
  unfold PyFloat.int_truediv, SFdiv_core_binary, PyFloat.prec, PyFloat.emax.
  change (Z.abs (Z.pos p)) with (Z.pos p).
  replace (Zdigits2 (Z.pos p) + 0 - (Zdigits2 (Z.pos p) + 0)) with 0 by lia.
  change (Z.min (fexp 53 1024 0) (0 - 0)) with (-53).
  change (0 - 0 - -53) with 53.
  assert (E : Z.div_eucl (Z.shiftl (Z.pos p) 53) (Z.pos p) = (2 ^ 53, 0)).
  { rewrite Z.shiftl_mul_pow2 by lia.
    pose proof (Z_div_mod (Z.pos p * 2 ^ 53) (Z.pos p) ltac:(lia)) as H.
    destruct (Z.div_eucl (Z.pos p * 2 ^ 53) (Z.pos p)) as [q r].
    destruct H as [H1 H2]. f_equal; nia. }
  cbv beta iota. rewrite E, new_location_0. vm_compute. reflexivity.
Qed.

Lemma round_nearest_even_le m l : round_nearest_even m l <= m + 1.
Proof. destruct l as [|[| |]]; cbn; try lia. destruct (Z.even m); lia. Qed.

Lemma Zdigits2_le_0 q k : 0 <= q -> 0 <= k -> q < 2 ^ k -> Zdigits2 q <= k.
Proof.
  intros Hq Hk Hlt. destruct (Z.eq_dec q 0) as [->|]; [cbn; lia|].
  apply Zdigits2_le; lia.
Qed.

(** A mantissa of at most [2^-e] does not round to an infinity. *)
Lemma binary_round_aux_le_1 s q e l :
  0 <= q -> e <= 0 -> q <= 2 ^ (- e) ->
  match binary_round_aux 53 1024 s q e l with
  | S754_infinity _ => False
  | _ => True
  end.
Proof.
  intros Hq He Hle. unfold binary_round_aux.
  pose proof (shr_fexp_snd q e l) as He1.
  pose proof (shr_fexp_fst_m q e l Hq) as Hm1.
  destruct (shr_fexp 53 1024 q e l) as [mrs' e1]. cbn [fst snd] in He1, Hm1.
  assert (Hdq : Zdigits2 q <= - e + 1).
  { apply Zdigits2_le_0; [done|lia|]. rewrite Z.pow_add_r by lia. lia. }
  rewrite fexp_eq in He1, Hm1.
  assert (He1' : e1 <= 0) by lia.
  assert (Hk : Z.max 0 (Z.max (Zdigits2 q + e - 53) (-1074) - e) = e1 - e) by lia.
  rewrite Hk in Hm1.
  assert (Hp : 0 < 2 ^ (e1 - e)) by (apply pow2_pos; lia).
  assert (Hsm : 0 <= shr_m mrs' <= 2 ^ (- e1)).
  { rewrite Hm1. split; [apply Z.div_pos; lia|].
    apply Z.div_le_upper_bound; [lia|].
    rewrite <- pow2_split by lia. now replace (e1 - e + - e1) with (- e) by lia. }
  set (m1 := round_nearest_even (shr_m mrs') (loc_of_shr_record mrs')).
  pose proof (round_nearest_even_le (shr_m mrs') (loc_of_shr_record mrs')) as Hr.
  pose proof (round_nearest_even_nonneg (shr_m mrs') (loc_of_shr_record mrs')
                ltac:(lia)) as Hr0.
  fold m1 in Hr, Hr0.
  pose proof (shr_fexp_snd m1 e1 loc_Exact) as He2.
  destruct (shr_fexp 53 1024 m1 e1 loc_Exact) as [mrs'' e2]. cbn [snd] in He2.
  assert (Hd1 : Zdigits2 m1 <= - e1 + 2).
  { apply Zdigits2_le_0; [done|lia|].
    assert (0 < 2 ^ (- e1)) by (apply pow2_pos; lia).
    replace (- e1 + 2) with (- e1 + 1 + 1) by lia.
    rewrite !Z.pow_add_r by lia. lia. }
  rewrite fexp_eq in He2.
  destruct (shr_m mrs'') as [|p|p]; [done| |done].
  replace (e2 <=? 1024 - 53) with true by lia. done.
Qed.

(** [a / b] returns when [0 <= a <= b] and [b] is not zero. *)
Lemma int_truediv_le a b :
  0 <= a <= b -> 0 < b -> exists f, PyFloat.int_truediv a b = Ok f.
Proof.
  intros Ha Hb. unfold PyFloat.int_truediv.
  destruct b as [|pb|pb]; try lia. destruct a as [|pa|pa]; try lia; [eauto|].
  change (Z.abs (Z.pos pa)) with (Z.pos pa). change (Z.abs (Z.pos pb)) with (Z.pos pb).
  unfold SFdiv_core_binary, PyFloat.prec, PyFloat.emax.
  set (d1 := Zdigits2 (Z.pos pa)). set (d2 := Zdigits2 (Z.pos pb)).
  assert (Hd : d1 <= d2).
  { pose proof (Zdigits2_bounds (Z.pos pb) ltac:(lia)) as Hb2. fold d2 in Hb2.
    pose proof (Zdigits2_ge_1 (Z.pos pb) ltac:(lia)). fold d2 in H.
    subst d1. apply Zdigits2_le; lia. }
  set (e' := Z.min (fexp 53 1024 (d1 + 0 - (d2 + 0))) (0 - 0)).
  assert (He' : -1074 <= e' <= -53) by (subst e'; rewrite fexp_eq; lia).
  destruct (0 - 0 - e') as [|ps|ps] eqn:Es; try lia.
  rewrite Z.shiftl_mul_pow2 by lia.
  pose proof (Z_div_mod (Z.pos pa * 2 ^ Z.pos ps) (Z.pos pb) ltac:(lia)) as H.
  destruct (Z.div_eucl (Z.pos pa * 2 ^ Z.pos ps) (Z.pos pb)) as [q r].
  destruct H as [H1 H2].
  assert (Hp : 0 < 2 ^ Z.pos ps) by (apply pow2_pos; lia).
  assert (Hq : 0 <= q <= 2 ^ (- e')).
  { replace (- e') with (Z.pos ps) by lia. split; nia. }
  pose proof (binary_round_aux_le_1 false q e' (new_location (Z.pos pb) r)
                ltac:(lia) ltac:(lia) ltac:(lia)) as Hfin.
  change (xorb (Z.pos pa <? 0) (Z.pos pb <? 0)) with false.
  destruct (binary_round_aux 53 1024 false q e' _); try done; eauto.
Qed.

End truediv.

(** ** The seat pattern *)

Lemma span_digits_all ds : all_digits ds = true -> span_digits ds = (ds, "").
Proof.
  induction ds as [|c ds IH]; cbn; [done|].
  intros H. apply andb_true_iff in H as [Hc Hds]. rewrite Hc, IH by done. reflexivity.
Qed.

Lemma span_digits_spec s ds tl :
  span_digits s = (ds, tl) -> all_digits ds = true /\ s = (ds ++ tl)%string.
Proof.
  revert ds tl. induction s as [|c s IH]; cbn; intros ds tl.
  - intros [= <- <-]. auto.
  - destruct (is_digit c) eqn:Ec.
    + destruct (span_digits s) as [ds' tl']. intros [= <- <-].
      destruct (IH ds' tl' eq_refl) as [H1 H2]. cbn. rewrite Ec, H1. split; [done|].
      now rewrite H2.
    + intros [= <- <-]. auto.
Qed.

(** A label of the pattern of the specification matches, and its groups are
    its first character and the rest. *)
Lemma seat_match_spec c ds :
  is_column c = true -> all_digits ds = true -> ds <> "" ->
  seat_match (String c ds) = Some (c, ds).
Proof.
  intros Hc Hds Hne. cbn. rewrite Hc, span_digits_all by done.
  destruct ds; [done|reflexivity].
Qed.

Lemma spec_seat_label_inv label :
  spec_seat_label label = true ->
  exists c ds, label = String c ds /\ is_column c = true
               /\ all_digits ds = true /\ ds <> "".
Proof.
  destruct label as [|c [|d ds]]; cbn; try done.
  intros H. apply andb_true_iff in H as [H Hds]. apply andb_true_iff in H as [Hc Hd].
  exists c, (String d ds). cbn. rewrite Hd, Hds. auto.
Qed.

(** What matches has a column and a non-empty string of digits. *)
Lemma seat_match_inv label c ds :
  seat_match label = Some (c, ds) ->
  is_column c = true /\ all_digits ds = true /\ ds <> "".
Proof.
  destruct label as [|c' rest]; cbn; [done|].
  destruct (is_column c') eqn:Ec; [|done].
  destruct (span_digits rest) as [ds' tl] eqn:Es.
  destruct (span_digits_spec _ _ _ Es) as [Hds _].
  destruct ds' as [|d ds']; [done|].
  destruct (at_dollar tl); [|done]. intros [= <- <-]. auto.
Qed.

Lemma digit_value_bounds c : is_digit c = true -> (0 <= digit_value c <= 9)%Z.
Proof.
  unfold is_digit, digit_value. intros H. apply andb_true_iff in H as [H1 H2].
  apply Nat.leb_le in H1, H2. lia.
Qed.

Lemma int_acc_nonneg ds : forall acc,
  all_digits ds = true -> (0 <= acc)%Z -> (0 <= int_acc acc ds)%Z.
Proof.
  induction ds as [|c ds IH]; cbn; intros acc H Hacc; [done|].
  apply andb_true_iff in H as [Hc Hds]. apply IH; [done|].
  pose proof (digit_value_bounds c Hc). lia.
Qed.

Lemma int_nonneg ds : all_digits ds = true -> (0 <= int_value ds)%Z.
Proof. intros. now apply int_acc_nonneg. Qed.

(** [int] within its limit of digits, and beyond. *)
Lemma int_short ds :
  (String.length ds <= int_max_str_digits)%nat -> int ds = Ok (int_value ds).
Proof. intros H. unfold int. apply Nat.leb_le in H. now rewrite H. Qed.

Lemma int_long ds :
  (int_max_str_digits < String.length ds)%nat ->
  int ds = Raise ValueError_int_max_str_digits.
Proof. intros H. unfold int. apply Nat.leb_gt in H. now rewrite H. Qed.

Lemma int_ok ds row :
  int ds = Ok row ->
  (String.length ds <= int_max_str_digits)%nat /\ row = int_value ds.
Proof.
  unfold int. destruct (String.length ds <=? int_max_str_digits)%nat eqn:E; [|done].
  apply Nat.leb_le in E. now intros [= <-].
Qed.

Lemma int_raise ds e :
  int ds = Raise e ->
  (int_max_str_digits < String.length ds)%nat /\ e = ValueError_int_max_str_digits.
Proof.
  unfold int. destruct (String.length ds <=? int_max_str_digits)%nat eqn:E; [done|].
  apply Nat.leb_gt in E. now intros [= <-].
Qed.

Lemma calculate_seat_match label c ds :
  seat_match label = Some (c, ds) ->
  _calculate_seat_distance label = (row ← int ds; distance_of c row).
Proof. unfold _calculate_seat_distance. now intros ->. Qed.

Lemma calculate_seat_match_short label c ds :
  seat_match label = Some (c, ds) ->
  (String.length ds <= int_max_str_digits)%nat ->
  _calculate_seat_distance label = distance_of c (int_value ds).
Proof.
  intros Hm Hlen. now rewrite (calculate_seat_match _ _ _ Hm), int_short.
Qed.

Lemma calculate_invalid label :
  seat_match label = None ->
  _calculate_seat_distance label = Raise (ValueError_invalid_seat label).
Proof. unfold _calculate_seat_distance. now intros ->. Qed.

(** [resolve] raises [InvalidSeatFormat] exactly when [re.match] finds no
    match. *)
Lemma calculate_invalid_iff label :
  (exists l, _calculate_seat_distance label = Raise (ValueError_invalid_seat l))
  <-> seat_match label = None.
Proof.
  split; [|intros H; rewrite calculate_invalid by done; eauto].
  intros [l H]. unfold _calculate_seat_distance in H.
  destruct (seat_match label) as [[c ds]|]; [|done]. exfalso.
  destruct (int ds) as [row|e] eqn:Ei; cbn in H;
    [|apply int_raise in Ei as [_ ->]; discriminate].
  unfold PyFloat.of_int in H.
  destruct (PyFloat.of_Z row); cbn in H; discriminate.
Qed.

Lemma is_column_cases c :
  is_column c = true -> c = "A"%char \/ c = "B"%char \/ c = "C"%char \/ c = "D"%char.
Proof.
  unfold is_column. intros H. apply andb_true_iff in H as [H1 H2].
  apply Nat.leb_le in H1, H2.
  rewrite <- (ascii_nat_embedding c).
  assert (nat_of_ascii c = 65 \/ nat_of_ascii c = 66
          \/ nat_of_ascii c = 67 \/ nat_of_ascii c = 68)%nat as [E|[E|[E|E]]] by lia;
    rewrite E; auto.
Qed.

Lemma column_weight_table c :
  is_column c = true -> number_to_float (column_weights_get c) = columnWeight c.
Proof.
  intros H. destruct (is_column_cases c H) as [->|[->|[->| ->]]]; vm_compute; reflexivity.
Qed.

(** A seat resolves when it matches, its row has no more digits than [int]
    takes, and is below the least integer that does not convert to a
    double. *)
Lemma seat_resolves_iff label :
  seat_resolves label <->
  exists c ds, seat_match label = Some (c, ds)
               /\ (String.length ds <= int_max_str_digits)%nat
               /\ (int_value ds < float_overflow)%Z.
Proof.
  unfold seat_resolves, _calculate_seat_distance. split.
  - destruct (seat_match label) as [[c ds]|] eqn:Em; [|done].
    destruct (seat_match_inv _ _ _ Em) as (_ & Hds & _).
    destruct (int ds) as [row|] eqn:Ei; [|done].
    apply int_ok in Ei as [Hlen ->]. cbn.
    intros H. exists c, ds. split; [done|]. split; [done|].
    apply of_int_ok_iff; [now apply int_nonneg|].
    destruct (PyFloat.of_int (int_value ds)); [done|discriminate].
  - intros (c & ds & Em & Hlen & Hlt). rewrite Em, int_short by done. cbn.
    destruct (seat_match_inv _ _ _ Em) as (_ & Hds & _).
    apply of_int_ok_iff in Hlt; [|now apply int_nonneg].
    destruct (PyFloat.of_int (int_value ds)); [done|discriminate].
Qed.

(** ** The entries do not depend on the memo table *)

Lemma push_bookings_pure_spec bookings : forall booking_data self,
  cache_consistent self ->
  fst (push_bookings bookings booking_data self)
  = push_bookings_pure bookings booking_data.
Proof.
  induction bookings as [|b bookings IH]; intros h self Hc; cbn; [done|].
  destruct (seat_distances_spec (Booking.seats b) self Hc) as [E C].
  destruct (seat_distances (Booking.seats b) self) as [[ds|e] self'] eqn:Es;
    cbn in E, C; rewrite <- E; cbn; [|done].
  destruct (push_booking b ds h) as [h'|e]; cbn; [|done].
  now apply IH.
Qed.

(** With a consistent table, [process_bookings_with_heap] returns the
    entries of [entries_of], or raises what it raises. *)
Lemma process_entries bookings self :
  cache_consistent self ->
  match fst (process_bookings_with_heap bookings self) with
  | Ok r => entries_of bookings = Ok (boardingSequence r)
  | Raise e => entries_of bookings = Raise e
  end.
Proof.
  intros Hc. unfold process_bookings_with_heap, entries_of.
  rewrite <- (push_bookings_pure_spec bookings [] self Hc).
  destruct (push_bookings bookings [] self) as [[h|e] self']; cbn; [|done].
  destruct (pop_bookings (length h) h 1 []); cbn; done.
Qed.

Lemma entries_of_process bookings self entries :
  cache_consistent self ->
  entries_of bookings = Ok entries ->
  exists r, fst (process_bookings_with_heap bookings self) = Ok r
            /\ boardingSequence r = entries.
Proof.
  intros Hc He. pose proof (process_entries bookings self Hc) as H.
  destruct (fst (process_bookings_with_heap bookings self)) as [r|e].
  - exists r. split; [done|]. congruence.
  - congruence.
Qed.

(** The totals are read off the input. *)
Lemma process_totals bookings self r :
  fst (process_bookings_with_heap bookings self) = Ok r ->
  totalBookings r = length bookings
  /\ totalPassengers r
     = list_sum (map (fun b => length (Booking.seats b)) bookings).
Proof.
  unfold process_bookings_with_heap.
  destruct (push_bookings bookings [] self) as [[h|e] self']; [|done].
  destruct (pop_bookings (length h) h 1 []); [|done].
  cbn. intros [= <-]. done.
Qed.

(** ** Consequences of the order of the entries *)

Lemma entry_le_leb a b :
  entry_le a b -> PyFloat.leb (Entry.maxDistance b) (Entry.maxDistance a) = true.
Proof.
  intros [H|[H _]].
  - apply ltb_true_iff in H as (Hb & Ha & Hlt). apply leb_true_iff. auto.
  - apply eqb_true_iff in H as (Ha & Hb & Heq). apply leb_true_iff.
    repeat split; auto. right. unfold float_eq in *. congruence.
Qed.

Lemma sequenced_descending bookings entries :
  sequenced bookings entries -> descending entries.
Proof.
  intros [_ _ Ho _] i a b Ha Hb. apply entry_le_leb. apply (Ho i (S i)); auto.
Qed.

Lemma sequenced_ids bookings entries :
  sequenced bookings entries ->
  map Entry.bookingId entries ≡ₚ map Booking.bookingId bookings.
Proof.
  intros [Hp _ _ _]. rewrite <- Hp, map_map. done.
Qed.

Lemma sequenced_length bookings entries :
  sequenced bookings entries -> length entries = length bookings.
Proof.
  intros [Hp _ _ _]. rewrite <- Hp, length_map. done.
Qed.

Lemma string_leb_of_ltb a b :
  String.ltb a b = true \/ a = b -> String.leb a b = true.
Proof.
  unfold String.ltb, String.leb. intros [H| ->].
  - destruct (String.compare a b); done.
  - now rewrite string_compare_refl.
Qed.

(** Bookings with distinct ids have no conflicting ties. *)
Lemma distinct_ids_same_booking bookings b1 b2 :
  NoDup (map Booking.bookingId bookings) ->
  b1 ∈ bookings -> b2 ∈ bookings ->
  Booking.bookingId b1 = Booking.bookingId b2 -> b1 = b2.
Proof.
  induction bookings as [|b bookings IH]; cbn; intros Hnd H1 H2 Hid.
  - now apply elem_of_nil in H1.
  - apply NoDup_cons in Hnd as [Hnotin Hnd].
    apply elem_of_cons in H1 as [->|H1]; apply elem_of_cons in H2 as [->|H2].
    + done.
    + exfalso. apply Hnotin. rewrite Hid. now apply list_elem_of_fmap_2.
    + exfalso. apply Hnotin. rewrite <- Hid. now apply list_elem_of_fmap_2.
    + now apply IH.
Qed.

Lemma distinct_ids_no_conflicting_ties bookings :
  NoDup (map Booking.bookingId bookings) -> no_conflicting_ties bookings.
Proof.
  intros Hnd b1 b2 info1 info2 H1 H2 _ _ Hid _.
  now rewrite (distinct_ids_same_booking bookings b1 b2 Hnd H1 H2 Hid).
Qed.

(** ** The analyzer on a list that is not empty *)

Lemma analyze_nonempty sequence :
  sequence <> [] ->
  exists correct ratio,
    count_correct 0 sequence
      (sorted (fun x => PyFloat.neg (Entry.maxDistance x)) sequence) = Ok correct
    /\ (correct <= length sequence)%nat
    /\ PyFloat.int_truediv (Z.of_nat correct) (Z.of_nat (length sequence)) = Ok ratio
    /\ analyze_boarding_efficiency sequence
       = Ok {| averageDistance :=
                 PyFloat (arithmetic_mean (map Entry.maxDistance sequence));
               blockingPotential := inversion_sum (map Entry.maxDistance sequence);
               optimalityScore := PyFloat (PyFloat.mul ratio (PyFloat.of_Z 100)) |}.
Proof.
  intros Hne.
  destruct (count_correct_ok sequence 0
              (sorted (fun x => PyFloat.neg (Entry.maxDistance x)) sequence))
    as (c & Hc & Hle).
  { rewrite sorted_length. lia. }
  destruct (int_truediv_le (Z.of_nat c) (Z.of_nat (length sequence)))
    as (ratio & Hratio).
  { lia. }
  { destruct sequence; [done|cbn; lia]. }
  exists c, ratio. repeat split; auto.
  unfold analyze_boarding_efficiency.
  destruct sequence as [|x sequence']; [done|].
  set (sequence := x :: sequence') in *.
  rewrite blocking_loops_inversion_sum. cbn [mbind result_bind].
  rewrite Hc. cbn [mbind result_bind]. rewrite Hratio. cbn [mbind result_bind].
  reflexivity.
Qed.

(** [1.0 * 100] is [100.0]. *)
Lemma full_score : PyFloat.mul (PyFloat.of_Z 1) (PyFloat.of_Z 100) = PyFloat.of_Z 100.
Proof. vm_compute. reflexivity. Qed.

(** A descending list that is not empty is rated perfect. *)
Lemma analyze_descending sequence :
  sequence <> [] -> descending sequence ->
  analyze_boarding_efficiency sequence
  = Ok {| averageDistance :=
            PyFloat (arithmetic_mean (map Entry.maxDistance sequence));
          blockingPotential := PyInt 0;
          optimalityScore := PyFloat (PyFloat.of_Z 100) |}.
Proof.
  intros Hne Hd.
  destruct (analyze_nonempty sequence Hne) as (c & ratio & Hc & _ & Hratio & ->).
  rewrite (descending_sorted _ Hd) in Hc.
  pose proof (count_correct_same sequence []) as Hsame. cbn in Hsame.
  rewrite Hsame in Hc. injection Hc as <-.
  rewrite int_truediv_same in Hratio.
  2:{ destruct sequence; [done|cbn; lia]. }
  injection Hratio as <-.
  rewrite (descending_inversion_sum _ Hd).
  change (binary_round PyFloat.prec PyFloat.emax false 1 0) with (PyFloat.of_Z 1).
  now rewrite full_score.
Qed.

(** ** A booking without seats *)

Lemma push_bookings_empty_seats bookings b : forall booking_data self,
  b ∈ bookings -> Booking.seats b = [] ->
  exists e, fst (push_bookings bookings booking_data self) = Raise e.
Proof.
  induction bookings as [|b0 bookings IH]; intros h self Hin Hs.
  - now apply elem_of_nil in Hin.
  - cbn. apply elem_of_cons in Hin as [<-|Hin].
    + rewrite Hs. cbn. eauto.
    + destruct (seat_distances (Booking.seats b0) self) as [[ds|e] self'];
        [|cbn; eauto].
      destruct (push_booking b0 ds h) as [h'|e]; [|cbn; eauto].
      now apply IH.
Qed.

Lemma process_empty_seats bookings b self :
  b ∈ bookings -> Booking.seats b = [] ->
  exists e, fst (process_bookings_with_heap bookings self) = Raise e.
Proof.
  intros Hin Hs.
  destruct (push_bookings_empty_seats bookings b [] self Hin Hs) as [e He].
  unfold process_bookings_with_heap.
  destruct (push_bookings bookings [] self) as [[h|e'] self']; cbn in *; eauto.
  discriminate.
Qed.

Lemma py_max_min_defined ds :
  ds <> [] -> exists mx mn, py_max ds = Ok mx /\ py_min ds = Ok mn.
Proof. destruct ds; [done|]. cbn. eauto. Qed.

(** ** A seat that does not resolve *)

Lemma resolve_all_raise seats seat e :
  seat ∈ seats -> _calculate_seat_distance seat = Raise e ->
  exists e', resolve_all seats = Raise e'.
Proof.
  induction seats as [|s seats IH]; intros Hin He.
  - now apply elem_of_nil in Hin.
  - cbn. apply elem_of_cons in Hin as [<-|Hin].
    + rewrite He. cbn. eauto.
    + destruct (_calculate_seat_distance s); cbn; [|eauto].
      destruct (IH Hin He) as [e' ->]. cbn. eauto.
Qed.

(** With a consistent table, one seat that does not resolve fails the batch. *)
Lemma process_seat_raise bookings self b seat e :
  cache_consistent self ->
  b ∈ bookings -> seat ∈ Booking.seats b ->
  _calculate_seat_distance seat = Raise e ->
  exists e', fst (process_bookings_with_heap bookings self) = Raise e'.
Proof.
  intros Hc Hb Hs He.
  destruct (process_bookings_spec item_key_ok (fun a H => H) bookings self Hc)
    as [_ Hspec].
  { intros b' info _. apply info_of_key_ok. }
  destruct (fst (process_bookings_with_heap bookings self)) as [r|e']; [|eauto].
  exfalso. destruct Hspec as (infos & _ & Hinfos & _).
  apply list_elem_of_lookup_1 in Hb as [i Hi].
  destruct (Forall2_lookup_l _ _ _ _ _ Hinfos Hi) as (info & _ & Hinfo).
  unfold info_of in Hinfo.
  destruct (resolve_all_raise _ _ _ Hs He) as [e' He']. rewrite He' in Hinfo.
  discriminate.
Qed.

(** ** The memo table, call by call *)

Lemma get_seat_distance_hit seat_label self d :
  seat_cache self !! seat_label = Some d ->
  get_seat_distance seat_label self
  = (Ok d, {| seat_cache := seat_cache self;
              cache_hits := cache_hits self + 1;
              cache_misses := cache_misses self |}).
Proof. intros H. unfold get_seat_distance. now rewrite H. Qed.

Lemma get_seat_distance_miss seat_label self d :
  seat_cache self !! seat_label = None ->
  _calculate_seat_distance seat_label = Ok d ->
  get_seat_distance seat_label self
  = (Ok d, {| seat_cache := <[seat_label := d]> (seat_cache self);
              cache_hits := cache_hits self;
              cache_misses := cache_misses self + 1 |}).
Proof. intros H E. unfold get_seat_distance. now rewrite H, E. Qed.

(** After a resolve that returns, the label is in the table. *)
Lemma get_seat_distance_cached seat_label self d :
  fst (get_seat_distance seat_label self) = Ok d ->
  seat_cache (snd (get_seat_distance seat_label self)) !! seat_label = Some d.
Proof.
  unfold get_seat_distance.
  destruct (seat_cache self !! seat_label) as [d'|] eqn:E; cbn.
  - now intros [= <-].
  - destruct (_calculate_seat_distance seat_label); cbn; [|done].
    intros [= <-]. apply lookup_insert_eq.
Qed.

(** Resolves of a label that is in the table are hits. *)
Lemma resolve_times_cached n seat_label d : forall self,
  seat_cache self !! seat_label = Some d ->
  resolve_times n seat_label self
  = (replicate n (Ok d),
     {| seat_cache := seat_cache self;
        cache_hits := cache_hits self + n;
        cache_misses := cache_misses self |}).
Proof.
  induction n as [|n IH]; intros self H; cbn.
  - destruct self; cbn. now rewrite Nat.add_0_r.
  - rewrite (get_seat_distance_hit _ _ _ H), IH by done. cbn.
    do 2 f_equal. lia.
Qed.

(** A resolve that raises leaves the table as it is. *)
Lemma get_seat_distance_raise seat_label self e :
  fst (get_seat_distance seat_label self) = Raise e ->
  seat_cache (snd (get_seat_distance seat_label self)) = seat_cache self
  /\ seat_cache self !! seat_label = None.
Proof.
  unfold get_seat_distance.
  destruct (seat_cache self !! seat_label) as [d'|] eqn:E; cbn; [done|].
  destruct (_calculate_seat_distance seat_label); cbn; done.
Qed.

(** Whatever the table holds, a label resolves to one and the same result
    each time. *)
Lemma resolve_times_same n seat_label : forall self,
  fst (resolve_times n seat_label self)
  = replicate n (fst (get_seat_distance seat_label self)).
Proof.
  induction n as [|n IH]; intros self; cbn; [done|].
  destruct (get_seat_distance seat_label self) as [r self1] eqn:E1.
  specialize (IH self1).
  destruct (resolve_times n seat_label self1) as [rs self2]. cbn in *.
  f_equal. rewrite IH. f_equal.
  destruct r as [d|e].
  - pose proof (get_seat_distance_cached seat_label self d) as Hc.
    rewrite E1 in Hc. cbn in Hc. now rewrite (get_seat_distance_hit _ _ _ (Hc eq_refl)).
  - destruct (get_seat_distance_raise seat_label self e) as [Hsame Hnone].
    { now rewrite E1. }
    rewrite E1 in Hsame. cbn in Hsame.
    revert E1. unfold get_seat_distance. rewrite Hsame, Hnone.
    destruct (_calculate_seat_distance seat_label); cbn; [discriminate|].
    now intros [= -> _].
Qed.

(** ** The pattern of the code and the pattern of the specification *)

Lemma spec_seat_label_intro c ds :
  is_column c = true -> all_digits ds = true -> ds <> "" ->
  spec_seat_label (String c ds) = true.
Proof.
  intros Hc Hds Hne. destruct ds as [|d ds]; [done|].
  cbn in *. rewrite Hc. apply andb_true_iff in Hds as [-> ->]. done.
Qed.

Lemma span_digits_app ds c tl :
  all_digits ds = true -> is_digit c = false ->
  span_digits (ds ++ String c tl) = (ds, String c tl).
Proof.
  intros Hds Hc. induction ds as [|d ds IH]; simpl.
  - now rewrite Hc.
  - simpl in Hds. apply andb_true_iff in Hds as [Hd Hds].
    now rewrite Hd, (IH Hds).
Qed.

Lemma string_app_nil_r (s : string) : (s ++ "")%string = s.
Proof. induction s as [|c s IH]; [done|]. change (String c (s ++ "") = String c s). f_equal. exact IH. Qed.

(** The code accepts the labels of the specification, and each of them
    followed by one line feed; it accepts nothing else. *)
Lemma seat_match_iff label :
  is_Some (seat_match label) <->
  spec_seat_label label = true
  \/ exists label', label = (label' ++ newline)%string
                    /\ spec_seat_label label' = true.
Proof.
  split.
  - intros [[c ds] Hm].
    destruct (seat_match_inv _ _ _ Hm) as (Hc & Hds & Hne).
    unfold seat_match in Hm. destruct label as [|c' rest]; [done|].
    destruct (is_column c'); [|done].
    destruct (span_digits rest) as [ds' tl] eqn:Es.
    destruct (span_digits_spec _ _ _ Es) as [_ ->].
    destruct ds' as [|d ds']; [done|].
    destruct (at_dollar tl) eqn:Ed; [|done]. injection Hm as -> ->.
    destruct tl as [|ch [|ch' tl]]; cbn in Ed; [| |done].
    + left. rewrite string_app_nil_r. now apply spec_seat_label_intro.
    + right. exists (String c ds). split; [|now apply spec_seat_label_intro].
      apply Nat.eqb_eq in Ed. unfold newline. rewrite <- Ed, ascii_nat_embedding.
      reflexivity.
  - intros [H|(label' & -> & H)];
      apply spec_seat_label_inv in H as (c & ds & -> & Hc & Hds & Hne).
    + rewrite seat_match_spec; eauto.
    + change (String c ds ++ newline)%string with (String c (ds ++ newline)).
      unfold seat_match, newline. rewrite Hc.
      rewrite span_digits_app by done.
      destruct ds; [done|]. cbn. eauto.
Qed.

Lemma of_int_ok z : is_ok (PyFloat.of_int z) = true -> PyFloat.of_int z = Ok (PyFloat.of_Z z).
Proof. unfold PyFloat.of_int. destruct (PyFloat.of_Z z); done. Qed.

(** [row + columnWeight(column)] for a label of the specification whose row
    [int] takes and converts to a double. *)
Lemma calculate_spec_label c ds :
  is_column c = true -> all_digits ds = true -> ds <> "" ->
  (String.length ds <= int_max_str_digits)%nat ->
  (int_value ds < float_overflow)%Z ->
  _calculate_seat_distance (String c ds)
  = Ok (PyFloat.add (PyFloat.of_Z (int_value ds)) (columnWeight c)).
Proof.
  intros Hc Hds Hne Hlen Hlt.
  rewrite (calculate_seat_match_short _ c ds); [|now apply seat_match_spec|done].
  unfold distance_of. rewrite of_int_ok.
  - cbn. now rewrite column_weight_table.
  - apply of_int_ok_iff; [now apply int_nonneg|done].
Qed.

(* ===================================================================== *)
(** * Part III: the claims of the specification *)
(* ===================================================================== *)

(* [Forall P [x1; ...; xn]] from [P xi] by [tac]. *)
Ltac Forall_by tac :=
  repeat first [ apply List.Forall_nil | apply List.Forall_cons; [tac|] ].

(* Every booking of a concrete batch has a seat, and its seats resolve. *)
Ltac batch_eligible :=
  Forall_by ltac:(split; [discriminate|Forall_by ltac:(vm_compute; reflexivity)]).

(* The ids of a concrete batch are distinct. *)
Ltac batch_distinct_ids :=
  apply distinct_ids_no_conflicting_ties;
  apply (bool_decide_unpack _); vm_compute; reflexivity.

(** ** The sequencer *)

(** C1, as worded, fails on three batches of eligible bookings, each seat a
    label of the pattern.  A booking whose row has 309 digits: [float(row)]
    raises [OverflowError].  A booking whose row has 4301 digits, be they
    zeros: [int] raises [ValueError].  Two bookings under one id with the
    same farthest seat and different seats: the comparison of the heap
    items reaches the dicts and raises [TypeError].  In all three
    [sequence] returns no entry at all. *)
Lemma C1_counterexample :
  Forall spec_eligible far_batch
  /\ fst (process_bookings_with_heap far_batch __init__) = Raise OverflowError
  /\ Forall spec_eligible long_batch
  /\ fst (process_bookings_with_heap long_batch __init__)
     = Raise ValueError_int_max_str_digits
  /\ Forall spec_eligible shared_id_batch
  /\ fst (process_bookings_with_heap shared_id_batch __init__)
     = Raise TypeError_dict_lt.
Proof.
  split; [batch_eligible|]. split; [vm_compute; reflexivity|].
  split; [batch_eligible|]. split; [vm_compute; reflexivity|].
  split; [batch_eligible|]. vm_compute; reflexivity.
Qed.

(** C1, amended: on a batch of bookings that each have a seat, whose seats
    all resolve (the label matches, the row is written with at most 4300
    digits and is below [2^1024 - 2^970], see [seat_resolves_iff]), and in
    which no two bookings share id and farthest distance with
    different seats, [process_bookings_with_heap] returns; the entries are
    the bookings, one entry each; [maxDistance] is the maximum and
    [minDistance] the minimum of the distances of the seats; adjacent
    entries are in non-ascending order of [maxDistance]; the sequence
    numbers are [1..n]; the ids of the entries are the ids of the bookings,
    as multisets. *)
Theorem C1_sequence (bookings : list Booking.t) (self : processor) :
  cache_consistent self ->
  Forall eligible bookings ->
  no_conflicting_ties bookings ->
  exists r,
    fst (process_bookings_with_heap bookings self) = Ok r
    /\ length (boardingSequence r) = length bookings
    /\ map booking_of_entry (boardingSequence r) ≡ₚ bookings
    /\ Forall (fun entry => exists ds,
                 resolve_all (Entry.seats entry) = Ok ds
                 /\ is_maximum (Entry.maxDistance entry) ds
                 /\ is_minimum (Entry.minDistance entry) ds) (boardingSequence r)
    /\ (forall i a b,
          boardingSequence r !! i = Some a -> boardingSequence r !! S i = Some b ->
          PyFloat.leb (Entry.maxDistance b) (Entry.maxDistance a) = true)
    /\ map Entry.sequence (boardingSequence r) = seq 1 (length bookings)
    /\ map Entry.bookingId (boardingSequence r) ≡ₚ map Booking.bookingId bookings.
Proof.
  intros Hc Hel Hties.
  destruct (process_bookings_total bookings self Hc Hel Hties) as [r Hr].
  destruct (process_bookings_sequenced bookings self r Hc Hr) as (Hs & _ & _).
  exists r. split; [exact Hr|].
  split; [exact (sequenced_length _ _ Hs)|].
  split; [exact (seq_bookings _ _ Hs)|].
  split; [exact (seq_distances _ _ Hs)|].
  split; [exact (sequenced_descending _ _ Hs)|].
  split; [exact (seq_numbers _ _ Hs)|].
  exact (sequenced_ids _ _ Hs).
Qed.

(** C1 on the batch of the specification, from a new processor. *)
Lemma C1_sequence_witness :
  cache_consistent __init__
  /\ Forall eligible scenario
  /\ no_conflicting_ties scenario
  /\ exists r,
       fst (process_bookings_with_heap scenario __init__) = Ok r
       /\ length (boardingSequence r) = length scenario
       /\ map booking_of_entry (boardingSequence r) ≡ₚ scenario
       /\ Forall (fun entry => exists ds,
                    resolve_all (Entry.seats entry) = Ok ds
                    /\ is_maximum (Entry.maxDistance entry) ds
                    /\ is_minimum (Entry.minDistance entry) ds) (boardingSequence r)
       /\ (forall i a b,
             boardingSequence r !! i = Some a -> boardingSequence r !! S i = Some b ->
             PyFloat.leb (Entry.maxDistance b) (Entry.maxDistance a) = true)
       /\ map Entry.sequence (boardingSequence r) = seq 1 (length scenario)
       /\ map Entry.bookingId (boardingSequence r) ≡ₚ map Booking.bookingId scenario.
Proof.
  assert (Hc : cache_consistent __init__) by exact init_consistent.
  assert (Hel : Forall eligible scenario) by batch_eligible.
  assert (Hties : no_conflicting_ties scenario) by batch_distinct_ids.
  split; [exact Hc|]. split; [exact Hel|]. split; [exact Hties|].
  exact (C1_sequence scenario __init__ Hc Hel Hties).
Defined.

(** C2, as worded, fails: of the bookings ["2"] and ["1"], both with the
    one seat [A1] and given in this order, ["1"] is emitted first. *)
Lemma C2_counterexample :
  exists r,
    fst (process_bookings_with_heap tie_batch __init__) = Ok r
    /\ map Entry.bookingId (boardingSequence r) = ["1"; "2"]
    /\ ~ arrival_order_on_ties tie_batch (boardingSequence r).
Proof.
  eexists. split; [vm_compute; reflexivity|]. split; [reflexivity|].
  intros H.
  destruct (H 0%nat 1%nat _ _ ltac:(lia) eq_refl eq_refl ltac:(vm_compute; reflexivity))
    as (i' & j' & Hlt & Hi & Hj).
  destruct i' as [|[|i']]; destruct j' as [|[|j']]; cbn in Hi, Hj;
    try discriminate; lia.
Qed.

(** C2, amended: of two entries with equal [maxDistance], the one emitted
    first has the lesser [bookingId], as the strings compare, or the same. *)
Theorem C2_ties_by_bookingId (bookings : list Booking.t) (self : processor)
    (r : sequencing_result) (i j : nat) (a b : Entry.t) :
  cache_consistent self ->
  fst (process_bookings_with_heap bookings self) = Ok r ->
  (i < j)%nat ->
  boardingSequence r !! i = Some a ->
  boardingSequence r !! j = Some b ->
  PyFloat.eqb (Entry.maxDistance a) (Entry.maxDistance b) = true ->
  String.leb (Entry.bookingId a) (Entry.bookingId b) = true.
Proof.
  intros Hc Hr Hij Ha Hb Heq.
  destruct (process_bookings_sequenced bookings self r Hc Hr) as (Hs & _ & _).
  destruct (seq_order _ _ Hs i j a b Hij Ha Hb) as [Hlt|[_ Hid]].
  - exfalso. apply ltb_true_iff in Hlt as (_ & _ & Hlt).
    apply eqb_true_iff in Heq as (_ & _ & Heq).
    exact (float_lt_irrefl _ _ Hlt (float_eq_sym _ _ Heq)).
  - now apply string_leb_of_ltb.
Qed.

(** C2 on the two bookings ["2"] and ["1"] with the seat [A1]. *)
Lemma C2_ties_by_bookingId_witness :
  exists r a b,
    cache_consistent __init__
    /\ fst (process_bookings_with_heap tie_batch __init__) = Ok r
    /\ boardingSequence r !! 0%nat = Some a
    /\ boardingSequence r !! 1%nat = Some b
    /\ PyFloat.eqb (Entry.maxDistance a) (Entry.maxDistance b) = true
    /\ Entry.bookingId a = "1" /\ Entry.bookingId b = "2"
    /\ String.leb (Entry.bookingId a) (Entry.bookingId b) = true.
Proof.
  do 3 eexists.
  split; [exact init_consistent|].
  split; [vm_compute; reflexivity|].
  split; [reflexivity|]. split; [reflexivity|].
  split; [vm_compute; reflexivity|].
  split; [reflexivity|]. split; [reflexivity|].
  eapply (C2_ties_by_bookingId tie_batch __init__ _ 0 1);
    [exact init_consistent|vm_compute; reflexivity|lia|reflexivity|reflexivity
    |vm_compute; reflexivity].
Defined.

(** ** The distance of a seat *)

(** C3, as worded, fails three times.  In the batch of the specification
    the farthest seat of booking ["120"] is [A20], at [20.3], not [20.0].
    A label of the pattern whose row has 309 digits does not resolve to
    [row + columnWeight(column)]: [float(row)] raises [OverflowError].  Nor
    does a label whose row is a seven after 4300 zeros: [int] raises
    [ValueError]. *)
Lemma C3_counterexample :
  (exists r entry,
     fst (process_bookings_with_heap scenario __init__) = Ok r
     /\ boardingSequence r !! 0%nat = Some entry
     /\ Entry.bookingId entry = "120"
     /\ Entry.maxDistance entry = PyFloat.literal 203 10
     /\ PyFloat.eqb (Entry.maxDistance entry) (PyFloat.literal 200 10) = false)
  /\ spec_seat_label far_label = true
  /\ _calculate_seat_distance far_label = Raise OverflowError
  /\ spec_seat_label long_label = true
  /\ _calculate_seat_distance long_label = Raise ValueError_int_max_str_digits.
Proof.
  split; [|repeat split; vm_compute; reflexivity].
  eexists. eexists. split; [vm_compute; reflexivity|].
  split; [reflexivity|]. repeat split; vm_compute; reflexivity.
Qed.

(** C3, amended: a label made of a column [A-D] and of at most 4300 digits,
    those of a row below [2^1024 - 2^970], resolves to
    [float(row) + columnWeight(column)],
    the weights being [0.3], [0.2], [0.1], [0.0]; [A10] resolves to [10.3],
    [D20] to [20.0], [B10] to [10.2], [C5] to [5.1]; the batch of the
    specification yields the ids [120, 150, 101] in this order, numbered
    [1, 2, 3], with the max distances [20.3], [15.1], [1.3], and
    [totalPassengers == 6]. *)
Theorem C3_resolve :
  (forall c ds,
     is_column c = true -> all_digits ds = true -> ds <> "" ->
     (String.length ds <= int_max_str_digits)%nat ->
     (int_value ds < float_overflow)%Z ->
     _calculate_seat_distance (String c ds)
     = Ok (PyFloat.add (PyFloat.of_Z (int_value ds)) (columnWeight c)))
  /\ (columnWeight "A" = PyFloat.literal 3 10
      /\ columnWeight "B" = PyFloat.literal 2 10
      /\ columnWeight "C" = PyFloat.literal 1 10
      /\ columnWeight "D" = PyFloat.literal 0 10)
  /\ (_calculate_seat_distance "A10" = Ok (PyFloat.literal 103 10)
      /\ _calculate_seat_distance "D20" = Ok (PyFloat.literal 200 10)
      /\ _calculate_seat_distance "B10" = Ok (PyFloat.literal 102 10)
      /\ _calculate_seat_distance "C5" = Ok (PyFloat.literal 51 10))
  /\ (forall self, cache_consistent self ->
        exists r,
          fst (process_bookings_with_heap scenario self) = Ok r
          /\ map (fun entry => (Entry.sequence entry, Entry.bookingId entry,
                                Entry.maxDistance entry)) (boardingSequence r)
             = [ (1%nat, "120", PyFloat.literal 203 10);
                 (2%nat, "150", PyFloat.literal 151 10);
                 (3%nat, "101", PyFloat.literal 13 10) ]
          /\ totalPassengers r = 6%nat).
Proof.
  split; [exact calculate_spec_label|].
  split; [repeat split|].
  split; [repeat split; vm_compute; reflexivity|].
  intros self Hc.
  destruct (entries_of_process scenario self _ Hc ltac:(vm_compute; reflexivity))
    as (r & Hr & Hentries).
  exists r. split; [exact Hr|]. split.
  - rewrite Hentries. vm_compute. reflexivity.
  - now destruct (process_totals _ _ _ Hr) as [_ ->].
Qed.

(** C3 on the label [A10], and on the batch from a new processor. *)
Lemma C3_resolve_witness :
  (is_column "A" = true /\ all_digits "10" = true /\ "10" <> ""
   /\ (String.length "10" <= int_max_str_digits)%nat
   /\ (int_value "10" < float_overflow)%Z
   /\ _calculate_seat_distance "A10"
      = Ok (PyFloat.add (PyFloat.of_Z (int_value "10")) (columnWeight "A")))
  /\ (cache_consistent __init__
      /\ exists r,
           fst (process_bookings_with_heap scenario __init__) = Ok r
           /\ map (fun entry => (Entry.sequence entry, Entry.bookingId entry,
                                 Entry.maxDistance entry)) (boardingSequence r)
              = [ (1%nat, "120", PyFloat.literal 203 10);
                  (2%nat, "150", PyFloat.literal 151 10);
                  (3%nat, "101", PyFloat.literal 13 10) ]
           /\ totalPassengers r = 6%nat).
Proof.
  assert (H1 : is_column "A" = true) by reflexivity.
  assert (H2 : all_digits "10" = true) by reflexivity.
  assert (H3 : "10" <> "") by discriminate.
  assert (H4 : (int_value "10" < float_overflow)%Z) by (vm_compute; reflexivity).
  assert (H5 : (String.length "10" <= int_max_str_digits)%nat)
    by (apply Nat.leb_le; reflexivity).
  split.
  - split; [exact H1|]. split; [exact H2|]. split; [exact H3|]. split; [exact H5|].
    split; [exact H4|].
    exact (proj1 C3_resolve "A"%char "10" H1 H2 H3 H5 H4).
  - split; [exact init_consistent|].
    exact (proj2 (proj2 (proj2 C3_resolve)) __init__ init_consistent).
Defined.

(** C4: the code accepts a label of the pattern followed by one line feed,
    which the specification rejects: [re.match] with [$] also matches just
    before a final newline.  [InvalidSeatFormat] is raised exactly for the
    labels that are neither of the pattern nor of the pattern followed by
    one line feed; it carries the label; ["Z99"], ["A"] and ["123"] raise
    it; with a consistent table one such seat in a batch makes
    [process_bookings_with_heap] raise, with no result. *)
Theorem C4_invalid_seat_format :
  (spec_seat_label A1_newline = false
   /\ _calculate_seat_distance A1_newline = Ok (PyFloat.literal 13 10))
  /\ (forall label,
        (exists l, _calculate_seat_distance label = Raise (ValueError_invalid_seat l))
        <-> ~ (spec_seat_label label = true
               \/ exists label', label = (label' ++ newline)%string
                                 /\ spec_seat_label label' = true))
  /\ (forall label l,
        _calculate_seat_distance label = Raise (ValueError_invalid_seat l) ->
        l = label)
  /\ (_calculate_seat_distance "Z99" = Raise (ValueError_invalid_seat "Z99")
      /\ _calculate_seat_distance "A" = Raise (ValueError_invalid_seat "A")
      /\ _calculate_seat_distance "123" = Raise (ValueError_invalid_seat "123"))
  /\ (forall bookings self b seat l,
        cache_consistent self ->
        b ∈ bookings -> seat ∈ Booking.seats b ->
        _calculate_seat_distance seat = Raise (ValueError_invalid_seat l) ->
        exists e, fst (process_bookings_with_heap bookings self) = Raise e).
Proof.
  split; [split; vm_compute; reflexivity|].
  split.
  { intros label. rewrite calculate_invalid_iff, <- seat_match_iff.
    split; intros H.
    - intros [x Hx]. congruence.
    - destruct (seat_match label); [exfalso; apply H; eauto|done]. }
  split.
  { intros label l. unfold _calculate_seat_distance.
    destruct (seat_match label) as [[c ds]|]; [|now intros [= ->]].
    destruct (int ds) as [row|e] eqn:Ei; cbn;
      [|apply int_raise in Ei as [_ ->]; discriminate].
    unfold PyFloat.of_int.
    destruct (PyFloat.of_Z row); cbn; discriminate. }
  split; [repeat split; vm_compute; reflexivity|].
  intros bookings self b seat l Hc Hb Hs He.
  exact (process_seat_raise bookings self b seat _ Hc Hb Hs He).
Qed.

(** C5, as worded, fails at large rows.  At row [2^49] the seats [A] and [B]
    resolve to the same double: the weight is below the spacing of the
    doubles there.  At row [2^53] the seat [D] of the next row resolves to
    the same double as the seat [A]: [2^53 + 1] is no double. *)
Lemma C5_counterexample :
  (exists a b,
     _calculate_seat_distance (String "A" row_2_49) = Ok a
     /\ _calculate_seat_distance (String "B" row_2_49) = Ok b
     /\ PyFloat.ltb b a = false)
  /\ (int_value row_2_53_plus_1 = int_value row_2_53 + 1)%Z
  /\ (exists a d,
        _calculate_seat_distance (String "A" row_2_53) = Ok a
        /\ _calculate_seat_distance (String "D" row_2_53_plus_1) = Ok d
        /\ PyFloat.ltb a d = false).
Proof.
  split; [|split; [reflexivity|]];
    eexists; eexists; (split; [vm_compute; reflexivity|]);
    (split; [vm_compute; reflexivity|]); vm_compute; reflexivity.
Qed.

(** C5, amended: for the digits of a row below [2^49], at most 4300 of
    them, the four seats of the row resolve, to distances in the strict
    order [A > B > C > D]; for the digits of a row below [2^53] and those
    of the next row, at most 4300 each, seat [D] of the next row resolves to
    more than seat [A] of the row.  With more than 4300 digits no seat
    resolves: [int] raises [ValueError]. *)
Theorem C5_seat_order :
  (forall ds,
     all_digits ds = true -> ds <> "" ->
     (String.length ds <= int_max_str_digits)%nat -> (int_value ds < 2 ^ 49)%Z ->
     exists a b c d,
       _calculate_seat_distance (String "A" ds) = Ok a
       /\ _calculate_seat_distance (String "B" ds) = Ok b
       /\ _calculate_seat_distance (String "C" ds) = Ok c
       /\ _calculate_seat_distance (String "D" ds) = Ok d
       /\ PyFloat.ltb b a = true /\ PyFloat.ltb c b = true
       /\ PyFloat.ltb d c = true)
  /\ (forall ds ds',
        all_digits ds = true -> ds <> "" ->
        all_digits ds' = true -> ds' <> "" ->
        (String.length ds <= int_max_str_digits)%nat ->
        (String.length ds' <= int_max_str_digits)%nat ->
        (int_value ds < 2 ^ 53)%Z -> (int_value ds' = int_value ds + 1)%Z ->
        exists a d,
          _calculate_seat_distance (String "A" ds) = Ok a
          /\ _calculate_seat_distance (String "D" ds') = Ok d
          /\ PyFloat.ltb a d = true)
  /\ (forall c ds,
        is_column c = true -> all_digits ds = true ->
        (int_max_str_digits < String.length ds)%nat ->
        _calculate_seat_distance (String c ds) = Raise ValueError_int_max_str_digits).
Proof.
  split; [|split].
  - intros ds Hds Hne Hlen Hlt.
    rewrite !(fun c Hc =>
                calculate_seat_match_short _ c ds (seat_match_spec c ds Hc Hds Hne) Hlen)
      by reflexivity.
    apply columns_ordered. split; [now apply int_nonneg|done].
  - intros ds ds' Hds Hne Hds' Hne' Hlen Hlen' Hlt Hnext.
    rewrite (calculate_seat_match_short _ "A"%char ds);
      [|now apply seat_match_spec|done].
    rewrite (calculate_seat_match_short _ "D"%char ds');
      [|now apply seat_match_spec|done].
    rewrite Hnext. apply rows_ordered. split; [now apply int_nonneg|done].
  - intros c ds Hc Hds Hlen.
    rewrite (calculate_seat_match _ c ds).
    + now rewrite int_long.
    + apply seat_match_spec; [done|done|]. intros ->. cbn in Hlen. lia.
Qed.

(** C5 on the rows 10 and 11. *)
Lemma C5_seat_order_witness :
  (exists a b c d,
     _calculate_seat_distance "A10" = Ok a
     /\ _calculate_seat_distance "B10" = Ok b
     /\ _calculate_seat_distance "C10" = Ok c
     /\ _calculate_seat_distance "D10" = Ok d
     /\ PyFloat.ltb b a = true /\ PyFloat.ltb c b = true
     /\ PyFloat.ltb d c = true)
  /\ (exists a d,
        _calculate_seat_distance "A10" = Ok a
        /\ _calculate_seat_distance "D11" = Ok d
        /\ PyFloat.ltb a d = true).
Proof.
  split.
  - apply (proj1 C5_seat_order "10");
      [reflexivity|discriminate|apply Nat.leb_le; reflexivity|reflexivity].
  - apply (proj1 (proj2 C5_seat_order) "10" "11");
      [reflexivity|discriminate|reflexivity|discriminate
      |apply Nat.leb_le; reflexivity|apply Nat.leb_le; reflexivity
      |reflexivity|reflexivity].
Defined.

(** ** The memo table *)

(** C6: from a table that holds computed distances only, as every table
    reached from a new processor does, a label that resolves to [d] yields
    [d] at each of any number of resolves, before and after [clear_cache],
    and is in the table after the first; a resolve of a label in the table
    adds one to [cache_hits] and leaves the table and [cache_misses] as they
    are; and from any table whatever, all the resolves of a label give one
    and the same result. *)
Theorem C6_memo (self : processor) (seat_label : string) (d : float) :
  cache_consistent self ->
  _calculate_seat_distance seat_label = Ok d ->
  (forall n, fst (resolve_times n seat_label self) = replicate n (Ok d))
  /\ (forall n, fst (resolve_times n seat_label (clear_cache self))
                = replicate n (Ok d))
  /\ seat_cache (snd (get_seat_distance seat_label self)) !! seat_label = Some d
  /\ (forall self' d',
        seat_cache self' !! seat_label = Some d' ->
        get_seat_distance seat_label self'
        = (Ok d', {| seat_cache := seat_cache self';
                     cache_hits := cache_hits self' + 1;
                     cache_misses := cache_misses self' |}))
  /\ (forall self' n,
        fst (resolve_times n seat_label self')
        = replicate n (fst (get_seat_distance seat_label self'))).
Proof.
  intros Hc Hd.
  assert (Hfst : forall s, cache_consistent s ->
            fst (get_seat_distance seat_label s) = Ok d).
  { intros s Hs. destruct (get_seat_distance_spec seat_label s Hs) as [-> _].
    exact Hd. }
  split; [|split; [|split; [|split]]].
  - intros n. now rewrite resolve_times_same, Hfst.
  - intros n. rewrite resolve_times_same, Hfst; [done|].
    apply clear_cache_consistent.
  - apply get_seat_distance_cached. now apply Hfst.
  - intros self' d'. apply get_seat_distance_hit.
  - intros self' n. apply resolve_times_same.
Qed.

(** C6 on the label [A10], from a new processor. *)
Lemma C6_memo_witness :
  cache_consistent __init__
  /\ _calculate_seat_distance "A10" = Ok (PyFloat.literal 103 10)
  /\ (forall n, fst (resolve_times n "A10" __init__)
                = replicate n (Ok (PyFloat.literal 103 10)))
  /\ (forall n, fst (resolve_times n "A10" (clear_cache __init__))
                = replicate n (Ok (PyFloat.literal 103 10)))
  /\ seat_cache (snd (get_seat_distance "A10" __init__)) !! "A10"
     = Some (PyFloat.literal 103 10)
  /\ (forall self' d',
        seat_cache self' !! "A10" = Some d' ->
        get_seat_distance "A10" self'
        = (Ok d', {| seat_cache := seat_cache self';
                     cache_hits := cache_hits self' + 1;
                     cache_misses := cache_misses self' |}))
  /\ (forall self' n,
        fst (resolve_times n "A10" self')
        = replicate n (fst (get_seat_distance "A10" self'))).
Proof.
  assert (Hd : _calculate_seat_distance "A10" = Ok (PyFloat.literal 103 10))
    by (vm_compute; reflexivity).
  split; [exact init_consistent|]. split; [exact Hd|].
  exact (C6_memo __init__ "A10" (PyFloat.literal 103 10) init_consistent Hd).
Defined.

(** ** The analyzer *)

(** C7, as worded, fails on the empty list, which is descending: its
    [optimalityScore] is [0], not [100]. *)
Lemma C7_counterexample :
  descending []
  /\ exists e,
       analyze_boarding_efficiency [] = Ok e
       /\ optimalityScore e = PyInt 0
       /\ number_eqb (optimalityScore e) (PyFloat (PyFloat.of_Z 100)) = false.
Proof.
  split; [intros i a b Ha; discriminate|].
  eexists. split; [reflexivity|]. split; [reflexivity|]. vm_compute. reflexivity.
Qed.

(** C7, amended: on a list of entries that is not empty, the analyzer
    returns; [averageDistance] is the sum of the [maxDistance]s divided by
    their number; [blockingPotential] is the sum, over the pairs of positions
    [i < j] with [entries[i].maxDistance < entries[j].maxDistance], of
    [entries[j].maxDistance - entries[i].maxDistance]; and when the list is
    descending by [maxDistance], [blockingPotential] is [0] and
    [optimalityScore] is [100.0]. *)
Theorem C7_analyze (sequence : list Entry.t) :
  sequence <> [] ->
  exists e,
    analyze_boarding_efficiency sequence = Ok e
    /\ averageDistance e = PyFloat (arithmetic_mean (map Entry.maxDistance sequence))
    /\ blockingPotential e = inversion_sum (map Entry.maxDistance sequence)
    /\ (descending sequence ->
        blockingPotential e = PyInt 0
        /\ optimalityScore e = PyFloat (PyFloat.of_Z 100)).
Proof.
  intros Hne.
  destruct (analyze_nonempty sequence Hne) as (c & ratio & _ & _ & _ & He).
  eexists. split; [exact He|]. cbn. split; [done|]. split; [done|].
  intros Hd. pose proof (analyze_descending sequence Hne Hd) as He'.
  rewrite He in He'. injection He' as Hb Ho. split; congruence.
Qed.

(** C7 on the two entries of the test, [20.3] then [10.3]. *)
Lemma C7_analyze_witness :
  test_sequence <> []
  /\ exists e,
       analyze_boarding_efficiency test_sequence = Ok e
       /\ averageDistance e
          = PyFloat (arithmetic_mean (map Entry.maxDistance test_sequence))
       /\ blockingPotential e = inversion_sum (map Entry.maxDistance test_sequence)
       /\ (descending test_sequence ->
           blockingPotential e = PyInt 0
           /\ optimalityScore e = PyFloat (PyFloat.of_Z 100)).
Proof.
  assert (Hne : test_sequence <> []) by discriminate.
  split; [exact Hne|]. exact (C7_analyze test_sequence Hne).
Defined.

(** C8: on the empty batch the sequencer returns no entry and the totals
    [0] and [0], and leaves the processor as it is; on the empty list the
    analyzer returns the three metrics [0]; whenever the sequencer returns,
    [totalBookings] is the number of bookings and [totalPassengers] the sum
    of the numbers of seats of the bookings, a seat named twice counted
    twice; and it returns on every batch of eligible bookings without
    conflicting ties. *)
Theorem C8_empty_input :
  (forall self,
     process_bookings_with_heap [] self
     = (Ok {| boardingSequence := [];
              totalBookings := 0;
              totalPassengers := 0;
              cacheStats_hits := cache_hits self;
              cacheStats_misses := cache_misses self |}, self))
  /\ analyze_boarding_efficiency []
     = Ok {| averageDistance := PyInt 0;
             blockingPotential := PyInt 0;
             optimalityScore := PyInt 0 |}
  /\ (forall bookings self r,
        fst (process_bookings_with_heap bookings self) = Ok r ->
        totalBookings r = length bookings
        /\ totalPassengers r
           = list_sum (map (fun b => length (Booking.seats b)) bookings))
  /\ (forall bookings self,
        cache_consistent self -> Forall eligible bookings ->
        no_conflicting_ties bookings ->
        exists r,
          fst (process_bookings_with_heap bookings self) = Ok r
          /\ totalPassengers r
             = list_sum (map (fun b => length (Booking.seats b)) bookings))
  /\ (exists r,
        fst (process_bookings_with_heap repeated_seat_batch __init__) = Ok r
        /\ totalPassengers r = 2%nat).
Proof.
  split; [reflexivity|]. split; [reflexivity|].
  split; [exact process_totals|]. split.
  - intros bookings self Hc Hel Hties.
    destruct (process_bookings_total bookings self Hc Hel Hties) as [r Hr].
    exists r. split; [exact Hr|]. now destruct (process_totals _ _ _ Hr).
  - eexists. split; [vm_compute; reflexivity|reflexivity].
Qed.

(** C8 on the batch of the specification, from a new processor. *)
Lemma C8_empty_input_witness :
  cache_consistent __init__ /\ Forall eligible scenario
  /\ no_conflicting_ties scenario
  /\ exists r,
       fst (process_bookings_with_heap scenario __init__) = Ok r
       /\ totalPassengers r
          = list_sum (map (fun b => length (Booking.seats b)) scenario).
Proof.
  assert (Hc : cache_consistent __init__) by exact init_consistent.
  assert (Hel : Forall eligible scenario) by batch_eligible.
  assert (Hties : no_conflicting_ties scenario) by batch_distinct_ids.
  split; [exact Hc|]. split; [exact Hel|]. split; [exact Hties|].
  exact (proj1 (proj2 (proj2 (proj2 C8_empty_input))) scenario __init__ Hc Hel Hties).
Defined.

(** ** The analyzer on the entries of the sequencer *)

(** C9: from a consistent table, whenever the sequencer returns entries for
    a batch, they are in the order of the heap ([maxDistance] descending,
    then [bookingId] ascending), the reference sort of the analyzer leaves
    them as they are, and the analyzer returns for them a
    [blockingPotential] of [0] and, when the batch is not empty, an
    [optimalityScore] of [100.0]; and the sequencer does return on every
    batch of eligible bookings without conflicting ties. *)
Theorem C9_pipeline (bookings : list Booking.t) (self : processor) :
  cache_consistent self ->
  (forall r,
     fst (process_bookings_with_heap bookings self) = Ok r ->
     (forall i j a b, (i < j)%nat ->
        boardingSequence r !! i = Some a -> boardingSequence r !! j = Some b ->
        entry_le a b)
     /\ sorted (fun x => PyFloat.neg (Entry.maxDistance x)) (boardingSequence r)
        = boardingSequence r
     /\ exists e,
          analyze_boarding_efficiency (boardingSequence r) = Ok e
          /\ blockingPotential e = PyInt 0
          /\ (bookings <> [] -> optimalityScore e = PyFloat (PyFloat.of_Z 100)))
  /\ (Forall eligible bookings -> no_conflicting_ties bookings ->
      exists r, fst (process_bookings_with_heap bookings self) = Ok r).
Proof.
  intros Hc. split; [|now apply process_bookings_total].
  intros r Hr.
  destruct (process_bookings_sequenced bookings self r Hc Hr) as (Hs & _ & _).
  pose proof (sequenced_descending _ _ Hs) as Hd.
  split; [exact (seq_order _ _ Hs)|].
  split; [exact (descending_sorted _ Hd)|].
  destruct (boardingSequence r) as [|x entries] eqn:E.
  - eexists. split; [reflexivity|]. split; [reflexivity|].
    intros Hne. apply sequenced_length in Hs. destruct bookings; done.
  - eexists. split; [apply analyze_descending; done|]. split; done.
Qed.

(** C9 on the batch of the specification, from a new processor. *)
Lemma C9_pipeline_witness :
  cache_consistent __init__
  /\ exists r,
       fst (process_bookings_with_heap scenario __init__) = Ok r
       /\ exists e,
            analyze_boarding_efficiency (boardingSequence r) = Ok e
            /\ blockingPotential e = PyInt 0
            /\ optimalityScore e = PyFloat (PyFloat.of_Z 100).
Proof.
  assert (Hc : cache_consistent __init__) by exact init_consistent.
  assert (Hel : Forall eligible scenario) by batch_eligible.
  assert (Hties : no_conflicting_ties scenario) by batch_distinct_ids.
  split; [exact Hc|].
  destruct (C9_pipeline scenario __init__ Hc) as [Hany Hret].
  destruct (Hret Hel Hties) as [r Hr].
  destruct (Hany r Hr) as (_ & _ & e & He & Hb & Ho).
  exists r. split; [exact Hr|]. exists e. split; [exact He|]. split; [exact Hb|].
  apply Ho. discriminate.
Defined.

(** ** Bookings without seats *)

(** C10: [max] and [min] return on every list of distances that is not
    empty and raise on the empty one; a batch that holds a booking without
    seats makes the sequencer raise, whatever the processor; and on a
    booking with a seat followed by one without, what it raises is the
    [ValueError] of [max]. *)
Theorem C10_empty_seats :
  (forall ds, ds <> [] -> exists mx mn, py_max ds = Ok mx /\ py_min ds = Ok mn)
  /\ py_max [] = Raise ValueError_empty_sequence
  /\ (forall bookings self b,
        b ∈ bookings -> Booking.seats b = [] ->
        exists e, fst (process_bookings_with_heap bookings self) = Raise e)
  /\ fst (process_bookings_with_heap empty_seats_batch __init__)
     = Raise ValueError_empty_sequence.
Proof.
  split; [exact py_max_min_defined|]. split; [reflexivity|].
  split; [|vm_compute; reflexivity].
  intros bookings self b. apply process_empty_seats.
Qed.

(** C10 on the distances of one seat, and on the batch of a booking with a
    seat followed by one without. *)
Lemma C10_empty_seats_witness :
  (exists mx mn,
     py_max [PyFloat.literal 13 10] = Ok mx /\ py_min [PyFloat.literal 13 10] = Ok mn)
  /\ exists e, fst (process_bookings_with_heap empty_seats_batch __init__) = Raise e.
Proof.
  split.
  - apply (proj1 C10_empty_seats). discriminate.
  - apply (proj1 (proj2 (proj2 C10_empty_seats)) empty_seats_batch __init__
             (booking "2" [])); [|reflexivity].
    apply elem_of_cons. right. apply elem_of_cons. left. reflexivity.
Defined.

(* ===================================================================== *)
(** * Part IV: the parser, the legacy resolver and the state of the processor *)
(* ===================================================================== *)

(** ** Python strings *)

(** A stripped string does not end with a space. *)
Lemma rstrip_last s : forall l c,
  rstrip s = (l ++ String c EmptyString)%string -> is_space c = false.
Proof.
  induction s as [|a s IH]; intros l c; simpl.
  - destruct l; discriminate.
  - destruct (rstrip s) as [|b r] eqn:E.
    + destruct (is_space a) eqn:Ea.
      * destruct l; discriminate.
      * destruct l as [|x l]; simpl.
        -- now intros [= <-].
        -- intros [= _ H]. destruct l; discriminate.
    + destruct l as [|x l]; simpl.
      * discriminate.
      * intros [= _ H]. now apply (IH l c).
Qed.

Lemma strip_last s l c :
  strip s = (l ++ String c EmptyString)%string -> is_space c = false.
Proof. apply rstrip_last. Qed.

(** A stripped string that the seat pattern of the code accepts is a label
    of the specification: it cannot end with a line feed. *)
Lemma strip_seat_valid s :
  seat_valid (strip s) = true -> spec_seat_label (strip s) = true.
Proof.
  unfold seat_valid. intros H.
  assert (Hm : is_Some (seat_match (strip s))).
  { destruct (seat_match (strip s)); [eauto|discriminate]. }
  apply seat_match_iff in Hm as [Hm|(l & Hl & _)]; [done|].
  apply strip_last in Hl. discriminate.
Qed.

Lemma split_length sep s : length (split sep s) = S (occurrences sep s).
Proof.
  induction s as [|c s IH]; simpl; [done|].
  destruct (Ascii.eqb c sep); simpl; [now rewrite IH|].
  destruct (split sep s); simpl in *; lia.
Qed.

Lemma occurrences_lstrip c s : (occurrences c (lstrip s) <= occurrences c s)%nat.
Proof.
  induction s as [|a s IH]; simpl; [done|].
  destruct (is_space a); simpl; lia.
Qed.

Lemma occurrences_rstrip c s : (occurrences c (rstrip s) <= occurrences c s)%nat.
Proof.
  induction s as [|a s IH]; simpl; [done|].
  destruct (rstrip s) as [|b r]; simpl in *.
  - destruct (is_space a); simpl; lia.
  - lia.
Qed.

Lemma occurrences_strip c s : (occurrences c (strip s) <= occurrences c s)%nat.
Proof.
  unfold strip. etransitivity; [apply occurrences_rstrip|apply occurrences_lstrip].
Qed.

(** ** The parser *)

Lemma elem_of_seats_of seat seats_str :
  seat ∈ seats_of seats_str -> exists s, seat = strip s.
Proof.
  unfold seats_of. intros H. apply list_elem_of_In, filter_In in H as [H _].
  apply in_map_iff in H as (s & <- & _). eauto.
Qed.

Lemma add_booking_invariant booking_id seats_str store :
  parse_invariant store -> parse_invariant (add_booking booking_id seats_str store).
Proof.
  destruct store as [bookings booking_ids]. intros Hinv.
  unfold add_booking.
  destruct (negb (nonempty booking_id) || negb (nonempty seats_str)) eqn:Hne; [done|].
  case_bool_decide as Hin; [done|].
  destruct (List.filter seat_valid (seats_of seats_str)) as [|seat seats] eqn:Hv; [done|].
  destruct Hinv as (Hwf & Hnd & Hids). unfold parse_invariant.
  cbn [fst snd] in *. split; [|split].
  - apply Forall_app. split; [done|]. apply Forall_singleton.
    split; [|split]; cbn.
    + apply orb_false_iff in Hne as [Hne _]. destruct booking_id; done.
    + done.
    + apply Forall_forall. intros s Hs. rewrite <- Hv in Hs.
      apply list_elem_of_In, filter_In in Hs as [Hs Hvalid].
      apply list_elem_of_In, elem_of_seats_of in Hs as [t ->].
      now apply strip_seat_valid.
  - rewrite map_app. cbn. apply NoDup_app. split; [done|]. split.
    + intros x Hx Hx'. apply list_elem_of_singleton in Hx' as ->.
      apply Hin, Hids, Hx.
    + apply NoDup_singleton.
  - intros x. rewrite map_app. cbn. rewrite elem_of_union, elem_of_singleton.
    rewrite elem_of_app, list_elem_of_singleton, Hids. tauto.
Qed.

(** What a line does to the state, where it does not raise: nothing, or
    the second part of the body. *)
Lemma parse_line_ok raw state state' :
  parse_line raw state = Ok state' ->
  state'.1 = state.1
  \/ exists booking_id seats_str,
       state'.1 = add_booking booking_id seats_str state.1.
Proof.
  destruct state as [store re_bound]. unfold parse_line.
  destruct (negb (nonempty (strip raw))); [intros [= <-]; now left|].
  destruct (line_fields (strip raw) re_bound) as [[[[booking_id seats_str]|] re_bound']|e];
    [| |done]; intros [= <-]; cbn; eauto.
Qed.

Lemma parse_line_invariant raw state state' :
  parse_line raw state = Ok state' ->
  parse_invariant state.1 -> parse_invariant state'.1.
Proof.
  intros H Hinv. destruct (parse_line_ok _ _ _ H) as [->|(booking_id & seats_str & ->)];
    [done|now apply add_booking_invariant].
Qed.

Lemma parse_lines_invariant lines : forall state state',
  parse_lines lines state = Ok state' ->
  parse_invariant state.1 -> parse_invariant state'.1.
Proof.
  induction lines as [|raw lines IH]; intros state state'; cbn.
  - now intros [= <-].
  - destruct (parse_line raw state) as [state1|e] eqn:E; cbn; [|done].
    intros H Hinv. apply (IH _ _ H). now apply (parse_line_invariant _ _ _ E).
Qed.

Lemma parse_booking_data_invariant data bookings :
  parse_booking_data data = Ok bookings ->
  Forall well_formed bookings /\ NoDup (map Booking.bookingId bookings).
Proof.
  unfold parse_booking_data.
  destruct (parse_lines (tl (split line_feed (strip data))) ([], ∅, false))
    as [state|e] eqn:E; cbn; [|done].
  intros [= <-].
  destruct (parse_lines_invariant _ _ _ E) as (Hwf & Hnd & _); [|done].
  split; [constructor|]. split; [constructor|]. intros x. cbn. set_solver.
Qed.

Lemma add_booking_length booking_id seats_str store :
  (length (add_booking booking_id seats_str store).1 <= S (length store.1))%nat.
Proof.
  destruct store as [bookings booking_ids]. unfold add_booking. cbn [fst].
  repeat first [ case_bool_decide | case_match ]; cbn [fst];
    rewrite ?length_app; cbn; lia.
Qed.

Lemma parse_line_length raw state state' :
  parse_line raw state = Ok state' ->
  (length state'.1.1 <= S (length state.1.1))%nat.
Proof.
  intros H. destruct (parse_line_ok _ _ _ H) as [->|(booking_id & seats_str & ->)];
    [lia|apply add_booking_length].
Qed.

Lemma parse_lines_length lines : forall state state',
  parse_lines lines state = Ok state' ->
  (length state'.1.1 <= length state.1.1 + length lines)%nat.
Proof.
  induction lines as [|raw lines IH]; intros state state'; cbn.
  - intros [= <-]. lia.
  - destruct (parse_line raw state) as [state1|e] eqn:E; cbn; [|done].
    intros H. pose proof (IH _ _ H). pose proof (parse_line_length _ _ _ E). lia.
Qed.

(** ** What the sequencer raises *)

(** With a consistent table and no conflicting ties, what the sequencer
    raises is what the distances of a booking raise. *)
Lemma process_raise_info bookings self e :
  cache_consistent self -> no_conflicting_ties bookings ->
  fst (process_bookings_with_heap bookings self) = Raise e ->
  exists b, b ∈ bookings /\ info_of b = Raise e.
Proof.
  intros Hc Hties Hr.
  destruct (process_bookings_spec (batch_item bookings)) with (bookings := bookings)
    (self := self) as [_ Hspec]; auto.
  { intros a (b & info & _ & Hinfo & ->). eapply info_of_key_ok; eauto. }
  { intros b info Hb Hinfo. exists b, info. auto. }
  rewrite Hr in Hspec. destruct Hspec as [(a & b & Ha & Hb & Hab)|H]; [|done].
  destruct (tuple_lt_defined a b) as [r' Hr']; [|congruence].
  eapply batch_items_compatible; eauto.
Qed.

Lemma resolve_all_raise_inv seats e :
  resolve_all seats = Raise e ->
  exists seat, seat ∈ seats /\ _calculate_seat_distance seat = Raise e.
Proof.
  induction seats as [|s seats IH]; cbn; [discriminate|].
  destruct (_calculate_seat_distance s) as [d|e'] eqn:E; cbn.
  - destruct (resolve_all seats) as [ds|e']; cbn; [discriminate|].
    intros [= ->]. destruct (IH eq_refl) as (seat & Hin & Hseat).
    exists seat. split; [now apply list_elem_of_further|done].
  - intros [= ->]. exists s. split; [apply list_elem_of_here|done].
Qed.

Lemma resolve_all_length seats ds :
  resolve_all seats = Ok ds -> length ds = length seats.
Proof.
  revert ds. induction seats as [|s seats IH]; cbn; intros ds.
  - now intros [= <-].
  - destruct (_calculate_seat_distance s); cbn; [|discriminate].
    destruct (resolve_all seats) as [ds'|]; cbn; [|discriminate].
    intros [= <-]. cbn. now rewrite (IH ds').
Qed.

(** A booking with a seat fails only where one of its seats fails. *)
Lemma info_of_raise_inv b e :
  Booking.seats b <> [] -> info_of b = Raise e ->
  exists seat, seat ∈ Booking.seats b /\ _calculate_seat_distance seat = Raise e.
Proof.
  intros Hne. unfold info_of.
  destruct (resolve_all (Booking.seats b)) as [ds|e'] eqn:E; cbn.
  - apply resolve_all_length in E.
    destruct ds as [|d ds]; [destruct (Booking.seats b); done|]. cbn. discriminate.
  - intros [= ->]. now apply resolve_all_raise_inv.
Qed.

(** A label of the specification fails only by the number of its digits or
    by the size of its row. *)
Lemma spec_label_raise label e :
  spec_seat_label label = true -> _calculate_seat_distance label = Raise e ->
  exists c ds,
    label = String c ds
    /\ ((e = ValueError_int_max_str_digits
         /\ (int_max_str_digits < String.length ds)%nat)
        \/ (e = OverflowError
            /\ (String.length ds <= int_max_str_digits)%nat
            /\ (float_overflow <= int_value ds)%Z)).
Proof.
  intros Hs He.
  destruct (spec_seat_label_inv _ Hs) as (c & ds & -> & Hc & Hds & Hne).
  assert (Hm := seat_match_spec c ds Hc Hds Hne).
  exists c, ds. split; [done|].
  rewrite (calculate_seat_match _ _ _ Hm) in He.
  destruct (int ds) as [row|e'] eqn:Ei; cbn in He.
  - apply int_ok in Ei as [Hlen ->]. right.
    split; [|split; [done|]].
    + unfold distance_of, PyFloat.of_int in He.
      destruct (PyFloat.of_Z (int_value ds)); cbn in He; try discriminate.
      congruence.
    + destruct (Z.lt_ge_cases (int_value ds) float_overflow) as [Hlt|Hge]; [|done].
      exfalso. assert (Hr : seat_resolves (String c ds)).
      { apply seat_resolves_iff. eauto. }
      unfold seat_resolves in Hr.
      rewrite (calculate_seat_match_short _ _ _ Hm Hlen), He in Hr. done.
  - apply int_raise in Ei as [Hlen ->]. left. split; [congruence|done].
Qed.

(** ** The legacy resolver *)

Lemma legacy_raise_iff label e :
  _legacy_calculate_seat_distance label = Raise e
  <-> _calculate_seat_distance label = Raise e.
Proof.
  unfold _legacy_calculate_seat_distance, _calculate_seat_distance.
  destruct (seat_match label) as [[c ds]|]; [|done].
  destruct (int ds) as [row|]; cbn; [|done].
  destruct (PyFloat.of_int row); cbn; [|done].
  destruct (Ascii.eqb c "C" || Ascii.eqb c "D"); cbn; split; discriminate.
Qed.

Lemma legacy_seat_match label c ds :
  seat_match label = Some (c, ds) ->
  _legacy_calculate_seat_distance label
  = (row ← int ds;
     distance ← PyFloat.of_int row;
     if Ascii.eqb c "C" || Ascii.eqb c "D"
     then mret (PyFloat.add distance (PyFloat.literal 1 10))
     else mret distance).
Proof. unfold _legacy_calculate_seat_distance. now intros ->. Qed.

Lemma seat_match_column c ds c' ds' :
  seat_match (String c ds) = Some (c', ds') -> c' = c.
Proof.
  unfold seat_match. destruct (is_column c); [|done].
  destruct (span_digits ds) as [pre tl]. destruct pre; [done|].
  destruct (at_dollar tl); [|done]. now intros [= <- _].
Qed.

Lemma add_zero_of_Z r :
  (0 <= r < 2 ^ 53)%Z -> PyFloat.add (PyFloat.of_Z r) PyFloat.zero = PyFloat.of_Z r.
Proof.
  intros [H0 H]. destruct (Z.eq_dec r 0%Z) as [->|Hr]; [reflexivity|].
  rewrite of_Z_small; [reflexivity|lia|].
  apply Zdigits2_le; lia.
Qed.

(** ** The counters and the table, call by call *)

Lemma lookups_refl self : lookups 0 self self.
Proof. split; auto with lia. Qed.

Lemma lookups_trans n m self1 self2 self3 :
  lookups n self1 self2 -> lookups m self2 self3 -> lookups (n + m) self1 self3.
Proof.
  intros [] []. split; try lia. etransitivity; eauto.
Qed.

Lemma get_seat_distance_lookups seat_label self :
  lookups 1 self (snd (get_seat_distance seat_label self)).
Proof.
  unfold get_seat_distance.
  destruct (seat_cache self !! seat_label) as [d|] eqn:E; cbn.
  - split; cbn; auto with lia.
  - destruct (_calculate_seat_distance seat_label) as [d|e]; cbn.
    + split; cbn; try lia.
      * now apply insert_subseteq.
      * rewrite map_size_insert_None by done. lia.
    + split; cbn; auto with lia.
Qed.

(** When a resolve returns and the count of entries went up, ... *)
Lemma seat_distances_lookups seats : forall self,
  exists n, (n <= length seats)%nat
    /\ lookups n self (snd (seat_distances seats self))
    /\ (is_ok (fst (seat_distances seats self)) = true -> n = length seats).
Proof.
  induction seats as [|seat seats IH]; intros self; cbn.
  - exists 0%nat. split; [lia|]. split; [apply lookups_refl|done].
  - pose proof (get_seat_distance_lookups seat self) as H1.
    destruct (get_seat_distance seat self) as [[d|e] self1]; cbn in *.
    + destruct (IH self1) as (n & Hn & H2 & Hok).
      destruct (seat_distances seats self1) as [[ds|e] self2]; cbn in *.
      * exists (1 + n)%nat. split; [lia|]. split; [eapply lookups_trans; eauto|].
        intros _. now rewrite Hok.
      * exists (1 + n)%nat. split; [lia|]. split; [eapply lookups_trans; eauto|done].
    + exists 1%nat. split; [lia|]. split; [done|done].
Qed.

Lemma push_bookings_lookups bookings : forall booking_data self,
  exists n,
    (n <= list_sum (map (fun b => length (Booking.seats b)) bookings))%nat
    /\ lookups n self (snd (push_bookings bookings booking_data self))
    /\ (is_ok (fst (push_bookings bookings booking_data self)) = true ->
        n = list_sum (map (fun b => length (Booking.seats b)) bookings)).
Proof.
  induction bookings as [|b bookings IH]; intros h self; simpl.
  - exists 0%nat. split; [lia|]. split; [apply lookups_refl|done].
  - destruct (seat_distances_lookups (Booking.seats b) self) as (n & Hn & H1 & Hok).
    destruct (seat_distances (Booking.seats b) self) as [[ds|e] self1]; cbn [fst snd is_ok] in *.
    + destruct (push_booking b ds h) as [h'|e]; cbn [fst snd is_ok].
      * destruct (IH h' self1) as (m & Hm & H2 & Hok').
        exists (n + m)%nat. split; [lia|]. split; [eapply lookups_trans; eauto|].
        intros H. rewrite Hok, Hok' by done. done.
      * exists n. split; [lia|]. split; [done|done].
    + exists n. split; [lia|]. split; [done|done].
Qed.

Lemma process_lookups bookings self :
  exists n,
    (n <= list_sum (map (fun b => length (Booking.seats b)) bookings))%nat
    /\ lookups n self (snd (process_bookings_with_heap bookings self))
    /\ (is_ok (fst (process_bookings_with_heap bookings self)) = true ->
        n = list_sum (map (fun b => length (Booking.seats b)) bookings)).
Proof.
  destruct (push_bookings_lookups bookings [] self) as (n & Hn & H & Hok).
  unfold process_bookings_with_heap.
  destruct (push_bookings bookings [] self) as [[h|e] self1]; cbn in *.
  - destruct (pop_bookings (length h) h 1 []); cbn; eauto.
  - eauto.
Qed.

(** After the distances of a list of seats returned, they are in the table. *)
Lemma seat_distances_cached seats : forall self ds,
  fst (seat_distances seats self) = Ok ds ->
  forall seat, seat ∈ seats ->
    is_Some (seat_cache (snd (seat_distances seats self)) !! seat).
Proof.
  induction seats as [|s seats IH]; intros self ds; cbn.
  - intros _ seat Hin. now apply elem_of_nil in Hin.
  - pose proof (get_seat_distance_cached s self) as Hc.
    destruct (get_seat_distance s self) as [[d|e] self1]; cbn in *; [|discriminate].
    specialize (IH self1).
    destruct (seat_distances_lookups seats self1) as (n & _ & Hl & _).
    destruct (seat_distances seats self1) as [[ds'|e] self2]; cbn in *; [|discriminate].
    intros _ seat Hin. apply elem_of_cons in Hin as [->|Hin].
    + exists d. eapply lookup_weaken; [apply Hc; reflexivity|apply Hl].
    + eapply IH; eauto.
Qed.

Lemma push_bookings_cached bookings : forall booking_data self h,
  fst (push_bookings bookings booking_data self) = Ok h ->
  forall b seat, b ∈ bookings -> seat ∈ Booking.seats b ->
    is_Some (seat_cache (snd (push_bookings bookings booking_data self)) !! seat).
Proof.
  induction bookings as [|b0 bookings IH]; intros h0 self h; cbn.
  - intros _ b seat Hin. now apply elem_of_nil in Hin.
  - pose proof (seat_distances_cached (Booking.seats b0) self) as Hc.
    destruct (seat_distances (Booking.seats b0) self) as [[ds|e] self1]; cbn in *;
      [|discriminate].
    destruct (push_booking b0 ds h0) as [h1|e]; cbn; [|discriminate].
    intros Hh b seat Hb Hs.
    apply elem_of_cons in Hb as [->|Hb].
    + destruct (Hc ds eq_refl seat Hs) as [d Hd].
      destruct (push_bookings_lookups bookings h1 self1) as (n & _ & Hl & _).
      exists d. eapply lookup_weaken; [exact Hd|apply Hl].
    + eapply IH; eauto.
Qed.

(** ** An invariant of one resolve is an invariant of the sequencer *)

Lemma seat_distances_preserves (P : processor -> Prop) :
  (forall seat_label self, P self -> P (snd (get_seat_distance seat_label self))) ->
  forall seats self, P self -> P (snd (seat_distances seats self)).
Proof.
  intros Hget seats. induction seats as [|s seats IH]; intros self HP; cbn; [done|].
  specialize (Hget s self HP).
  destruct (get_seat_distance s self) as [[d|e] self1]; cbn in *; [|done].
  specialize (IH self1 Hget).
  destruct (seat_distances seats self1) as [[ds|e] self2]; done.
Qed.

Lemma process_preserves (P : processor -> Prop) :
  (forall seat_label self, P self -> P (snd (get_seat_distance seat_label self))) ->
  forall bookings self, P self -> P (snd (process_bookings_with_heap bookings self)).
Proof.
  intros Hget bookings self HP.
  assert (Hpush : forall bookings h self, P self ->
            P (snd (push_bookings bookings h self))).
  { clear bookings self HP. intros bookings.
    induction bookings as [|b bookings IH]; intros h self HP; cbn; [done|].
    pose proof (seat_distances_preserves P Hget (Booking.seats b) self HP) as H1.
    destruct (seat_distances (Booking.seats b) self) as [[ds|e] self1]; cbn in *;
      [|done].
    destruct (push_booking b ds h); cbn; [now apply IH|done]. }
  specialize (Hpush bookings [] self HP). unfold process_bookings_with_heap.
  destruct (push_bookings bookings [] self) as [[h|e] self1]; cbn in *; [|done].
  destruct (pop_bookings (length h) h 1 []); done.
Qed.

(** A label that does not resolve is not in a consistent table, and a
    resolve of it is a miss that leaves the table as it is. *)
Lemma get_seat_distance_failing seat_label self e :
  cache_consistent self -> _calculate_seat_distance seat_label = Raise e ->
  get_seat_distance seat_label self
  = (Raise e, {| seat_cache := seat_cache self;
                 cache_hits := cache_hits self;
                 cache_misses := cache_misses self + 1 |}).
Proof.
  intros Hc He. unfold get_seat_distance.
  destruct (seat_cache self !! seat_label) as [d|] eqn:E.
  - apply Hc in E. congruence.
  - now rewrite He.
Qed.

(** ** The order of the input does not matter *)

(** Two sorted lists with the same items are the same list, where the
    order is antisymmetric on the items. *)
Lemma sorted_Permutation_eq {X : Type} (R : X -> X -> Prop) (l1 : list X) :
  forall l2,
  (forall a b, a ∈ l1 -> b ∈ l1 -> R a b -> R b a -> a = b) ->
  StronglySorted R l1 -> StronglySorted R l2 -> l1 ≡ₚ l2 -> l1 = l2.
Proof.
  induction l1 as [|a l1 IH]; intros l2 Hanti H1 H2 Hp.
  - apply Permutation_nil in Hp. now subst.
  - destruct l2 as [|b l2]; [now apply Permutation_sym, Permutation_nil_cons in Hp|].
    apply StronglySorted_inv in H1 as [H1 Ha].
    apply StronglySorted_inv in H2 as [H2 Hb].
    assert (a = b) as <-.
    { assert (Hin_a : a ∈ b :: l2) by (rewrite <- Hp; apply list_elem_of_here).
      assert (Hin_b : b ∈ a :: l1) by (rewrite Hp; apply list_elem_of_here).
      apply elem_of_cons in Hin_a as [?|Hin_a]; [done|].
      apply elem_of_cons in Hin_b as [?|Hin_b]; [done|].
      apply Hanti.
      - apply list_elem_of_here.
      - now apply list_elem_of_further.
      - rewrite Forall_forall in Ha. apply Ha, Hin_b.
      - rewrite Forall_forall in Hb. apply Hb, Hin_a. }
    f_equal. apply IH; auto.
    + intros x y Hx Hy. apply Hanti; now apply list_elem_of_further.
    + now apply Permutation_cons_inv in Hp.
Qed.

Lemma map_Ok_inj {X : Type} (l1 l2 : list X) :
  map (@Ok X) l1 = map Ok l2 -> l1 = l2.
Proof.
  revert l2. induction l1 as [|x l1 IH]; intros [|y l2]; cbn; try done.
  intros [= -> H]. f_equal. now apply IH.
Qed.

Lemma Forall2_info_map bookings infos :
  Forall2 (fun b info => info_of b = Ok info) bookings infos ->
  map info_of bookings = map Ok infos.
Proof. induction 1 as [|b info bookings infos Hb _ IH]; cbn; congruence. Qed.

(** The infos of two batches with the same bookings are the same infos. *)
Lemma Forall2_info_Permutation bookings bookings' infos infos' :
  Forall2 (fun b info => info_of b = Ok info) bookings infos ->
  Forall2 (fun b info => info_of b = Ok info) bookings' infos' ->
  bookings ≡ₚ bookings' -> infos ≡ₚ infos'.
Proof.
  intros H1 H2 Hp.
  apply Forall2_info_map in H1, H2.
  apply (Permutation_map info_of) in Hp. rewrite H1, H2 in Hp.
  apply Permutation_map_inv in Hp as (l3 & Hl3 & Hp).
  apply map_Ok_inj in Hl3 as ->. done.
Qed.

(** On the items of a batch without conflicting ties the order of the heap
    is antisymmetric. *)
Lemma item_le_antisym bookings a b :
  no_conflicting_ties bookings ->
  batch_item bookings a -> batch_item bookings b ->
  item_le a b -> item_le b a -> a = b.
Proof.
  intros Hties (b1 & info1 & Hb1 & Hinfo1 & ->) (b2 & info2 & Hb2 & Hinfo2 & ->).
  unfold item_le, item_of_info. cbn [fst snd].
  intros Hab Hba.
  assert (Heq : float_eq (PyFloat.neg (BookingInfo.maxDistance info1))
                         (PyFloat.neg (BookingInfo.maxDistance info2))
                /\ BookingInfo.bookingId info1 = BookingInfo.bookingId info2).
  { destruct Hab as [Hlt|[Heq Hid]]; destruct Hba as [Hlt'|[Heq' Hid']].
    - destruct (float_lt_asym _ _ Hlt Hlt').
    - destruct (float_lt_irrefl _ _ Hlt (float_eq_sym _ _ Heq')).
    - destruct (float_lt_irrefl _ _ Hlt' (float_eq_sym _ _ Heq)).
    - split; [done|]. destruct Hid as [Hid|Hid]; [|done].
      destruct Hid' as [Hid'|Hid']; [|done].
      rewrite (string_ltb_asym _ _ Hid) in Hid'. discriminate. }
  destruct Heq as [Heq Hid].
  pose proof (info_of_key_ok _ _ Hinfo1) as Hk1.
  pose proof (info_of_key_ok _ _ Hinfo2) as Hk2.
  unfold item_key_ok, item_of_info in Hk1, Hk2. cbn [fst snd] in Hk1, Hk2.
  rewrite is_nan_neg in Hk1, Hk2.
  assert (Heqb : PyFloat.eqb (BookingInfo.maxDistance info1)
                             (BookingInfo.maxDistance info2) = true).
  { apply eqb_true_iff. split; [done|]. split; [done|]. now apply float_eq_neg. }
  assert (Hb : b1 = b2).
  { rewrite <- (info_of_booking _ _ Hinfo1), <- (info_of_booking _ _ Hinfo2).
    f_equal; [done|].
    pose proof (Hties b1 b2 info1 info2 Hb1 Hb2 Hinfo1 Hinfo2) as Hs.
    rewrite <- (info_of_booking _ _ Hinfo1), <- (info_of_booking _ _ Hinfo2) in Hs.
    now apply Hs. }
  subst b2. assert (info1 = info2) as -> by congruence. done.
Qed.

Lemma no_conflicting_ties_Permutation bookings bookings' :
  bookings ≡ₚ bookings' -> no_conflicting_ties bookings ->
  no_conflicting_ties bookings'.
Proof.
  intros Hp Hties b1 b2 info1 info2 H1 H2. apply Hties; now rewrite Hp.
Qed.

(** ** The order of the distances by row *)

Lemma ltb_trans x y z :
  PyFloat.ltb x y = true -> PyFloat.ltb y z = true -> PyFloat.ltb x z = true.
Proof.
  rewrite !ltb_true_iff. intros (Hx & _ & Hxy) (_ & Hz & Hyz).
  split; [done|]. split; [done|]. eapply float_lt_trans; eauto.
Qed.

Lemma ltb_eqb_false x y : PyFloat.ltb x y = true -> PyFloat.eqb x y = false.
Proof.
  intros H. destruct (PyFloat.eqb x y) eqn:E; [|done].
  apply ltb_true_iff in H as (_ & _ & H). apply eqb_true_iff in E as (_ & _ & E).
  destruct (float_lt_irrefl _ _ H E).
Qed.

Lemma eqb_sym x y : PyFloat.eqb x y = PyFloat.eqb y x.
Proof.
  destruct (PyFloat.eqb x y) eqn:E, (PyFloat.eqb y x) eqn:E'; try done.
  - apply eqb_true_iff in E as (Hx & Hy & E). apply float_eq_sym in E.
    assert (PyFloat.eqb y x = true) by now apply eqb_true_iff. congruence.
  - apply eqb_true_iff in E' as (Hx & Hy & E'). apply float_eq_sym in E'.
    assert (PyFloat.eqb x y = true) by now apply eqb_true_iff. congruence.
Qed.

(** Seat [D] of a row is nearer than seat [D] of the next row. *)
Lemma distance_D_next r :
  (0 <= r < 2 ^ 49)%Z ->
  exists d d',
    distance_of "D" r = Ok d /\ distance_of "D" (r + 1) = Ok d'
    /\ PyFloat.ltb d d' = true.
Proof.
  intros Hr.
  destruct (columns_ordered r) as (a & b & c & d & Ha & Hb & Hc & Hd & Hba & Hcb & Hdc);
    [lia|].
  destruct (rows_ordered r) as (a' & d' & Ha' & Hd' & Had); [lia|].
  assert (a' = a) as -> by congruence.
  exists d, d'. eauto 6 using ltb_trans.
Qed.

(** Seat [D] of a row is nearer than seat [D] of every later row. *)
Lemma distance_D_increasing (n : nat) : forall r,
  (0 <= r)%Z -> (r + Z.of_nat n < 2 ^ 49)%Z ->
  exists d d',
    distance_of "D" r = Ok d /\ distance_of "D" (r + Z.of_nat n + 1) = Ok d'
    /\ PyFloat.ltb d d' = true.
Proof.
  induction n as [|n IH]; intros r H0 Hlt.
  - replace (r + Z.of_nat 0 + 1)%Z with (r + 1)%Z by lia.
    apply distance_D_next. lia.
  - destruct (IH r H0) as (d & d1 & Hd & Hd1 & Hlt1); [lia|].
    destruct (distance_D_next (r + Z.of_nat n + 1)%Z) as (d1' & d2 & Hd1' & Hd2 & Hlt2);
      [lia|].
    assert (d1' = d1) as -> by congruence.
    exists d, d2. split; [done|]. split.
    + now replace (r + Z.of_nat (S n) + 1)%Z with (r + Z.of_nat n + 1 + 1)%Z by lia.
    + eauto using ltb_trans.
Qed.

Lemma same_or_ltb_l x y z :
  same_or_ltb x y -> PyFloat.ltb y z = true -> PyFloat.ltb x z = true.
Proof. intros [->|H]; eauto using ltb_trans. Qed.

Lemma same_or_ltb_r x y z :
  PyFloat.ltb x y = true -> same_or_ltb y z -> PyFloat.ltb x z = true.
Proof. intros H [<-|H']; eauto using ltb_trans. Qed.

(** In a row below [2^49] every seat resolves, between seat [D] and seat
    [A] of the row. *)
Lemma distance_between c r :
  is_column c = true -> (0 <= r < 2 ^ 49)%Z ->
  exists a d x,
    distance_of "A" r = Ok a /\ distance_of "D" r = Ok d /\ distance_of c r = Ok x
    /\ same_or_ltb d x /\ same_or_ltb x a.
Proof.
  intros Hc Hr.
  destruct (columns_ordered r) as (a & b & c' & d & Ha & Hb & Hc' & Hd & Hba & Hcb & Hdc);
    [lia|].
  pose proof (ltb_trans _ _ _ Hcb Hba) as Hca.
  pose proof (ltb_trans _ _ _ Hdc Hcb) as Hdb.
  pose proof (ltb_trans _ _ _ Hdc Hca) as Hda.
  unfold same_or_ltb.
  destruct (is_column_cases c Hc) as [->|[->|[->| ->]]].
  - exists a, d, a. auto 10.
  - exists a, d, b. auto 10.
  - exists a, d, c'. auto 10.
  - exists a, d, d. auto 10.
Qed.

(** Below row [2^49] a seat of a row is nearer than every seat of a later
    row. *)
Lemma distance_row_order c c' r r' :
  is_column c = true -> is_column c' = true ->
  (0 <= r)%Z -> (r < r')%Z -> (r' < 2 ^ 49)%Z ->
  exists x x',
    distance_of c r = Ok x /\ distance_of c' r' = Ok x'
    /\ PyFloat.ltb x x' = true.
Proof.
  intros Hc Hc' H0 Hlt Hr'.
  destruct (distance_between c r Hc) as (a & d & x & Ha & Hd & Hx & _ & Hxa); [lia|].
  destruct (distance_between c' r' Hc') as (a' & d' & x' & Ha' & Hd' & Hx' & Hdx' & _);
    [lia|].
  destruct (rows_ordered r) as (a1 & d1 & Ha1 & Hd1 & Had); [lia|].
  assert (a1 = a) as -> by congruence.
  exists x, x'. split; [done|]. split; [done|].
  eapply same_or_ltb_l; [exact Hxa|]. eapply same_or_ltb_r; [|exact Hdx'].
  destruct (Z.eq_dec r' (r + 1)%Z) as [->|Hne].
  - assert (d1 = d') as -> by congruence. done.
  - destruct (distance_D_increasing (Z.to_nat (r' - r - 2)) (r + 1)%Z)
      as (e & e' & He & He' & Hee); [lia|lia|].
    replace (r + 1 + Z.of_nat (Z.to_nat (r' - r - 2)) + 1)%Z with r' in He' by lia.
    assert (e = d1) as -> by congruence. assert (e' = d') as -> by congruence.
    eauto using ltb_trans.
Qed.

(** In a row below [2^49] two different columns resolve to different
    distances. *)
Lemma distance_column_order c c' r :
  is_column c = true -> is_column c' = true -> c <> c' ->
  (0 <= r < 2 ^ 49)%Z ->
  exists x x',
    distance_of c r = Ok x /\ distance_of c' r = Ok x'
    /\ (PyFloat.ltb x x' = true \/ PyFloat.ltb x' x = true).
Proof.
  intros Hc Hc' Hne Hr.
  destruct (columns_ordered r) as (a & b & c0 & d & Ha & Hb & Hc0 & Hd & Hba & Hcb & Hdc);
    [lia|].
  pose proof (ltb_trans _ _ _ Hcb Hba) as Hca.
  pose proof (ltb_trans _ _ _ Hdc Hcb) as Hdb.
  pose proof (ltb_trans _ _ _ Hdc Hca) as Hda.
  destruct (is_column_cases c Hc) as [->|[->|[->| ->]]];
    destruct (is_column_cases c' Hc') as [->|[->|[->| ->]]]; try done;
    eexists; eexists; (split; [eassumption|]); (split; [eassumption|]);
    first [left; assumption|right; assumption].
Qed.

(** ** Further facts for the properties below *)

Lemma length_tl {X : Type} (l : list X) : length (tl l) = pred (length l).
Proof. now destruct l. Qed.

Lemma of_int_below r :
  (0 <= r < 2 ^ 53)%Z -> PyFloat.of_int r = Ok (PyFloat.of_Z r).
Proof.
  intros [H0 H]. destruct (Z.eq_dec r 0%Z) as [->|Hr]; [reflexivity|].
  apply of_int_small. lia.
Qed.

(** Along resolves that return, each miss adds one label to the table. *)
Lemma get_seat_distance_size seat_label self d :
  fst (get_seat_distance seat_label self) = Ok d ->
  (size (seat_cache (snd (get_seat_distance seat_label self))) + cache_misses self
   = size (seat_cache self)
     + cache_misses (snd (get_seat_distance seat_label self)))%nat.
Proof.
  unfold get_seat_distance.
  destruct (seat_cache self !! seat_label) as [d'|] eqn:E; cbn; [done|].
  destruct (_calculate_seat_distance seat_label); cbn; [|discriminate].
  intros _. rewrite map_size_insert_None by done. lia.
Qed.

Lemma seat_distances_size seats : forall self ds,
  fst (seat_distances seats self) = Ok ds ->
  (size (seat_cache (snd (seat_distances seats self))) + cache_misses self
   = size (seat_cache self) + cache_misses (snd (seat_distances seats self)))%nat.
Proof.
  induction seats as [|s seats IH]; intros self ds; cbn; [done|].
  pose proof (get_seat_distance_size s self) as H1.
  destruct (get_seat_distance s self) as [[d|e] self1]; cbn in *; [|discriminate].
  specialize (IH self1). specialize (H1 d eq_refl).
  destruct (seat_distances seats self1) as [[ds'|e] self2]; cbn in *; [|discriminate].
  intros _. specialize (IH ds' eq_refl). lia.
Qed.

Lemma push_bookings_size bookings : forall booking_data self h,
  fst (push_bookings bookings booking_data self) = Ok h ->
  (size (seat_cache (snd (push_bookings bookings booking_data self)))
   + cache_misses self
   = size (seat_cache self)
     + cache_misses (snd (push_bookings bookings booking_data self)))%nat.
Proof.
  induction bookings as [|b bookings IH]; intros h0 self h; cbn; [done|].
  pose proof (seat_distances_size (Booking.seats b) self) as H1.
  destruct (seat_distances (Booking.seats b) self) as [[ds|e] self1]; cbn in *;
    [|discriminate].
  specialize (H1 ds eq_refl).
  destruct (push_booking b ds h0) as [h1|e]; cbn; [|discriminate].
  intros Hh. specialize (IH h1 self1 h Hh). lia.
Qed.

(** What [process_bookings_with_heap] returns and leaves, from what the
    loop of the pushes returns and leaves. *)
Lemma process_ok_inv bookings self r :
  fst (process_bookings_with_heap bookings self) = Ok r ->
  exists h,
    fst (push_bookings bookings [] self) = Ok h
    /\ snd (process_bookings_with_heap bookings self)
       = snd (push_bookings bookings [] self)
    /\ cacheStats_hits r = cache_hits (snd (push_bookings bookings [] self))
    /\ cacheStats_misses r = cache_misses (snd (push_bookings bookings [] self)).
Proof.
  unfold process_bookings_with_heap.
  destruct (push_bookings bookings [] self) as [[h|e] self1]; cbn; [|discriminate].
  destruct (pop_bookings (length h) h 1 []); cbn; [|discriminate].
  intros [= <-]. cbn. eauto.
Qed.

Lemma all_digits_zeros n ds :
  all_digits ds = true -> all_digits (replicate_char n "0" ++ ds) = true.
Proof. intros H. induction n as [|n IH]; [done|]. simpl. exact IH. Qed.

Lemma length_zeros n ds :
  String.length (replicate_char n "0" ++ ds) = (n + String.length ds)%nat.
Proof. induction n as [|n IH]; [done|]. cbn. now rewrite <- IH. Qed.

Lemma int_acc_zeros n ds : int_acc 0 (replicate_char n "0" ++ ds) = int_acc 0 ds.
Proof. induction n as [|n IH]; [done|]. simpl. exact IH. Qed.

(** ** Words, lines and texts *)

Lemma plain_not_space c : plain c = true -> is_space c = false.
Proof.
  unfold plain, is_separator. intros H.
  apply andb_true_iff in H as [H _]. apply negb_true_iff, orb_false_iff in H as [H _].
  exact H.
Qed.

Lemma plain_not_separator c : plain c = true -> is_separator c = false.
Proof.
  unfold plain. intros H. apply andb_true_iff in H as [H _].
  now apply negb_true_iff in H.
Qed.

Lemma plain_not_quote c : plain c = true -> Ascii.eqb c double_quote = false.
Proof.
  unfold plain. intros H. apply andb_true_iff in H as [_ H].
  now apply negb_true_iff in H.
Qed.

Lemma plain_not_comma c : plain c = true -> Ascii.eqb c comma = false.
Proof.
  intros H. apply plain_not_separator in H. unfold is_separator in H.
  now apply orb_false_iff in H as [_ H].
Qed.

Lemma plain_not_line_feed c : plain c = true -> Ascii.eqb c line_feed = false.
Proof.
  intros H. apply plain_not_space in H.
  destruct (Ascii.eqb c line_feed) eqn:E; [|done].
  apply Ascii.eqb_eq in E as ->. discriminate.
Qed.

Lemma is_digit_plain c : is_digit c = true -> plain c = true.
Proof.
  unfold is_digit. intros H. apply andb_true_iff in H as [H1 H2].
  apply Nat.leb_le in H1, H2.
  rewrite <- (ascii_nat_embedding c).
  assert (Hn : (nat_of_ascii c - 48 < 10)%nat) by lia.
  replace (nat_of_ascii c) with (48 + (nat_of_ascii c - 48))%nat by lia.
  destruct (nat_of_ascii c - 48)%nat as [|[|[|[|[|[|[|[|[|[|n]]]]]]]]]];
    first [reflexivity|lia].
Qed.

Lemma is_column_plain c : is_column c = true -> plain c = true.
Proof.
  intros H. destruct (is_column_cases c H) as [->|[->|[->| ->]]]; reflexivity.
Qed.

Lemma all_digits_plain ds : all_digits ds = true -> string_forallb plain ds = true.
Proof.
  induction ds as [|c ds IH]; simpl; [done|].
  intros H. apply andb_true_iff in H as [Hc Hds].
  now rewrite (is_digit_plain c Hc), IH.
Qed.

(** A label of the specification is a word. *)
Lemma spec_label_word label : spec_seat_label label = true -> word label.
Proof.
  intros H. apply spec_seat_label_inv in H as (c & ds & -> & Hc & Hds & _).
  split; [done|]. simpl. now rewrite (is_column_plain c Hc), all_digits_plain.
Qed.

(** *** [strip] *)

Lemma rstrip_cons c s :
  rstrip (String c s)
  = match rstrip s with
    | EmptyString => if is_space c then EmptyString else String c EmptyString
    | String c' r => String c (String c' r)
    end.
Proof. reflexivity. Qed.

Lemma rstrip_plain s : string_forallb plain s = true -> rstrip s = s.
Proof.
  induction s as [|c s IH]; [done|].
  intros H. apply andb_true_iff in H as [Hc Hs]. rewrite rstrip_cons, (IH Hs).
  destruct s; [|done]. now rewrite (plain_not_space c Hc).
Qed.

Lemma rstrip_app a b :
  rstrip b <> EmptyString -> rstrip (a ++ b) = (a ++ rstrip b)%string.
Proof.
  intros Hb. induction a as [|c a IH]; [done|].
  change (rstrip (String c (a ++ b)) = String c (a ++ rstrip b)).
  rewrite rstrip_cons, IH. destruct (a ++ rstrip b)%string eqn:E; [|done].
  destruct a; simpl in E; [done|discriminate].
Qed.

Lemma ends_well_app a b : ends_well b -> ends_well (a ++ b).
Proof.
  intros [Hb Hne]. split.
  - rewrite rstrip_app, Hb; [done|]. now rewrite Hb.
  - destruct a; [done|discriminate].
Qed.

Lemma word_ends_well s : word s -> ends_well s.
Proof. intros [Hne Hp]. split; [now apply rstrip_plain|done]. Qed.

Lemma join_ends_well sep pieces :
  pieces <> [] -> Forall ends_well pieces -> ends_well (join sep pieces).
Proof.
  induction pieces as [|p pieces IH]; [done|]. intros _ Hall.
  apply Forall_cons in Hall as [Hp Hall].
  destruct pieces as [|q pieces]; [exact Hp|].
  change (ends_well (p ++ (sep ++ join sep (q :: pieces)))).
  apply ends_well_app, ends_well_app, IH; done.
Qed.

(** A string that [lstrip] leaves as it is. *)
Lemma lstrip_word_app s rest : word s -> lstrip (s ++ rest) = (s ++ rest)%string.
Proof.
  intros [Hne Hp]. destruct s as [|c s]; [done|]. simpl in *.
  apply andb_true_iff in Hp as [Hc _]. now rewrite (plain_not_space c Hc).
Qed.

(** *** [in], [split] and [re.split] *)

Lemma contains_app c a b : contains c (a ++ b) = contains c a || contains c b.
Proof.
  induction a as [|x a IH]; [done|].
  change (Ascii.eqb x c || contains c (a ++ b)
          = (Ascii.eqb x c || contains c a) || contains c b).
  now rewrite IH, orb_assoc.
Qed.

Lemma contains_plain c s :
  (forall x, plain x = true -> Ascii.eqb x c = false) ->
  string_forallb plain s = true -> contains c s = false.
Proof.
  intros Hc. induction s as [|x s IH]; [done|]. simpl.
  intros H. apply andb_true_iff in H as [Hx Hs]. now rewrite (Hc x Hx), IH.
Qed.

Lemma contains_join c sep pieces :
  contains c sep = false -> Forall (fun p => contains c p = false) pieces ->
  contains c (join sep pieces) = false.
Proof.
  intros Hsep. induction pieces as [|p pieces IH]; [done|]. intros Hall.
  apply Forall_cons in Hall as [Hp Hall].
  destruct pieces as [|q pieces]; [exact Hp|].
  change (contains c (p ++ (sep ++ join sep (q :: pieces))) = false).
  now rewrite !contains_app, Hp, Hsep, IH.
Qed.

Lemma split_no_sep sep s : contains sep s = false -> split sep s = [s].
Proof.
  induction s as [|c s IH]; [done|]. simpl.
  intros H. apply orb_false_iff in H as [Hc Hs]. now rewrite Hc, (IH Hs).
Qed.

Lemma split_app sep a b :
  contains sep a = false ->
  split sep (a ++ String sep b) = a :: split sep b.
Proof.
  induction a as [|c a IH]; intros H.
  - simpl. now rewrite Ascii.eqb_refl.
  - simpl in H. apply orb_false_iff in H as [Hc Ha].
    change (split sep (String c (a ++ String sep b)) = String c a :: split sep b).
    simpl. now rewrite Hc, (IH Ha).
Qed.

Lemma split_join sep pieces :
  pieces <> [] -> Forall (fun p => contains sep p = false) pieces ->
  split sep (join (String sep EmptyString) pieces) = pieces.
Proof.
  induction pieces as [|p pieces IH]; [done|]. intros _ Hall.
  apply Forall_cons in Hall as [Hp Hall].
  destruct pieces as [|q pieces]; [now apply split_no_sep|].
  change (split sep (p ++ String sep (join (String sep EmptyString) (q :: pieces)))
          = p :: q :: pieces).
  rewrite split_app by done. f_equal. now apply IH.
Qed.

(** The flag plays no role before a character that is no separator. *)
Lemma re_split_from_plain in_run c s :
  is_separator c = false ->
  re_split_from in_run (String c s) = re_split_from false (String c s).
Proof. intros H. simpl. now rewrite H. Qed.

Lemma re_split_from_word in_run s :
  string_forallb plain s = true -> s <> EmptyString ->
  re_split_from in_run s = [s].
Proof.
  intros Hp Hne. destruct s as [|c s]; [done|]. clear Hne.
  simpl in Hp. apply andb_true_iff in Hp as [Hc Hs].
  rewrite re_split_from_plain by now apply plain_not_separator.
  revert c Hc. induction s as [|c' s IH]; intros c Hc.
  - simpl. now rewrite (plain_not_separator c Hc).
  - simpl in Hs. apply andb_true_iff in Hs as [Hc' Hs].
    specialize (IH Hs c' Hc').
    change (re_split_from false (String c (String c' s)))
      with (if is_separator c
            then EmptyString :: re_split_from true (String c' s)
            else match re_split_from false (String c' s) with
                 | piece :: pieces => String c piece :: pieces
                 | [] => [String c EmptyString]
                 end).
    now rewrite (plain_not_separator c Hc), IH.
Qed.

(** A word, a separator, and what follows. *)
Lemma re_split_from_word_app in_run s sep rest :
  string_forallb plain s = true -> s <> EmptyString -> is_separator sep = true ->
  re_split_from in_run (s ++ String sep rest) = s :: re_split_from true rest.
Proof.
  intros Hp Hne Hsep. destruct s as [|c s]; [done|]. clear Hne.
  simpl in Hp. apply andb_true_iff in Hp as [Hc Hs].
  change (re_split_from in_run (String c (s ++ String sep rest))
          = String c s :: re_split_from true rest).
  rewrite re_split_from_plain by now apply plain_not_separator.
  revert c Hc. induction s as [|c' s IH]; intros c Hc.
  - simpl. now rewrite (plain_not_separator c Hc), Hsep.
  - simpl in Hs. apply andb_true_iff in Hs as [Hc' Hs].
    specialize (IH Hs c' Hc').
    change (re_split_from false (String c (String c' s ++ String sep rest)))
      with (if is_separator c
            then EmptyString
                 :: re_split_from true (String c' (s ++ String sep rest))
            else match re_split_from false (String c' (s ++ String sep rest)) with
                 | piece :: pieces => String c piece :: pieces
                 | [] => [String c EmptyString]
                 end).
    now rewrite (plain_not_separator c Hc), IH.
Qed.

(** Words joined by one separator split back into the words. *)
Lemma re_split_from_join in_run sep words :
  is_separator sep = true -> words <> [] -> Forall word words ->
  re_split_from in_run (join (String sep EmptyString) words) = words.
Proof.
  intros Hsep. revert in_run. induction words as [|w words IH]; [done|].
  intros in_run _ Hall. apply Forall_cons in Hall as [[Hne Hp] Hall].
  destruct words as [|w' words]; [now apply re_split_from_word|].
  change (re_split_from in_run
            (w ++ String sep (join (String sep EmptyString) (w' :: words)))
          = w :: w' :: words).
  rewrite re_split_from_word_app by done. f_equal. now apply IH.
Qed.

Lemma join_nonempty sep pieces :
  pieces <> [] -> Forall (fun p => p <> EmptyString) pieces ->
  join sep pieces <> EmptyString.
Proof.
  destruct pieces as [|p pieces]; [done|]. intros _ Hall.
  apply Forall_cons in Hall as [Hp _]. destruct pieces; [done|].
  change (p ++ (sep ++ join sep (s :: pieces)) <> EmptyString)%string.
  destruct p; [done|discriminate].
Qed.

(** *** A rendered line, read back *)

Lemma strip_word s : word s -> strip s = s.
Proof.
  intros Hw. unfold strip.
  pose proof (lstrip_word_app s EmptyString Hw) as H.
  rewrite string_app_nil_r in H. rewrite H. now apply rstrip_plain, Hw.
Qed.

Lemma map_strip_words words : Forall word words -> map strip words = words.
Proof.
  induction 1 as [|w words Hw _ IH]; [done|]. cbn. now rewrite strip_word, IH.
Qed.

Lemma filter_all {X : Type} (p : X -> bool) (l : list X) :
  Forall (fun x => p x = true) l -> List.filter p l = l.
Proof. induction 1 as [|x l Hx _ IH]; [done|]. cbn. now rewrite Hx, IH. Qed.

Lemma spec_label_valid label : spec_seat_label label = true -> seat_valid label = true.
Proof.
  intros H. apply spec_seat_label_inv in H as (c & ds & -> & Hc & Hds & Hne).
  unfold seat_valid. now rewrite seat_match_spec.
Qed.

Lemma span_not_char c s rest :
  contains c s = false ->
  span (fun x => negb (Ascii.eqb x c)) (s ++ String c rest) = (s, String c rest).
Proof.
  induction s as [|x s IH]; intros H.
  - simpl. now rewrite Ascii.eqb_refl.
  - simpl in H. apply orb_false_iff in H as [Hx Hs].
    change (span (fun x => negb (Ascii.eqb x c)) (String x (s ++ String c rest))
            = (String x s, String c rest)).
    simpl. now rewrite Hx, (IH Hs).
Qed.

Section rendered_line.
Variable b : Booking.t.
Hypothesis Hb : renderable b.

Lemma id_word : word (Booking.bookingId b).
Proof. exact (proj1 Hb). Qed.

Lemma seats_nonempty : Booking.seats b <> [].
Proof. exact (proj1 (proj2 Hb)). Qed.

Lemma seats_words : Forall word (Booking.seats b).
Proof.
  pose proof Hb as (_ & _ & Hs). eapply Forall_impl; [exact Hs|].
  intros s. apply spec_label_word.
Qed.

Lemma seats_str_nonempty : join "," (Booking.seats b) <> EmptyString.
Proof.
  apply join_nonempty; [exact seats_nonempty|].
  eapply Forall_impl; [exact seats_words|]. now intros s [? _].
Qed.

Lemma seats_str_contains c :
  (forall x, plain x = true -> Ascii.eqb x c = false) ->
  Ascii.eqb comma c = false ->
  contains c (join "," (Booking.seats b)) = false.
Proof.
  intros Hc Hcomma. apply contains_join.
  - change (contains c (String comma EmptyString) = false).
    cbn [contains]. now rewrite Hcomma.
  - eapply Forall_impl; [exact seats_words|].
    intros s [_ Hs]. now apply contains_plain.
Qed.

Lemma seats_str_strip : strip (join "," (Booking.seats b)) = join "," (Booking.seats b).
Proof.
  unfold strip.
  assert (Hl : lstrip (join "," (Booking.seats b)) = join "," (Booking.seats b)).
  { pose proof seats_nonempty as Hne. pose proof seats_words as Hw.
    destruct (Booking.seats b) as [|s seats]; [done|].
    apply Forall_cons in Hw as [Hs _].
    destruct seats as [|s' seats].
    - pose proof (lstrip_word_app s EmptyString Hs) as H.
      now rewrite string_app_nil_r in H.
    - exact (lstrip_word_app s _ Hs). }
  rewrite Hl. apply join_ends_well; [exact seats_nonempty|].
  eapply Forall_impl; [exact seats_words|]. intros s. apply word_ends_well.
Qed.

Lemma render_line_eq :
  render_line b
  = (Booking.bookingId b
     ++ String comma (String double_quote (join "," (Booking.seats b) ++ quote)))%string.
Proof. reflexivity. Qed.

Lemma render_line_ends_well : ends_well (render_line b).
Proof.
  rewrite render_line_eq.
  change (String comma (String double_quote ?s)) with ("," ++ (quote ++ s))%string.
  apply ends_well_app, ends_well_app, ends_well_app, ends_well_app. split; done.
Qed.

Lemma render_line_strip : strip (render_line b) = render_line b.
Proof.
  unfold strip. rewrite render_line_eq, lstrip_word_app by exact id_word.
  rewrite <- render_line_eq. apply render_line_ends_well.
Qed.

Lemma render_line_line_feed : contains line_feed (render_line b) = false.
Proof.
  rewrite render_line_eq, contains_app.
  rewrite (contains_plain line_feed _ plain_not_line_feed) by apply id_word.
  cbn [contains orb].
  change (Ascii.eqb comma line_feed) with false.
  change (Ascii.eqb double_quote line_feed) with false. cbn [orb].
  rewrite contains_app, seats_str_contains; [done|apply plain_not_line_feed|done].
Qed.

Lemma render_line_quote : contains double_quote (render_line b) = true.
Proof.
  rewrite render_line_eq, contains_app. cbn [contains].
  rewrite Ascii.eqb_refl. now rewrite !orb_true_r.
Qed.

Lemma render_line_csv_match :
  csv_match (render_line b) = Some (Booking.bookingId b, join "," (Booking.seats b)).
Proof.
  unfold csv_match. rewrite render_line_eq.
  rewrite span_not_char
    by (apply (contains_plain comma _ plain_not_comma), id_word).
  pose proof id_word as [Hid _].
  destruct (Booking.bookingId b) as [|c' id] eqn:Eid; [done|].
  change (lstrip (String double_quote ?s)) with (String double_quote s).
  cbv beta iota. rewrite Ascii.eqb_refl.
  unfold quote. rewrite span_not_char
    by (apply seats_str_contains; [apply plain_not_quote|done]).
  pose proof seats_str_nonempty as Hj.
  destruct (join "," (Booking.seats b)); done.
Qed.

Lemma render_line_fields re_bound :
  line_fields (render_line b) re_bound
  = Ok (Some (Booking.bookingId b, join "," (Booking.seats b)), true).
Proof.
  unfold line_fields.
  rewrite render_line_quote, render_line_csv_match.
  now rewrite (strip_word _ id_word), seats_str_strip.
Qed.

Lemma render_line_seats :
  List.filter seat_valid (seats_of (join "," (Booking.seats b))) = Booking.seats b.
Proof.
  unfold seats_of, re_split.
  change (join "," (Booking.seats b))
    with (join (String comma EmptyString) (Booking.seats b)).
  rewrite re_split_from_join; [|reflexivity|exact seats_nonempty|exact seats_words].
  rewrite map_strip_words by exact seats_words.
  rewrite (filter_all nonempty (Booking.seats b)).
  - apply filter_all. pose proof Hb as (_ & _ & Hs).
    eapply Forall_impl; [exact Hs|]. intros s. apply spec_label_valid.
  - eapply Forall_impl; [exact seats_words|]. intros s [Hne _]. now destruct s.
Qed.

Lemma add_booking_render bookings (booking_ids : gset string) :
  Booking.bookingId b ∉ booking_ids ->
  add_booking (Booking.bookingId b) (join "," (Booking.seats b)) (bookings, booking_ids)
  = (bookings ++ [b], {[ Booking.bookingId b ]} ∪ booking_ids).
Proof.
  intros Hnew. unfold add_booking.
  pose proof id_word as [Hid _].
  destruct (Booking.bookingId b) as [|c' id] eqn:Eid; [done|]. cbn [nonempty negb orb].
  pose proof seats_str_nonempty as Hj.
  destruct (join "," (Booking.seats b)) as [|c'' js] eqn:Ej; [done|].
  cbn [nonempty negb]. rewrite bool_decide_eq_false_2 by done.
  rewrite <- Ej, render_line_seats.
  pose proof seats_nonempty as Hseats.
  destruct (Booking.seats b) as [|s seats] eqn:Es; [done|].
  rewrite <- Es, <- Eid. destruct b; done.
Qed.

Lemma parse_line_render bookings (booking_ids : gset string) re_bound :
  Booking.bookingId b ∉ booking_ids ->
  parse_line (render_line b) (bookings, booking_ids, re_bound)
  = Ok (bookings ++ [b], {[ Booking.bookingId b ]} ∪ booking_ids, true).
Proof.
  intros Hnew. unfold parse_line. rewrite render_line_strip.
  pose proof render_line_ends_well as [_ Hne].
  destruct (render_line b) as [|c line] eqn:Eline; [done|]. cbn [nonempty negb].
  rewrite <- Eline, render_line_fields. now rewrite add_booking_render.
Qed.

End rendered_line.

(** *** A rendered text, read back *)

Lemma parse_lines_render bookings : forall acc (booking_ids : gset string) re_bound,
  Forall renderable bookings ->
  NoDup (map Booking.bookingId bookings) ->
  (forall b, b ∈ bookings -> Booking.bookingId b ∉ booking_ids) ->
  exists state,
    parse_lines (map render_line bookings) (acc, booking_ids, re_bound) = Ok state
    /\ state.1.1 = acc ++ bookings.
Proof.
  induction bookings as [|b bookings IH]; intros acc ids re_bound Hall Hnd Hnew.
  - eexists. split; [reflexivity|]. cbn. now rewrite app_nil_r.
  - apply Forall_cons in Hall as [Hb Hall]. cbn in Hnd.
    apply NoDup_cons in Hnd as [Hnotin Hnd].
    cbn [map parse_lines for_each].
    rewrite parse_line_render; [|done|apply Hnew, list_elem_of_here].
    cbn [mbind result_bind].
    destruct (IH (acc ++ [b]) ({[ Booking.bookingId b ]} ∪ ids) true Hall Hnd)
      as (state & Hstate & Hbookings).
    + intros b' Hb'. rewrite elem_of_union, elem_of_singleton. intros [Heq|Hin].
      * apply Hnotin. rewrite <- Heq. now apply list_elem_of_fmap_2.
      * eapply Hnew; [|exact Hin]. now apply list_elem_of_further.
    + exists state. split; [exact Hstate|]. now rewrite Hbookings, <- app_assoc.
Qed.

(** *** When the parser raises *)

(** Once [re] is bound, no line raises, and [re] stays bound. *)
Lemma line_fields_bound line :
  exists fields, line_fields line true = Ok (fields, true).
Proof.
  unfold line_fields. cbn [negb]. repeat case_match; eauto.
Qed.

Lemma parse_line_bound raw store :
  exists store', parse_line raw (store, true) = Ok (store', true).
Proof.
  unfold parse_line. destruct (negb (nonempty (strip raw))); [eauto|].
  destruct (line_fields_bound (strip raw)) as [fields ->].
  destruct fields as [[booking_id seats_str]|]; eauto.
Qed.

Lemma parse_lines_bound lines : forall store,
  exists store', parse_lines lines (store, true) = Ok (store', true).
Proof.
  induction lines as [|raw lines IH]; intros store; [cbn; eauto|].
  cbn [parse_lines for_each].
  destruct (parse_line_bound raw store) as [store' ->].
  cbn [mbind result_bind]. apply IH.
Qed.

(** A blank line changes nothing; the first line that is not blank binds
    [re] if it has a double quote, and raises if it has none. *)
Lemma parse_line_blank raw state :
  nonempty (strip raw) = false -> parse_line raw state = Ok state.
Proof. destruct state as [store re_bound]. unfold parse_line. now intros ->. Qed.

Lemma parse_line_quoted raw store re_bound :
  nonempty (strip raw) = true -> contains double_quote (strip raw) = true ->
  exists store', parse_line raw (store, re_bound) = Ok (store', true).
Proof.
  intros Hne Hq. unfold parse_line, line_fields. rewrite Hne, Hq. cbn [negb].
  repeat case_match; simplify_eq; eauto.
Qed.

Lemma parse_line_unbound raw store :
  nonempty (strip raw) = true -> contains double_quote (strip raw) = false ->
  parse_line raw (store, false) = Raise UnboundLocalError.
Proof.
  intros Hne Hq. unfold parse_line, line_fields. now rewrite Hne, Hq.
Qed.

Lemma parse_lines_first lines : forall store,
  match List.find nonempty (map strip lines) with
  | None => parse_lines lines (store, false) = Ok (store, false)
  | Some line =>
      if contains double_quote line
      then exists store', parse_lines lines (store, false) = Ok (store', true)
      else parse_lines lines (store, false) = Raise UnboundLocalError
  end.
Proof.
  induction lines as [|raw lines IH]; intros store; cbn [map List.find]; [done|].
  destruct (nonempty (strip raw)) eqn:Hne.
  - destruct (contains double_quote (strip raw)) eqn:Hq.
    + destruct (parse_line_quoted raw store false Hne Hq) as [store' H].
      cbn [parse_lines for_each]. rewrite H. cbn [mbind result_bind].
      apply parse_lines_bound.
    + cbn [parse_lines for_each]. now rewrite parse_line_unbound.
  - cbn [parse_lines for_each]. rewrite parse_line_blank by done.
    cbn [mbind result_bind]. apply IH.
Qed.

(* ===================================================================== *)
(** * Part V: properties of the code beyond the claims *)
(* ===================================================================== *)

(** ** The parser *)

(** Examples: the parser on the texts of the tests.  A text whose first
    line after the header has no double quote raises [UnboundLocalError]:
    the loop reads [re] before it has imported it. *)
Example parse_standard_format :
  parse_booking_data standard_data = Raise UnboundLocalError.
Proof. vm_compute. reflexivity. Qed.

Example parse_space_separated :
  parse_booking_data
    ("Booking_ID Seats" ++ newline ++ "101 A1 B1" ++ newline ++ "120 A20 C2")
  = Raise UnboundLocalError.
Proof. vm_compute. reflexivity. Qed.

Example parse_csv_format :
  parse_booking_data csv_data
  = Ok [booking "101" ["A1"; "B1"]; booking "120" ["A20"; "C2"]].
Proof. vm_compute. reflexivity. Qed.

Example parse_mixed_formats :
  parse_booking_data mixed_data
  = Ok [booking "101" ["A1"; "B1"]; booking "120" ["A20"; "C2"];
        booking "130" ["D15"; "C15"]].
Proof. vm_compute. reflexivity. Qed.

Example parse_duplicate_ids :
  parse_booking_data duplicate_data
  = Ok [booking "101" ["A1"; "B1"]; booking "120" ["A20"; "C2"]].
Proof. vm_compute. reflexivity. Qed.

(** X1: where [parse_booking_data] returns, the bookings it returns have
    pairwise distinct ids, whatever the text. *)
Theorem X1_parse_ids_distinct (data : string) (bookings : list Booking.t) :
  parse_booking_data data = Ok bookings ->
  NoDup (map Booking.bookingId bookings).
Proof. intros H. exact (proj2 (parse_booking_data_invariant data bookings H)). Qed.

(** X1 on a text with two lines under the id [101]. *)
Lemma X1_parse_ids_distinct_witness :
  parse_booking_data duplicate_data
  = Ok [booking "101" ["A1"; "B1"]; booking "120" ["A20"; "C2"]]
  /\ NoDup (map Booking.bookingId
              [booking "101" ["A1"; "B1"]; booking "120" ["A20"; "C2"]]).
Proof.
  assert (H : parse_booking_data duplicate_data
              = Ok [booking "101" ["A1"; "B1"]; booking "120" ["A20"; "C2"]])
    by (vm_compute; reflexivity).
  split; [exact H|]. exact (X1_parse_ids_distinct duplicate_data _ H).
Defined.

(** X2: on a text of characters below 256, where [\d] is [[0-9]], every
    booking that [parse_booking_data] returns has an id that is not empty
    and at least one seat, and each of its seats is a label of
    [^[A-D][0-9]+$] with nothing after it: the line feed that the pattern
    of the code lets through never reaches the sequencer from the parser. *)
Theorem X2_parse_well_formed (data : string) (bookings : list Booking.t) :
  parse_booking_data data = Ok bookings ->
  Forall (fun b =>
            Booking.bookingId b <> EmptyString
            /\ Booking.seats b <> []
            /\ Forall (fun seat => spec_seat_label seat = true) (Booking.seats b))
         bookings.
Proof. intros H. exact (proj1 (parse_booking_data_invariant data bookings H)). Qed.

(** X2 on the text of the test with quoted lines. *)
Lemma X2_parse_well_formed_witness :
  parse_booking_data csv_data
  = Ok [booking "101" ["A1"; "B1"]; booking "120" ["A20"; "C2"]]
  /\ Forall (fun b =>
               Booking.bookingId b <> EmptyString
               /\ Booking.seats b <> []
               /\ Forall (fun seat => spec_seat_label seat = true) (Booking.seats b))
            [booking "101" ["A1"; "B1"]; booking "120" ["A20"; "C2"]].
Proof.
  assert (H : parse_booking_data csv_data
              = Ok [booking "101" ["A1"; "B1"]; booking "120" ["A20"; "C2"]])
    by (vm_compute; reflexivity).
  split; [exact H|]. exact (X2_parse_well_formed csv_data _ H).
Defined.

(** X3: where [parse_booking_data] returns, it returns at most one booking
    per line after the first: no more bookings than the text has line
    feeds.  A text of one line, which is taken for the header, yields
    none. *)
Theorem X3_parse_length (data : string) (bookings : list Booking.t) :
  parse_booking_data data = Ok bookings ->
  (length bookings <= occurrences line_feed data)%nat.
Proof.
  unfold parse_booking_data.
  destruct (parse_lines (tl (split line_feed (strip data))) ([], ∅, false))
    as [state|e] eqn:E; cbn; [|done].
  intros [= <-]. pose proof (parse_lines_length _ _ _ E) as H.
  cbn [fst length] in H. rewrite length_tl, split_length in H. cbn [pred] in H.
  pose proof (occurrences_strip line_feed data). lia.
Qed.

(** X3 on the text of the test with quoted lines: two bookings, two line
    feeds. *)
Lemma X3_parse_length_witness :
  parse_booking_data csv_data
  = Ok [booking "101" ["A1"; "B1"]; booking "120" ["A20"; "C2"]]
  /\ (length [booking "101" ["A1"; "B1"]; booking "120" ["A20"; "C2"]]
      <= occurrences line_feed csv_data)%nat.
Proof.
  assert (H : parse_booking_data csv_data
              = Ok [booking "101" ["A1"; "B1"]; booking "120" ["A20"; "C2"]])
    by (vm_compute; reflexivity).
  split; [exact H|]. exact (X3_parse_length csv_data _ H).
Defined.

(** X4: where [parse_booking_data] returns, [generate_boarding_sequence] on
    its bookings, from a consistent table, has one of three outcomes.  It
    returns the bookings in order (one entry each, with the maximum and
    minimum of the distances of its seats, by [maxDistance] descending and
    then [bookingId] ascending, numbered from 1).  Or it raises the
    [ValueError] of [int], because a seat has a row of more than 4300
    digits.  Or it raises [OverflowError], because a seat has a row of
    [2^1024 - 2^970] or more.  It never raises the [ValueError] of a seat
    format or of [max], nor the [TypeError] of the heap. *)
Theorem X4_parse_then_sequence (data : string) (bookings : list Booking.t)
    (self : processor) :
  cache_consistent self ->
  parse_booking_data data = Ok bookings ->
  (exists r,
     fst (generate_boarding_sequence bookings self) = Ok r
     /\ sequenced bookings (boardingSequence r)
     /\ totalBookings r = length bookings)
  \/ (fst (generate_boarding_sequence bookings self)
      = Raise ValueError_int_max_str_digits
      /\ exists b c ds,
           b ∈ bookings /\ String c ds ∈ Booking.seats b
           /\ (int_max_str_digits < String.length ds)%nat)
  \/ (fst (generate_boarding_sequence bookings self) = Raise OverflowError
      /\ exists b c ds,
           b ∈ bookings /\ String c ds ∈ Booking.seats b
           /\ (String.length ds <= int_max_str_digits)%nat
           /\ (float_overflow <= int_value ds)%Z).
Proof.
  intros Hc Hparse.
  destruct (parse_booking_data_invariant data bookings Hparse) as [Hwf Hnd].
  pose proof (distinct_ids_no_conflicting_ties _ Hnd) as Hties.
  unfold generate_boarding_sequence.
  destruct (fst (process_bookings_with_heap bookings self)) as [r|e] eqn:Hr.
  - left. exists r. split; [done|].
    destruct (process_bookings_sequenced _ self r Hc Hr) as (Hs & Htb & _). done.
  - right. destruct (process_raise_info _ self e Hc Hties Hr) as (b & Hb & Hinfo).
    rewrite Forall_forall in Hwf. destruct (Hwf b Hb) as (_ & Hne & Hseats).
    destruct (info_of_raise_inv b e Hne Hinfo) as (seat & Hin & Hseat).
    rewrite Forall_forall in Hseats.
    destruct (spec_label_raise seat e (Hseats seat Hin) Hseat)
      as (c & ds & -> & [[-> Hlen]|(-> & Hlen & Hge)]).
    + left. split; [done|]. exists b, c, ds. done.
    + right. split; [done|]. exists b, c, ds. done.
Qed.

(** X4 on the text of the test with quoted lines, from a new processor. *)
Lemma X4_parse_then_sequence_witness :
  cache_consistent __init__
  /\ parse_booking_data csv_data
     = Ok [booking "101" ["A1"; "B1"]; booking "120" ["A20"; "C2"]]
  /\ ((exists r,
         fst (generate_boarding_sequence
                [booking "101" ["A1"; "B1"]; booking "120" ["A20"; "C2"]] __init__)
         = Ok r
         /\ sequenced [booking "101" ["A1"; "B1"]; booking "120" ["A20"; "C2"]]
                      (boardingSequence r)
         /\ totalBookings r
            = length [booking "101" ["A1"; "B1"]; booking "120" ["A20"; "C2"]])
      \/ (fst (generate_boarding_sequence
                 [booking "101" ["A1"; "B1"]; booking "120" ["A20"; "C2"]] __init__)
          = Raise ValueError_int_max_str_digits
          /\ exists b c ds,
               b ∈ [booking "101" ["A1"; "B1"]; booking "120" ["A20"; "C2"]]
               /\ String c ds ∈ Booking.seats b
               /\ (int_max_str_digits < String.length ds)%nat)
      \/ (fst (generate_boarding_sequence
                 [booking "101" ["A1"; "B1"]; booking "120" ["A20"; "C2"]] __init__)
          = Raise OverflowError
          /\ exists b c ds,
               b ∈ [booking "101" ["A1"; "B1"]; booking "120" ["A20"; "C2"]]
               /\ String c ds ∈ Booking.seats b
               /\ (String.length ds <= int_max_str_digits)%nat
               /\ (float_overflow <= int_value ds)%Z)).
Proof.
  assert (H : parse_booking_data csv_data
              = Ok [booking "101" ["A1"; "B1"]; booking "120" ["A20"; "C2"]])
    by (vm_compute; reflexivity).
  split; [exact init_consistent|]. split; [exact H|].
  exact (X4_parse_then_sequence csv_data _ __init__ init_consistent H).
Defined.

(** X16: [parse_booking_data] raises nothing but [UnboundLocalError], and
    raises it exactly when the first line after the header that is not
    blank has no double quote: its loop imports [re] in the branch of the
    lines with a double quote, and reads it in the other.  With no such
    line the result is the empty list. *)
Theorem X16_parse_unbound_re (data : string) :
  match first_data_line data with
  | None => parse_booking_data data = Ok []
  | Some line =>
      if contains double_quote line
      then exists bookings, parse_booking_data data = Ok bookings
      else parse_booking_data data = Raise UnboundLocalError
  end.
Proof.
  unfold first_data_line, parse_booking_data.
  pose proof (parse_lines_first (tl (split line_feed (strip data))) ([], ∅)) as H.
  destruct (List.find nonempty (map strip (tl (split line_feed (strip data)))))
    as [line|].
  - destruct (contains double_quote line).
    + destruct H as [store' ->]. cbn. eauto.
    + now rewrite H.
  - now rewrite H.
Qed.

(** ** The legacy resolver *)

(** X5: [_legacy_calculate_seat_distance] fails on the labels on which
    [_calculate_seat_distance] fails, with the same exception, and returns
    where it returns; on column [C] the two return the same distance; the
    legacy distance of column [B] is that of column [A], and that of column
    [D] is that of column [C]. *)
Theorem X5_legacy_agreement :
  (forall label e,
     _legacy_calculate_seat_distance label = Raise e
     <-> _calculate_seat_distance label = Raise e)
  /\ (forall label,
        is_ok (_legacy_calculate_seat_distance label)
        = is_ok (_calculate_seat_distance label))
  /\ (forall ds,
        _legacy_calculate_seat_distance (String "C" ds)
        = _calculate_seat_distance (String "C" ds))
  /\ (forall ds d,
        _legacy_calculate_seat_distance (String "A" ds) = Ok d
        <-> _legacy_calculate_seat_distance (String "B" ds) = Ok d)
  /\ (forall ds d,
        _legacy_calculate_seat_distance (String "C" ds) = Ok d
        <-> _legacy_calculate_seat_distance (String "D" ds) = Ok d).
Proof.
  split; [exact legacy_raise_iff|]. split; [|split; [|split]].
  - intros label. pose proof (legacy_raise_iff label) as H.
    destruct (_legacy_calculate_seat_distance label) as [d|e],
      (_calculate_seat_distance label) as [d'|e']; cbn; try done.
    + pose proof (proj2 (H e') eq_refl). discriminate.
    + pose proof (proj1 (H e) eq_refl). discriminate.
  - intros ds. unfold _legacy_calculate_seat_distance, _calculate_seat_distance.
    destruct (seat_match (String "C" ds)) as [[c ds']|] eqn:E; [|done].
    apply seat_match_column in E as ->. reflexivity.
  - intros ds d. unfold _legacy_calculate_seat_distance, seat_match.
    change (is_column "A") with true. change (is_column "B") with true.
    cbv iota. destruct (span_digits ds) as [pre tl]. destruct pre; [done|].
    destruct (at_dollar tl); done.
  - intros ds d. unfold _legacy_calculate_seat_distance, seat_match.
    change (is_column "C") with true. change (is_column "D") with true.
    cbv iota. destruct (span_digits ds) as [pre tl]. destruct pre; [done|].
    destruct (at_dollar tl); done.
Qed.

(** X6: the two resolvers order the columns of a row differently.  For the
    digits of a row below [2^49], at most 4300 of them,
    [_calculate_seat_distance] puts seat [A] farther than seat [C], and
    [_legacy_calculate_seat_distance] puts seat [C] farther than seat [A],
    whose legacy distance is the row itself. *)
Theorem X6_legacy_order (ds : string) :
  all_digits ds = true -> ds <> EmptyString ->
  (String.length ds <= int_max_str_digits)%nat -> (int_value ds < 2 ^ 49)%Z ->
  exists a c c',
    _calculate_seat_distance (String "A" ds) = Ok a
    /\ _calculate_seat_distance (String "C" ds) = Ok c
    /\ PyFloat.ltb c a = true
    /\ _legacy_calculate_seat_distance (String "A" ds) = Ok (PyFloat.of_Z (int_value ds))
    /\ _legacy_calculate_seat_distance (String "C" ds) = Ok c'
    /\ PyFloat.ltb (PyFloat.of_Z (int_value ds)) c' = true.
Proof.
  intros Hds Hne Hlen Hlt. pose proof (int_nonneg ds Hds) as H0.
  destruct (columns_ordered (int_value ds))
    as (a & b & c & d & Ha & Hb & Hc & Hd & Hba & Hcb & Hdc); [lia|].
  assert (HmA := seat_match_spec "A" ds eq_refl Hds Hne).
  assert (HmC := seat_match_spec "C" ds eq_refl Hds Hne).
  assert (Hof : PyFloat.of_int (int_value ds) = Ok (PyFloat.of_Z (int_value ds))).
  { apply of_int_below. lia. }
  assert (Hd' : d = PyFloat.of_Z (int_value ds)).
  { unfold distance_of in Hd. rewrite Hof in Hd. cbn in Hd. injection Hd as <-.
    apply add_zero_of_Z. lia. }
  exists a, c, c.
  split; [now rewrite (calculate_seat_match_short _ _ _ HmA Hlen)|].
  split; [now rewrite (calculate_seat_match_short _ _ _ HmC Hlen)|].
  split; [eauto using ltb_trans|].
  split; [rewrite (legacy_seat_match _ _ _ HmA), (int_short _ Hlen); cbn;
          rewrite Hof; reflexivity|].
  split; [|now rewrite <- Hd'].
  rewrite (legacy_seat_match _ _ _ HmC), (int_short _ Hlen). exact Hc.
Qed.

(** X6 on row 10. *)
Lemma X6_legacy_order_witness :
  exists a c c',
    _calculate_seat_distance "A10" = Ok a
    /\ _calculate_seat_distance "C10" = Ok c
    /\ PyFloat.ltb c a = true
    /\ _legacy_calculate_seat_distance "A10" = Ok (PyFloat.of_Z (int_value "10"))
    /\ _legacy_calculate_seat_distance "C10" = Ok c'
    /\ PyFloat.ltb (PyFloat.of_Z (int_value "10")) c' = true.
Proof.
  apply (X6_legacy_order "10");
    [reflexivity|discriminate|apply Nat.leb_le; reflexivity|reflexivity].
Defined.

(** ** The state of the processor *)

(** X7: in every state that calls of [get_seat_distance],
    [calculate_seat_distance], [process_bookings_with_heap],
    [generate_boarding_sequence] and [clear_cache] reach from a new
    processor, whether the calls return or raise, each distance in the memo
    table is the one that [_calculate_seat_distance] computes for its
    label, and the table holds no more labels than [cache_misses] counts. *)
Theorem X7_reachable_invariant (self : processor) :
  reachable self ->
  (forall seat_label d,
     seat_cache self !! seat_label = Some d ->
     _calculate_seat_distance seat_label = Ok d)
  /\ (size (seat_cache self) <= cache_misses self)%nat.
Proof.
  set (P := fun self : processor =>
              cache_consistent self
              /\ (size (seat_cache self) <= cache_misses self)%nat).
  assert (Hget : forall seat_label self, P self ->
            P (snd (get_seat_distance seat_label self))).
  { intros l s [Hc Hs]. split.
    - now apply get_seat_distance_spec.
    - pose proof (lookups_size _ _ _ (get_seat_distance_lookups l s)). lia. }
  change (reachable self -> P self).
  induction 1 as [|l s _ IH|l s _ IH|bs s _ IH|bs s _ IH|s _ IH].
  - split; [exact init_consistent|]. cbn. rewrite map_size_empty. lia.
  - now apply Hget.
  - now apply Hget.
  - now apply process_preserves.
  - now apply process_preserves.
  - split; [apply clear_cache_consistent|]. cbn. rewrite map_size_empty. lia.
Qed.

(** X7 on the state after a batch with a seat that does not resolve. *)
Lemma X7_reachable_invariant_witness :
  reachable (snd (process_bookings_with_heap [booking "1" ["A1"; "Z99"]] __init__))
  /\ (forall seat_label d,
        seat_cache (snd (process_bookings_with_heap
                           [booking "1" ["A1"; "Z99"]] __init__)) !! seat_label
        = Some d ->
        _calculate_seat_distance seat_label = Ok d)
  /\ (size (seat_cache (snd (process_bookings_with_heap
                               [booking "1" ["A1"; "Z99"]] __init__)))
      <= cache_misses (snd (process_bookings_with_heap
                              [booking "1" ["A1"; "Z99"]] __init__)))%nat.
Proof.
  assert (H : reachable (snd (process_bookings_with_heap
                                [booking "1" ["A1"; "Z99"]] __init__))).
  { apply reachable_process_bookings_with_heap, reachable_init. }
  split; [exact H|]. exact (X7_reachable_invariant _ H).
Defined.

(** X8: when [process_bookings_with_heap] returns, it has looked up every
    seat of the batch once: [cache_hits + cache_misses] went up by
    [totalPassengers]; neither counter went down; [cacheStats] reports the
    counters as they are after the call; the table kept what it held, holds
    every seat of the batch, and grew by one label per miss. *)
Theorem X8_sequence_counters (bookings : list Booking.t) (self : processor)
    (r : sequencing_result) :
  fst (process_bookings_with_heap bookings self) = Ok r ->
  let self' := snd (process_bookings_with_heap bookings self) in
  (cache_hits self' + cache_misses self'
   = cache_hits self + cache_misses self + totalPassengers r)%nat
  /\ (cache_hits self <= cache_hits self')%nat
  /\ (cache_misses self <= cache_misses self')%nat
  /\ cacheStats_hits r = cache_hits self'
  /\ cacheStats_misses r = cache_misses self'
  /\ seat_cache self ⊆ seat_cache self'
  /\ (forall b seat, b ∈ bookings -> seat ∈ Booking.seats b ->
        is_Some (seat_cache self' !! seat))
  /\ (size (seat_cache self') + cache_misses self
      = size (seat_cache self) + cache_misses self')%nat.
Proof.
  intros Hr self'.
  destruct (process_ok_inv bookings self r Hr) as (h & Hh & Hsnd & Hhits & Hmisses).
  destruct (process_lookups bookings self) as (n & _ & Hl & Hn).
  rewrite Hr in Hn. specialize (Hn eq_refl).
  destruct (process_totals bookings self r Hr) as [_ Htp].
  rewrite <- Htp in Hn. subst n. destruct Hl as [Ht Hhi Hmi Hca Hsz].
  fold self' in Ht, Hhi, Hmi, Hca, Hsz.
  assert (Heq : self' = snd (push_bookings bookings [] self)) by exact Hsnd.
  split; [exact Ht|]. split; [exact Hhi|]. split; [exact Hmi|].
  split; [now rewrite Heq|]. split; [now rewrite Heq|]. split; [exact Hca|].
  split.
  - intros b seat Hb Hs. rewrite Heq. eapply push_bookings_cached; eauto.
  - rewrite Heq. eapply push_bookings_size; eauto.
Qed.

(** X8 on the batch of the specification, from a new processor. *)
Lemma X8_sequence_counters_witness :
  exists r,
    fst (process_bookings_with_heap scenario __init__) = Ok r
    /\ let self' := snd (process_bookings_with_heap scenario __init__) in
       (cache_hits self' + cache_misses self'
        = cache_hits __init__ + cache_misses __init__ + totalPassengers r)%nat
       /\ (cache_hits __init__ <= cache_hits self')%nat
       /\ (cache_misses __init__ <= cache_misses self')%nat
       /\ cacheStats_hits r = cache_hits self'
       /\ cacheStats_misses r = cache_misses self'
       /\ seat_cache __init__ ⊆ seat_cache self'
       /\ (forall b seat, b ∈ scenario -> seat ∈ Booking.seats b ->
             is_Some (seat_cache self' !! seat))
       /\ (size (seat_cache self') + cache_misses __init__
           = size (seat_cache __init__) + cache_misses self')%nat.
Proof.
  eexists. split; [vm_compute; reflexivity|].
  eapply (X8_sequence_counters scenario __init__). vm_compute. reflexivity.
Defined.

(** X9: a label that does not resolve is never put in the table: from a
    consistent table each of [n] resolves of it raises the same exception,
    counts as a miss, and leaves the table and [cache_hits] as they are. *)
Theorem X9_failing_label_not_cached (self : processor) (seat_label : string)
    (e : exn) (n : nat) :
  cache_consistent self ->
  _calculate_seat_distance seat_label = Raise e ->
  resolve_times n seat_label self
  = (replicate n (Raise e),
     {| seat_cache := seat_cache self;
        cache_hits := cache_hits self;
        cache_misses := cache_misses self + n |}).
Proof.
  intros Hc He. revert self Hc. induction n as [|n IH]; intros self Hc; cbn.
  - destruct self; cbn. now rewrite Nat.add_0_r.
  - rewrite (get_seat_distance_failing _ _ _ Hc He).
    rewrite IH; cbn.
    + do 2 f_equal. lia.
    + intros l d Hl. now apply Hc.
Qed.

(** X9 on the label [Z99], three times, from a new processor. *)
Lemma X9_failing_label_not_cached_witness :
  cache_consistent __init__
  /\ _calculate_seat_distance "Z99" = Raise (ValueError_invalid_seat "Z99")
  /\ resolve_times 3 "Z99" __init__
     = (replicate 3 (Raise (ValueError_invalid_seat "Z99")),
        {| seat_cache := seat_cache __init__;
           cache_hits := cache_hits __init__;
           cache_misses := cache_misses __init__ + 3 |}).
Proof.
  assert (He : _calculate_seat_distance "Z99" = Raise (ValueError_invalid_seat "Z99"))
    by (vm_compute; reflexivity).
  split; [exact init_consistent|]. split; [exact He|].
  exact (X9_failing_label_not_cached __init__ "Z99" _ 3 init_consistent He).
Defined.

(** ** The sequencer *)

(** X10: the boarding sequence does not depend on the order in which the
    batch lists its bookings, nor on what the memo tables hold: two batches
    with the same eligible bookings, free of conflicting ties, get the same
    entries with the same sequence numbers, from any two consistent
    tables. *)
Theorem X10_order_of_input (bookings bookings' : list Booking.t)
    (self self' : processor) :
  cache_consistent self -> cache_consistent self' ->
  Forall eligible bookings -> no_conflicting_ties bookings ->
  bookings ≡ₚ bookings' ->
  exists r r',
    fst (process_bookings_with_heap bookings self) = Ok r
    /\ fst (process_bookings_with_heap bookings' self') = Ok r'
    /\ boardingSequence r = boardingSequence r'
    /\ totalBookings r = totalBookings r'
    /\ totalPassengers r = totalPassengers r'.
Proof.
  intros Hc Hc' Hel Hties Hp.
  assert (Hel' : Forall eligible bookings') by now rewrite <- Hp.
  pose proof (no_conflicting_ties_Permutation _ _ Hp Hties) as Hties'.
  destruct (process_bookings_total bookings self Hc Hel Hties) as [r Hr].
  destruct (process_bookings_total bookings' self' Hc' Hel' Hties') as [r' Hr'].
  exists r, r'. split; [done|]. split; [done|].
  destruct (process_bookings_spec item_key_ok (fun a H => H) bookings self Hc)
    as [_ Hspec].
  { intros b info _. apply info_of_key_ok. }
  destruct (process_bookings_spec item_key_ok (fun a H => H) bookings' self' Hc')
    as [_ Hspec'].
  { intros b info _. apply info_of_key_ok. }
  rewrite Hr in Hspec. rewrite Hr' in Hspec'.
  destruct Hspec as (infos & items & Hinfos & Hitems & Hsorted & -> & -> & ->).
  destruct Hspec' as (infos' & items' & Hinfos' & Hitems' & Hsorted' & -> & -> & ->).
  split; [|split].
  - f_equal. apply (sorted_Permutation_eq item_le); auto.
    + intros a b Ha Hb. apply (item_le_antisym bookings); auto.
      * rewrite Hitems in Ha. apply list_elem_of_fmap in Ha as (info & -> & Hin).
        destruct (Forall2_info_in _ _ Hinfos info Hin) as (b0 & Hb0 & Hi).
        exists b0, info. auto.
      * rewrite Hitems in Hb. apply list_elem_of_fmap in Hb as (info & -> & Hin).
        destruct (Forall2_info_in _ _ Hinfos info Hin) as (b0 & Hb0 & Hi).
        exists b0, info. auto.
    + rewrite Hitems, Hitems'. apply Permutation_map.
      eapply Forall2_info_Permutation; eauto.
  - now rewrite Hp.
  - now rewrite Hp.
Qed.

(** X10 on the batch of the specification and the same batch reversed, the
    second from the table that the first call left. *)
Lemma X10_order_of_input_witness :
  exists r r',
    fst (process_bookings_with_heap scenario __init__) = Ok r
    /\ fst (process_bookings_with_heap scenario_reversed
              (snd (process_bookings_with_heap scenario __init__))) = Ok r'
    /\ boardingSequence r = boardingSequence r'
    /\ totalBookings r = totalBookings r'
    /\ totalPassengers r = totalPassengers r'.
Proof.
  apply (X10_order_of_input scenario scenario_reversed __init__
           (snd (process_bookings_with_heap scenario __init__))).
  - exact init_consistent.
  - apply process_preserves; [|exact init_consistent].
    intros l s Hs. now apply get_seat_distance_spec.
  - batch_eligible.
  - batch_distinct_ids.
  - apply Permutation_rev.
Defined.

(** X11: from two consistent tables [process_bookings_with_heap] behaves
    alike on a batch, whatever the batch: both calls return, with the same
    entries and totals, or both raise, the same exception. *)
Theorem X11_table_is_transparent (bookings : list Booking.t)
    (self self' : processor) :
  cache_consistent self -> cache_consistent self' ->
  match fst (process_bookings_with_heap bookings self),
        fst (process_bookings_with_heap bookings self') with
  | Ok r, Ok r' =>
      boardingSequence r = boardingSequence r'
      /\ totalBookings r = totalBookings r'
      /\ totalPassengers r = totalPassengers r'
  | Raise e, Raise e' => e = e'
  | _, _ => False
  end.
Proof.
  intros Hc Hc'.
  pose proof (process_entries bookings self Hc) as H.
  pose proof (process_entries bookings self' Hc') as H'.
  pose proof (process_totals bookings self) as Ht.
  pose proof (process_totals bookings self') as Ht'.
  destruct (fst (process_bookings_with_heap bookings self)) as [r|e],
    (fst (process_bookings_with_heap bookings self')) as [r'|e']; try congruence.
  destruct (Ht r eq_refl) as [-> ->]. destruct (Ht' r' eq_refl) as [-> ->].
  split; [congruence|done].
Qed.

(** X11 on a batch with a seat that does not resolve, from a new processor
    and from the one that a call on the batch of the specification left. *)
Lemma X11_table_is_transparent_witness :
  cache_consistent __init__
  /\ cache_consistent (snd (process_bookings_with_heap scenario __init__))
  /\ match fst (process_bookings_with_heap [booking "1" ["A1"; "Z99"]] __init__),
           fst (process_bookings_with_heap [booking "1" ["A1"; "Z99"]]
                  (snd (process_bookings_with_heap scenario __init__))) with
     | Ok r, Ok r' =>
         boardingSequence r = boardingSequence r'
         /\ totalBookings r = totalBookings r'
         /\ totalPassengers r = totalPassengers r'
     | Raise e, Raise e' => e = e'
     | _, _ => False
     end.
Proof.
  assert (Hc' : cache_consistent (snd (process_bookings_with_heap scenario __init__))).
  { apply process_preserves; [|exact init_consistent].
    intros l s Hs. now apply get_seat_distance_spec. }
  split; [exact init_consistent|]. split; [exact Hc'|].
  exact (X11_table_is_transparent [booking "1" ["A1"; "Z99"]] __init__
           (snd (process_bookings_with_heap scenario __init__)) init_consistent Hc').
Defined.

(** X12: in every entry that [process_bookings_with_heap] returns from a
    consistent table, [minDistance <= maxDistance], and the two are the
    same double when the booking has one seat. *)
Theorem X12_min_le_max (bookings : list Booking.t) (self : processor)
    (r : sequencing_result) :
  cache_consistent self ->
  fst (process_bookings_with_heap bookings self) = Ok r ->
  Forall (fun entry =>
            PyFloat.leb (Entry.minDistance entry) (Entry.maxDistance entry) = true
            /\ (length (Entry.seats entry) = 1%nat ->
                Entry.minDistance entry = Entry.maxDistance entry))
         (boardingSequence r).
Proof.
  intros Hc Hr.
  destruct (process_bookings_sequenced bookings self r Hc Hr) as (Hs & _ & _).
  eapply Forall_impl; [exact (seq_distances _ _ Hs)|].
  intros entry (ds & Hds & [Hmax_in Hmax] & [Hmin_in Hmin]). split.
  - rewrite Forall_forall in Hmax. now apply Hmax.
  - intros Hlen. apply resolve_all_length in Hds. rewrite Hlen in Hds.
    destruct ds as [|d [|d' ds]]; try discriminate.
    apply list_elem_of_singleton in Hmax_in, Hmin_in. congruence.
Qed.

(** X12 on the batch of one booking with the seat [D20]. *)
Lemma X12_min_le_max_witness :
  exists r,
    fst (process_bookings_with_heap [booking "7" ["D20"]] __init__) = Ok r
    /\ Forall (fun entry =>
                 PyFloat.leb (Entry.minDistance entry) (Entry.maxDistance entry) = true
                 /\ (length (Entry.seats entry) = 1%nat ->
                     Entry.minDistance entry = Entry.maxDistance entry))
              (boardingSequence r).
Proof.
  eexists. split; [vm_compute; reflexivity|].
  eapply (X12_min_le_max [booking "7" ["D20"]] __init__);
    [exact init_consistent|vm_compute; reflexivity].
Defined.

(** ** The distance of a seat *)

(** X13: zeros before the row change nothing, up to the limit of [int]: a
    label with zeros between the column and the digits of the row, the row
    being of at most 4300 digits with them, resolves as the label without
    them does, since the pattern accepts them and [int] drops them.  With
    more than 4300 digits in all, the label raises the [ValueError] of
    [int], whatever the label without the zeros does. *)
Theorem X13_leading_zeros (c : ascii) (ds : string) (n : nat) :
  is_column c = true -> all_digits ds = true -> ds <> EmptyString ->
  ((n + String.length ds <= int_max_str_digits)%nat ->
   _calculate_seat_distance (String c (replicate_char n "0" ++ ds))
   = _calculate_seat_distance (String c ds))
  /\ ((int_max_str_digits < n + String.length ds)%nat ->
      _calculate_seat_distance (String c (replicate_char n "0" ++ ds))
      = Raise ValueError_int_max_str_digits).
Proof.
  intros Hc Hds Hne.
  assert (Hm : seat_match (String c (replicate_char n "0" ++ ds))
               = Some (c, (replicate_char n "0" ++ ds)%string)).
  { apply seat_match_spec; [done|now apply all_digits_zeros|].
    destruct n; [done|discriminate]. }
  rewrite (calculate_seat_match _ _ _ Hm). split; intros Hlen.
  - rewrite (calculate_seat_match_short _ c ds);
      [|now apply seat_match_spec|lia].
    rewrite int_short by (rewrite length_zeros; lia).
    unfold int_value. now rewrite int_acc_zeros.
  - now rewrite int_long by (rewrite length_zeros; lia).
Qed.

(** X13 on [A007] and [A7], and on [A] followed by 4300 zeros and a seven. *)
Lemma X13_leading_zeros_witness :
  _calculate_seat_distance "A007" = _calculate_seat_distance "A7"
  /\ _calculate_seat_distance "A7" = Ok (PyFloat.literal 73 10)
  /\ _calculate_seat_distance (String "A" (replicate_char 4300 "0" ++ "7"))
     = Raise ValueError_int_max_str_digits.
Proof.
  split; [|split].
  - apply (X13_leading_zeros "A" "7" 2 eq_refl eq_refl ltac:(discriminate)).
    apply Nat.leb_le. reflexivity.
  - vm_compute. reflexivity.
  - apply (X13_leading_zeros "A" "7" 4300 eq_refl eq_refl ltac:(discriminate)).
    apply Nat.ltb_lt. reflexivity.
Defined.

(** X14: below row [2^49] the distance tells the seat.  Two labels with
    columns [A-D] and rows below [2^49], each written with at most 4300
    digits, both resolve; the one with the
    lesser row resolves to the lesser distance, whatever the columns; and
    where the two distances are [==], the rows and the columns are the
    same. *)
Theorem X14_distance_tells_seat (c c' : ascii) (ds ds' : string) :
  is_column c = true -> is_column c' = true ->
  all_digits ds = true -> ds <> EmptyString ->
  (String.length ds <= int_max_str_digits)%nat -> (int_value ds < 2 ^ 49)%Z ->
  all_digits ds' = true -> ds' <> EmptyString ->
  (String.length ds' <= int_max_str_digits)%nat -> (int_value ds' < 2 ^ 49)%Z ->
  exists d d',
    _calculate_seat_distance (String c ds) = Ok d
    /\ _calculate_seat_distance (String c' ds') = Ok d'
    /\ ((int_value ds < int_value ds')%Z -> PyFloat.ltb d d' = true)
    /\ (PyFloat.eqb d d' = true -> int_value ds = int_value ds' /\ c = c').
Proof.
  intros Hc Hc' Hds Hne Hlen Hlt Hds' Hne' Hlen' Hlt'.
  pose proof (int_nonneg ds Hds) as H0. pose proof (int_nonneg ds' Hds') as H0'.
  rewrite (calculate_seat_match_short _ c ds); [|now apply seat_match_spec|done].
  rewrite (calculate_seat_match_short _ c' ds'); [|now apply seat_match_spec|done].
  destruct (distance_between c (int_value ds) Hc) as (_ & _ & d & _ & _ & Hd & _); [lia|].
  destruct (distance_between c' (int_value ds') Hc') as (_ & _ & d' & _ & _ & Hd' & _);
    [lia|].
  exists d, d'. split; [done|]. split; [done|]. split.
  - intros Hrow.
    destruct (distance_row_order c c' (int_value ds) (int_value ds'))
      as (x & x' & Hx & Hx' & H); auto.
    congruence.
  - intros Heq.
    destruct (Z.lt_trichotomy (int_value ds) (int_value ds')) as [Hrow|[Hrow|Hrow]].
    + destruct (distance_row_order c c' (int_value ds) (int_value ds'))
        as (x & x' & Hx & Hx' & H); auto.
      assert (x = d) as -> by congruence. assert (x' = d') as -> by congruence.
      apply ltb_eqb_false in H. congruence.
    + split; [done|]. destruct (ascii_dec c c') as [|Hcc]; [done|].
      rewrite <- Hrow in Hd'.
      destruct (distance_column_order c c' (int_value ds)) as (x & x' & Hx & Hx' & H);
        [done|done|done|lia|].
      assert (x = d) as -> by congruence. assert (x' = d') as -> by congruence.
      destruct H as [H|H]; apply ltb_eqb_false in H;
        [|rewrite eqb_sym in H]; congruence.
    + destruct (distance_row_order c' c (int_value ds') (int_value ds))
        as (x' & x & Hx' & Hx & H); auto.
      assert (x = d) as -> by congruence. assert (x' = d') as -> by congruence.
      apply ltb_eqb_false in H. rewrite eqb_sym in H. congruence.
Qed.

(** X14 on the labels [A3] and [D4]. *)
Lemma X14_distance_tells_seat_witness :
  exists d d',
    _calculate_seat_distance "A3" = Ok d
    /\ _calculate_seat_distance "D4" = Ok d'
    /\ ((int_value "3" < int_value "4")%Z -> PyFloat.ltb d d' = true)
    /\ (PyFloat.eqb d d' = true -> int_value "3" = int_value "4" /\ "A"%char = "D"%char).
Proof.
  apply (X14_distance_tells_seat "A" "D" "3" "4");
    first [reflexivity|discriminate|apply Nat.leb_le; reflexivity].
Defined.

(** ** The parser reads back what is written for it *)

(** X15: a text made of a header line and of one line [id,Qseat,seat,...Q]
    per booking, [Q] the double quote, parses back to the bookings, in
    their order, provided the ids are distinct words (no space, comma or
    double quote), and each booking has at least one seat, all labels of
    [^[A-D][0-9]+$]. *)
Theorem X15_parse_render (bookings : list Booking.t) :
  Forall (fun b =>
            word (Booking.bookingId b)
            /\ Booking.seats b <> []
            /\ Forall (fun seat => spec_seat_label seat = true) (Booking.seats b))
         bookings ->
  NoDup (map Booking.bookingId bookings) ->
  parse_booking_data (render bookings) = Ok bookings.
Proof.
  intros Hall Hnd. unfold parse_booking_data.
  assert (Hlines : Forall (fun l => ends_well l /\ contains line_feed l = false)
                     ("Booking_ID,Seats" :: map render_line bookings)).
  { apply Forall_cons. split; [repeat split; done|].
    apply Forall_fmap. eapply Forall_impl; [exact Hall|]. intros b Hb. split.
    - now apply render_line_ends_well.
    - now apply render_line_line_feed. }
  assert (Hstrip : strip (render bookings) = render bookings).
  { unfold strip.
    assert (Hl : lstrip (render bookings) = render bookings).
    { unfold render. destruct (map render_line bookings); reflexivity. }
    rewrite Hl. apply join_ends_well; [done|].
    eapply Forall_impl; [exact Hlines|]. now intros l [? _]. }
  rewrite Hstrip. unfold render. rewrite split_join.
  - cbn [tl].
    destruct (parse_lines_render bookings [] ∅ false Hall Hnd) as (state & -> & Hs);
      [set_solver|].
    cbn. now rewrite Hs.
  - done.
  - eapply Forall_impl; [exact Hlines|]. now intros l [_ ?].
Qed.

(** X15 on the batch of the specification. *)
Lemma X15_parse_render_witness :
  parse_booking_data (render scenario) = Ok scenario.
Proof.
  apply X15_parse_render.
  - Forall_by ltac:(split; [split; [discriminate|reflexivity]
                           |split; [discriminate|Forall_by ltac:(reflexivity)]]).
  - apply (bool_decide_unpack _). vm_compute. reflexivity.
Defined.
